(** * GenFinder: a shallow embedding of [script/genfinder.py]

    The script resolves a Spotify or SoundCloud link to a Genius song and
    prints (or saves) its metadata and lyrics.  This development embeds the
    script's functions in Gallina and proves the properties its specification
    states about them.

    Modelling conventions.
    - A Python [str] is a [string]; a character is read as the code point
      of the same number, so the model covers the code points 0..255.  The
      character classes used by [str.strip], [str.lower] and the regular
      expression classes [\w] and [\s] are the ones CPython has on that range.
    - A Python [int] is a [Z]; [Optional[int]] is [option Z].
    - A value decoded from JSON is a [json]; floats are left out.
    - The parsed page is a tree of [node]s.  Tags carry an identity, and
      the scraper works on a heap of trees through references, as the
      script works on shared objects.
    - Network calls and the file system are answered by a [world] record;
      every visible effect (request, write to a stream, file written) is
      logged as an [event], and exceptions are values of an error monad.
    - Library functions ([str] methods, [re.sub] with a character class,
      [requests], [BeautifulSoup], [json], [os.path.join]) are modelled by
      what they do on the inputs the script gives them.
    - The command line is taken as parsed ([args]); an interruption from
      the keyboard is not modelled. *)

From Stdlib Require Import List String Ascii ZArith NArith Bool Lia Arith Permutation.
From Stdlib Require Import DecimalString Decimal DecimalZ DecimalFacts.
Import ListNotations.

Set Warnings "-register-all".

Local Open Scope list_scope.
Local Open Scope string_scope.

(* ================================================================== *)
(** * Python string builtins *)
(* ================================================================== *)

Module PyStr.

(** [ord c]: the code point of a character. *)
Definition ord (c : ascii) : N := N_of_ascii c.

Definition in_range (lo hi : N) (c : ascii) : bool :=
  (lo <=? ord c)%N && (ord c <=? hi)%N.

(** [str.isspace] on one character; also the class [\s] of [re]. *)
Definition isspace (c : ascii) : bool :=
  in_range 9 13 c || in_range 28 32 c || (ord c =? 133)%N || (ord c =? 160)%N.

(** [str.isalnum] on one character (letters, digits, numeric characters). *)
Definition isalnum (c : ascii) : bool :=
  in_range 48 57 c || in_range 65 90 c || in_range 97 122 c
  || (ord c =? 170)%N || in_range 178 179 c || (ord c =? 181)%N
  || in_range 185 186 c || in_range 188 190 c
  || in_range 192 214 c || in_range 216 246 c || in_range 248 255 c.

(** The class [\w] of [re] on a [str] pattern. *)
Definition isword (c : ascii) : bool := isalnum c || (ord c =? 95)%N.

Definition is_upper (c : ascii) : bool :=
  in_range 65 90 c || (in_range 192 222 c && negb (ord c =? 215)%N).

Definition lower_char (c : ascii) : ascii :=
  if is_upper c then ascii_of_N (ord c + 32) else c.

(** [s.lower()] *)
Fixpoint lower (s : string) : string :=
  match s with
  | EmptyString => EmptyString
  | String c r => String (lower_char c) (lower r)
  end.

(** [s.lstrip()] *)
Fixpoint lstrip (s : string) : string :=
  match s with
  | EmptyString => EmptyString
  | String c r => if isspace c then lstrip r else s
  end.

(** [s.rstrip()] *)
Fixpoint rstrip (s : string) : string :=
  match s with
  | EmptyString => EmptyString
  | String c r =>
      match rstrip r with
      | EmptyString => if isspace c then EmptyString else String c EmptyString
      | r' => String c r'
      end
  end.

(** [s.strip()] *)
Definition strip (s : string) : string := rstrip (lstrip s).

(** [s.startswith(p)] *)
Fixpoint startswith (p s : string) : bool :=
  match p, s with
  | EmptyString, _ => true
  | String a p', String b s' => Ascii.eqb a b && startswith p' s'
  | String _ _, EmptyString => false
  end.

(** [s.endswith(p)] for a one-character [p]. *)
Fixpoint endswith (p s : string) : bool :=
  match s with
  | EmptyString => false
  | String c EmptyString => String.eqb p s
  | String _ r => endswith p r
  end.

(** [p in s]: substring test. *)
Fixpoint contains (p s : string) : bool :=
  startswith p s ||
  match s with
  | EmptyString => false
  | String _ r => contains p r
  end.

(** [s.split(sep)] for a non-empty [sep]: the text is cut at the
    occurrences of [sep] found from left to right, without overlap.
    [skip] counts the characters of a separator still to be passed. *)
Fixpoint split_from (sep : string) (skip : nat) (s : string) : list string :=
  match s with
  | EmptyString => [EmptyString]
  | String c r =>
      match skip with
      | S k => split_from sep k r
      | O =>
          if startswith sep s
          then EmptyString :: split_from sep (String.length sep - 1) r
          else match split_from sep 0 r with
               | h :: t => String c h :: t
               | [] => [String c EmptyString]
               end
      end
  end.

Definition split (sep s : string) : list string := split_from sep 0 s.

(** [sep.join(l)] *)
Fixpoint join (sep : string) (l : list string) : string :=
  match l with
  | [] => EmptyString
  | [x] => x
  | x :: r => x ++ sep ++ join sep r
  end.

(** [s.replace(a, b)] for one-character [a] and [b]. *)
Fixpoint replace_char (a b : ascii) (s : string) : string :=
  match s with
  | EmptyString => EmptyString
  | String c r => String (if Ascii.eqb c a then b else c) (replace_char a b r)
  end.

(** Deleting the characters that fail [keep]: [re.sub('[^...]', '', s)]. *)
Fixpoint keep_chars (keep : ascii -> bool) (s : string) : string :=
  match s with
  | EmptyString => EmptyString
  | String c r => if keep c then String c (keep_chars keep r) else keep_chars keep r
  end.

(** Truth value of a string: [bool(s)]. *)
Definition truthy (s : string) : bool :=
  match s with EmptyString => false | _ => true end.

(** [str(n)] for an integer. *)
Definition of_Z (z : Z) : string := NilZero.string_of_int (Z.to_int z).

End PyStr.

(** [l.append(x)] *)
Definition list_append {A : Type} (l : list A) (x : A) : list A := (l ++ [x])%list.

(** Characters that cannot be written inside a string literal. *)
Definition LF : ascii := "010"%char.
Definition DQUOTE : ascii := "034"%char.
Definition nl : string := String LF EmptyString.

(* ================================================================== *)
(** * Python values read from JSON *)
(* ================================================================== *)

(** The values [json.loads] builds, floats left out: [None], [bool], [int],
    [str], [list], and [dict] with [str] keys.  A [dict] keeps its items in
    insertion order and holds a key once. *)
Inductive json : Type :=
| JNull
| JBool (b : bool)
| JInt (z : Z)
| JString (s : string)
| JList (items : list json)
| JDict (pairs : list (string * json)).

(** A Python exception, with the text [str(e)] needs. *)
Inductive exn : Type :=
| ValueError (msg : string)
| HTTPError (msg : string)          (* requests.exceptions.HTTPError *)
| RequestException (msg : string)   (* any other failure of [requests] *)
| JSONDecodeError (msg : string)
| KeyError (key : string)
| TypeError (msg : string)
| AttributeError (msg : string)
| OSError (msg : string)
| SystemExit (code : Z).

Module Py.

(** [d.get(k)] on the items of a dict. *)
Fixpoint dict_get (k : string) (d : list (string * json)) : option json :=
  match d with
  | [] => None
  | (k', v) :: r => if String.eqb k k' then Some v else dict_get k r
  end.

(** [d[k] = v]: an existing key keeps its place. *)
Fixpoint dict_set (k : string) (v : json) (d : list (string * json))
  : list (string * json) :=
  match d with
  | [] => [(k, v)]
  | (k', v') :: r =>
      if String.eqb k k' then (k', v) :: r else (k', v') :: dict_set k v r
  end.

(** [bool(v)] *)
Definition truthy (v : json) : bool :=
  match v with
  | JNull => false
  | JBool b => b
  | JInt z => negb (z =? 0)%Z
  | JString s => PyStr.truthy s
  | JList l => match l with [] => false | _ => true end
  | JDict d => match d with [] => false | _ => true end
  end.

(** [bool(d.get(k))] *)
Definition truthy_get (k : string) (d : list (string * json)) : bool :=
  match dict_get k d with Some v => truthy v | None => false end.

Definition hex_digit (n : N) : ascii :=
  if (n <? 10)%N then ascii_of_N (48 + n) else ascii_of_N (87 + n).

(** Two lower-case hexadecimal digits of a character. *)
Definition hex2 (c : ascii) : string :=
  String (hex_digit (PyStr.ord c / 16)) (String (hex_digit (PyStr.ord c mod 16)) "").

(** [str.isprintable] on one character. *)
Definition isprintable (c : ascii) : bool :=
  (PyStr.in_range 32 126 c || PyStr.in_range 161 255 c)
  && negb (PyStr.ord c =? 173)%N.

Definition repr_char (quote c : ascii) : string :=
  if Ascii.eqb c quote || Ascii.eqb c "\"%char then String "\"%char (String c "")
  else if (PyStr.ord c =? 9)%N then "\t"
  else if (PyStr.ord c =? 10)%N then "\n"
  else if (PyStr.ord c =? 13)%N then "\r"
  else if isprintable c then String c ""
  else "\x" ++ hex2 c.

Fixpoint repr_chars (quote : ascii) (s : string) : string :=
  match s with
  | EmptyString => EmptyString
  | String c r => repr_char quote c ++ repr_chars quote r
  end.

Definition has_char (c : ascii) (s : string) : bool :=
  PyStr.contains (String c "") s.

(** [repr(s)] of a string: single quotes unless the text has one and no
    double quote. *)
Definition repr_str (s : string) : string :=
  let quote := if has_char "'"%char s && negb (has_char DQUOTE s)
               then DQUOTE else "'"%char in
  String quote (repr_chars quote s ++ String quote "").

(** [repr(v)] *)
Fixpoint repr (v : json) : string :=
  match v with
  | JNull => "None"
  | JBool true => "True"
  | JBool false => "False"
  | JInt z => PyStr.of_Z z
  | JString s => repr_str s
  | JList l => "[" ++ PyStr.join ", " (map repr l) ++ "]"
  | JDict d =>
      "{" ++ PyStr.join ", "
               (map (fun kv => repr_str (fst kv) ++ ": " ++ repr (snd kv)) d)
          ++ "}"
  end.

(** [str(v)], what an f-string writes for [{v}]. *)
Definition str (v : json) : string :=
  match v with
  | JString s => s
  | _ => repr v
  end.

(** [str(o)] of an optional value, [None] when absent. *)
Definition str_opt (o : option json) : string :=
  match o with Some v => str v | None => "None" end.

(** [v[k]] for a string key [k]. *)
Definition subscript (v : json) (k : string) : json + exn :=
  match v with
  | JDict d =>
      match dict_get k d with
      | Some x => inl x
      | None => inr (KeyError k)
      end
  | JString _ => inr (TypeError "string indices must be integers")
  | JList _ => inr (TypeError "list indices must be integers or slices, not str")
  | _ => inr (TypeError "object is not subscriptable")
  end.

(** [str(e)] of an exception. *)
Definition exn_str (e : exn) : string :=
  match e with
  | ValueError m | HTTPError m | RequestException m
  | JSONDecodeError m | TypeError m | AttributeError m | OSError m => m
  | KeyError k => repr_str k
  | SystemExit c => PyStr.of_Z c
  end.

Definition exn_name (e : exn) : string :=
  match e with
  | ValueError _ => "ValueError"
  | HTTPError _ => "requests.exceptions.HTTPError"
  | RequestException _ => "requests.exceptions.RequestException"
  | JSONDecodeError _ => "json.decoder.JSONDecodeError"
  | KeyError _ => "KeyError"
  | TypeError _ => "TypeError"
  | AttributeError _ => "AttributeError"
  | OSError _ => "OSError"
  | SystemExit _ => "SystemExit"
  end.

(** [type(v).__name__] *)
Definition type_name (v : json) : string :=
  match v with
  | JNull => "NoneType"
  | JBool _ => "bool"
  | JInt _ => "int"
  | JString _ => "str"
  | JList _ => "list"
  | JDict _ => "dict"
  end.

(** What [v.attr] raises when the type of [v] has no attribute [attr]. *)
Definition no_attribute (v : json) (attr : string) : exn :=
  AttributeError ("'" ++ type_name v ++ "' object has no attribute '" ++ attr ++ "'").

End Py.

(* ================================================================== *)
(** * The parsed page: BeautifulSoup's tree *)
(* ================================================================== *)

(** A parsed document.  A [Tag] carries the identity of its Python object
    ([uid]): the script keeps references to tags while it edits the tree
    they live in.  [Comment] stands for the strings [get_text] leaves out
    (comments, declarations and the like). *)
Inductive node : Type :=
| NavigableString (s : string)
| Comment (s : string)
| Tag (uid : nat) (name : string) (attrs : list (string * string))
      (contents : list node).

Module Soup.

(** [tag.attrs.get(k)] *)
Fixpoint attr_get (k : string) (attrs : list (string * string)) : option string :=
  match attrs with
  | [] => None
  | (k', v) :: r => if String.eqb k k' then Some v else attr_get k r
  end.

(** [tag.descendants]: every node below [n], in document order. *)
Fixpoint descendants (n : node) : list node :=
  match n with
  | Tag _ _ _ cs => flat_map (fun c => c :: descendants c) cs
  | _ => []
  end.

(** The nodes reachable from a list of roots, the roots included. *)
Definition nodes_of (roots : list node) : list node :=
  flat_map (fun r => r :: descendants r) roots.

Definition has_uid (u : nat) (n : node) : bool :=
  match n with
  | Tag i _ _ _ => Nat.eqb i u
  | _ => false
  end.

(** The identities of the tags of a list of nodes. *)
Fixpoint uids (l : list node) : list nat :=
  match l with
  | [] => []
  | Tag i _ _ _ :: r => i :: uids r
  | _ :: r => uids r
  end.

(** The filter of [find_all("div", {"data-lyrics-container": "true"})]. *)
Definition is_lyrics_container (n : node) : bool :=
  match n with
  | Tag _ name attrs _ =>
      String.eqb name "div" &&
      match attr_get "data-lyrics-container" attrs with
      | Some v => String.eqb v "true"
      | None => false
      end
  | _ => false
  end.

(** The filter of [find_all(attrs={"data-exclude-from-selection": True})]:
    the attribute is present, whatever its value. *)
Definition is_excluded (n : node) : bool :=
  match n with
  | Tag _ _ attrs _ =>
      match attr_get "data-exclude-from-selection" attrs with
      | Some _ => true
      | None => false
      end
  | _ => false
  end.

(** [n.find_all(...)] with filter [p]: references to the matching
    descendants, in document order. *)
Definition find_all (p : node -> bool) (n : node) : list nat :=
  uids (filter p (descendants n)).

(** The strings [get_text] joins: every [NavigableString] below [n]. *)
Fixpoint strings (n : node) : list string :=
  match n with
  | NavigableString s => [s]
  | Comment _ => []
  | Tag _ _ _ cs => flat_map strings cs
  end.

(** [n.get_text(separator=sep)] *)
Definition get_text (sep : string) (n : node) : string :=
  PyStr.join sep (strings n).

(** The objects alive during the scrape: the document and, after it, the
    subtrees taken out of it. *)
Definition heap : Type := list node.

(** Following a reference. *)
Definition deref (u : nat) (h : heap) : option node :=
  find (has_uid u) (nodes_of h).

(** [n] with the child of identity [u] taken out of the contents that
    hold it. *)
Fixpoint detach (u : nat) (n : node) : node :=
  match n with
  | Tag i name attrs cs =>
      Tag i name attrs
          (filter (fun c => negb (has_uid u c)) (map (detach u) cs))
  | _ => n
  end.

(** [e.extract()]: the element leaves its parent's contents and lives
    on as a tree of its own; an element without a parent stays as it is. *)
Definition extract (h : heap) (u : nat) : heap :=
  if existsb (has_uid u) h then h
  else match deref u h with
       | Some t => (map (detach u) h ++ [t])%list
       | None => h
       end.

(** The identities of the tags of a forest. *)
Definition uids_of (f : list node) : list nat := uids (nodes_of f).

(** [detach u] on the trees of a forest. *)
Definition detach_all (u : nat) (f : list node) : list node :=
  filter (fun c => negb (has_uid u c)) (map (detach u) f).

End Soup.

(* ================================================================== *)
(** * Effects: event log and exceptions *)
(* ================================================================== *)

(** What a run does that can be seen from outside. *)
Inductive event : Type :=
| HttpGet (url : string) (params : list (string * string))
| StderrWrite (text : string)
| StdoutWrite (text : string)
| MakeDirs (path : string)
| FileWrite (path : string) (content : string).

(** A computation returns a value or raises, and logs its events. *)
Definition M (A : Type) : Type := ((A + exn) * list event)%type.

Definition ret {A : Type} (a : A) : M A := (inl a, []).

Definition raise {A : Type} (e : exn) : M A := (inr e, []).

Definition bind {A B : Type} (m : M A) (k : A -> M B) : M B :=
  match m with
  | (inl a, l) => let (r, l') := k a in (r, (l ++ l')%list)
  | (inr e, l) => (inr e, l)
  end.

Definition emit (e : event) : M unit := (inl tt, [e]).

Notation "x <- m ;; k" := (bind m (fun x => k))
  (at level 61, m at next level, right associativity).
Notation "m ;;; k" := (bind m (fun _ => k))
  (at level 61, right associativity).

(** [try: m except <clauses>]: the first clause whose class test accepts
    the exception handles it; with none, the exception goes on. *)
Fixpoint select_clause {A : Type} (clauses : list ((exn -> bool) * (exn -> M A)))
         (e : exn) : option (exn -> M A) :=
  match clauses with
  | [] => None
  | (accepts, handler) :: r =>
      if accepts e then Some handler else select_clause r e
  end.

Definition try_except {A : Type} (m : M A)
           (clauses : list ((exn -> bool) * (exn -> M A))) : M A :=
  match m with
  | (inr e, l) =>
      match select_clause clauses e with
      | Some handler => let (r, l') := handler e in (r, (l ++ l')%list)
      | None => m
      end
  | _ => m
  end.

(** Class tests of the [except] clauses.  [HTTPError] and the
    [JSONDecodeError] that [response.json()] raises are subclasses of
    [requests.RequestException]. *)
Definition is_RequestException (e : exn) : bool :=
  match e with
  | HTTPError _ | RequestException _ | JSONDecodeError _ => true
  | _ => false
  end.

Definition is_HTTPError (e : exn) : bool :=
  match e with HTTPError _ => true | _ => false end.

Definition is_ValueError (e : exn) : bool :=
  match e with ValueError _ | JSONDecodeError _ => true | _ => false end.

Definition is_KeyError_or_JSONDecodeError (e : exn) : bool :=
  match e with KeyError _ | JSONDecodeError _ => true | _ => false end.

(** [except Exception]: everything but [SystemExit]. *)
Definition is_Exception (e : exn) : bool :=
  match e with SystemExit _ => false | _ => true end.

Definition stderr_write (text : string) : M unit := emit (StderrWrite text).

(** [print(text)] *)
Definition print (text : string) : M unit := emit (StdoutWrite (text ++ nl)).

(** [sys.exit(code)] *)
Definition sys_exit {A : Type} (code : Z) : M A := raise (SystemExit code).

(* ================================================================== *)
(** * The services the script talks to *)
(* ================================================================== *)

(** An HTTP response; [body] is the decoded payload, [None] when the
    payload cannot be decoded into the shape the script reads. *)
Record response (A : Type) : Type := mkResponse {
  status_code : Z;
  reason : string;
  resp_url : string;
  body : option A
}.
Arguments mkResponse {A}.
Arguments status_code {A}.
Arguments reason {A}.
Arguments resp_url {A}.
Arguments body {A}.

(** What [requests.get] gives: a response, or a [RequestException]
    (no connection, timeout, bad URL) with its text. *)
Inductive reply (A : Type) : Type :=
| Unreachable (e : string)
| Answer (r : response A).
Arguments Unreachable {A}.
Arguments Answer {A}.

(** One search hit: [hit["result"]["id"]] and
    [hit["result"]["primary_artist"]["name"]]. *)
Record hit : Type := mkHit {
  hit_id : Z;
  primary_artist_name : string
}.

(** A song record: the items of the dict the song endpoint returns. *)
Definition song_record : Type := list (string * json).

(** The outside of one run.  The oEmbed payload is the value
    [response.json()] decodes, whatever its type. *)
Record world : Type := mkWorld {
  spotify_oembed : string -> reply json;
  soundcloud_oembed : string -> reply json;
  genius_search : string -> string -> reply (list hit);
  genius_song : string -> Z -> reply song_record;
  genius_page : string -> reply node;
  makedirs_error : string -> option string;
  open_error : string -> option string
}.

(** [requests.get(url, params=params, timeout=10)] *)
Definition requests_get {A : Type} (answer : reply A) (url : string)
           (params : list (string * string)) : M (response A) :=
  emit (HttpGet url params) ;;;
  match answer with
  | Unreachable e => raise (RequestException e)
  | Answer r => ret r
  end.

(** [response.raise_for_status()] *)
Definition raise_for_status {A : Type} (r : response A) : M unit :=
  let s := status_code r in
  if (400 <=? s)%Z && (s <? 500)%Z then
    raise (HTTPError (PyStr.of_Z s ++ " Client Error: " ++ reason r
                        ++ " for url: " ++ resp_url r))
  else if (500 <=? s)%Z && (s <? 600)%Z then
    raise (HTTPError (PyStr.of_Z s ++ " Server Error: " ++ reason r
                        ++ " for url: " ++ resp_url r))
  else ret tt.

(** Reading the payload: [response.json()[...]], or the parse of
    [response.text]; [failure] is raised when it cannot be read. *)
Definition payload {A : Type} (failure : exn) (r : response A) : M A :=
  match body r with
  | Some a => ret a
  | None => raise failure
  end.

(* ================================================================== *)
(** * The script *)
(* ================================================================== *)

Definition GENIUS_API_BASE : string := "https://api.genius.com".

(** The value [GENIUS_ACCESS_TOKEN] has in the distributed script; the
    user replaces it, so the functions below take the token as argument. *)
Definition TOKEN_PLACEHOLDER : string :=
  "[/!\ YOUR GENIUS ACCESS TOKEN HERE /!\]".

(** Lines 52-55: the title of a Spotify track. *)
Definition spotify_title_parts (title : string) : string * string :=
  let parts := map PyStr.strip (PyStr.split " - " title) in
  if (2 <=? List.length parts)%nat
  then (nth 0 parts "", last parts "")
  else (title, "").

(** Lines 77-80: the title of a SoundCloud track. *)
Definition soundcloud_title_parts (title : string) : string * string :=
  let parts := map PyStr.strip (PyStr.split " - " title) in
  if (2 <=? List.length parts)%nat
  then (PyStr.join " - " (tl parts), nth 0 parts "")
  else (title, "").

(** Lines 48 and 73, [data.get("title")]: a dict gives the value under
    [title], or [None] without the key; a value of another type has no
    [get]. *)
Definition get_title (data : json) : M json :=
  match data with
  | JDict d =>
      ret (match Py.dict_get "title" d with Some t => t | None => JNull end)
  | _ => raise (Py.no_attribute data "get")
  end.

(** Lines 52 and 77, [title.split(" - ")]: only a string has [split]. *)
Definition title_text (title : json) : M string :=
  match title with
  | JString t => ret t
  | _ => raise (Py.no_attribute title "split")
  end.

(** Lines 44-59. *)
Definition _get_spotify_metadata (w : world) (url : string) : M (string * string) :=
  try_except
    (response <- requests_get (spotify_oembed w url)
                   ("https://open.spotify.com/oembed?url=" ++ url) [] ;;
     raise_for_status response ;;;
     data <- payload (JSONDecodeError "Expecting value") response ;;
     title <- get_title data ;;
     if negb (Py.truthy title) then
       raise (ValueError "Invalid Spotify metadata: title not found.")
     else
       title <- title_text title ;;
       ret (spotify_title_parts title))
    [ (is_RequestException,
       fun e => raise (ValueError ("Invalid or unreachable Spotify URL: "
                                     ++ Py.exn_str e)));
      (is_KeyError_or_JSONDecodeError,
       fun e => raise (ValueError ("Malformed Spotify response: "
                                     ++ Py.exn_str e))) ].

(** Lines 69-84. *)
Definition _get_soundcloud_metadata (w : world) (url : string) : M (string * string) :=
  try_except
    (response <- requests_get (soundcloud_oembed w url)
                   ("https://soundcloud.com/oembed?format=json&url=" ++ url) [] ;;
     raise_for_status response ;;;
     data <- payload (JSONDecodeError "Expecting value") response ;;
     title <- get_title data ;;
     if negb (Py.truthy title) then
       raise (ValueError "Invalid SoundCloud metadata: title not found.")
     else
       title <- title_text title ;;
       ret (soundcloud_title_parts title))
    [ (is_RequestException,
       fun e => raise (ValueError ("Invalid or unreachable SoundCloud URL: "
                                     ++ Py.exn_str e)));
      (is_KeyError_or_JSONDecodeError,
       fun e => raise (ValueError ("Malformed SoundCloud response: "
                                     ++ Py.exn_str e))) ].

(** Line 103: [artist_lower and artist_lower in primary_artist]. *)
Definition artist_matches (artist_lower : string) (h : hit) : bool :=
  let primary_artist := PyStr.lower (primary_artist_name h) in
  PyStr.truthy artist_lower && PyStr.contains artist_lower primary_artist.

(** Lines 101-104: the loop over the hits; [None] when it runs to its end. *)
Fixpoint first_artist_match (artist_lower : string) (hits : list hit) : option Z :=
  match hits with
  | [] => None
  | h :: rest =>
      if artist_matches artist_lower h then Some (hit_id h)
      else first_artist_match artist_lower rest
  end.

(** Lines 99-108: the choice among the hits. *)
Definition choose_hit (artist : string) (hits : list hit) : option Z :=
  let artist_lower := PyStr.lower artist in
  match first_artist_match artist_lower hits with
  | Some i => Some i
  | None =>
      match hits with
      | h :: _ => Some (hit_id h)
      | [] => None
      end
  end.

Definition search_query (track artist : string) : string :=
  PyStr.strip (track ++ " " ++ artist).

Definition _search_genius (w : world) (track artist token : string) : M (option Z) :=
  let query := search_query track artist in
  response <- requests_get (genius_search w token query)
                (GENIUS_API_BASE ++ "/search") [("q", query)] ;;
  try_except (raise_for_status response)
    [ (is_HTTPError,
       fun e =>
         if (status_code response =? 401)%Z then
           stderr_write ("[ERROR] Invalid Genius API access token: "
                           ++ Py.exn_str e) ;;;
           sys_exit 1
         else raise e) ] ;;;
  hits <- payload (KeyError "response") response ;;
  ret (choose_hit artist hits).

Definition _get_genius_song (w : world) (song_id : Z) (token : string) : M song_record :=
  response <- requests_get (genius_song w token song_id)
                (GENIUS_API_BASE ++ "/songs/" ++ PyStr.of_Z song_id) [] ;;
  try_except (raise_for_status response)
    [ (is_HTTPError,
       fun e =>
         if (status_code response =? 401)%Z then
           stderr_write ("[ERROR] Invalid Genius API access token (HTTP 401 Unauthorized)."
                           ++ nl) ;;;
           sys_exit 1
         else raise e) ] ;;;
  payload (KeyError "response") response.

(** Lines 145-150, the body of the loop over the containers.  [h] is the
    tree as the earlier iterations left it, [lines] is [lyrics_lines]. *)
Definition scrape_container (acc : Soup.heap * list string) (container : nat)
  : Soup.heap * list string :=
  let (h, lines) := acc in
  match Soup.deref container h with
  | None => acc
  | Some c =>
      let h' := fold_left Soup.extract (Soup.find_all Soup.is_excluded c) h in
      match Soup.deref container h' with
      | None => (h', lines)
      | Some c' =>
          let text := PyStr.strip (Soup.get_text nl c') in
          (h', if PyStr.truthy text then list_append lines text else lines)
      end
  end.

(** Lines 141-152 on the parsed page. *)
Definition scrape_soup (soup : node) : string :=
  let lyrics_containers := Soup.find_all Soup.is_lyrics_container soup in
  let (_, lyrics_lines) := fold_left scrape_container lyrics_containers ([soup], []) in
  PyStr.join nl lyrics_lines.

Definition _scrape_genius_lyrics (w : world) (url : string) : M string :=
  response <- requests_get (genius_page w url) url [] ;;
  raise_for_status response ;;;
  soup <- payload (ValueError "markup rejected by the parser") response ;;
  ret (scrape_soup soup).

(** Lines 155-174. *)
Definition _print_metadata (song : song_record) : M string :=
  match Py.subscript (JDict song) "primary_artist" with
  | inr e => raise e
  | inl primary_artist =>
  match Py.subscript primary_artist "name" with
  | inr e => raise e
  | inl artist_name =>
      let parts := [ "Title : " ++ Py.str_opt (Py.dict_get "title" song);
                     "Artist: " ++ Py.str artist_name ] in
      parts <-
        (if Py.truthy_get "album" song then
           match Py.subscript (JDict song) "album" with
           | inr e => raise e
           | inl album =>
               match Py.subscript album "name" with
               | inr e => raise e
               | inl album_name =>
                   ret (list_append parts ("Album : " ++ Py.str album_name))
               end
           end
         else ret parts) ;;
      parts <-
        (if Py.truthy_get "release_date" song then
           match Py.subscript (JDict song) "release_date" with
           | inr e => raise e
           | inl release_date =>
               ret (list_append parts ("Date  : " ++ Py.str release_date))
           end
         else ret parts) ;;
      let parts := list_append parts ("URL   : " ++ Py.str_opt (Py.dict_get "url" song)) in
      ret (PyStr.join nl parts)
  end
  end.

(** The characters the pattern [[^\w\s\-_().]] leaves in place. *)
Definition filename_char (c : ascii) : bool :=
  PyStr.isword c || PyStr.isspace c
  || Ascii.eqb c "-" || Ascii.eqb c "_"
  || Ascii.eqb c "(" || Ascii.eqb c ")" || Ascii.eqb c ".".

(** Line 188. *)
Definition _sanitize_filename (name : string) : string :=
  PyStr.replace_char " " "_" (PyStr.strip (PyStr.keep_chars filename_char name)).

(** [os.path.join(folder, name)] of [posixpath]. *)
Definition path_join (folder name : string) : string :=
  if PyStr.startswith "/" name then name
  else if negb (PyStr.truthy folder) || PyStr.endswith "/" folder
       then folder ++ name
       else folder ++ "/" ++ name.

(** The capital E with acute accent of the message printed after saving. *)
Definition E_ACUTE : ascii := "201"%char.

(** Lines 191-207.  The title is whatever the record holds under
    [title]; [re.sub] rejects a value that is not a string. *)
Definition _write_to_file (w : world) (content : string) (title : json)
           (folder_path extension : string) : M unit :=
  (match makedirs_error w folder_path with
   | Some e => raise (OSError e)
   | None => emit (MakeDirs folder_path)
   end) ;;;
  filename <- (match title with
               | JString t => ret (_sanitize_filename t)
               | _ => raise (TypeError "expected string or bytes-like object")
               end) ;;
  let filepath := path_join folder_path (filename ++ "." ++ extension) in
  (match open_error w filepath with
   | Some e => raise (OSError e)
   | None => emit (FileWrite filepath content)
   end) ;;;
  print (nl ++ "[FICHIER SAUV" ++ String E_ACUTE "] " ++ filepath).

(* ================================================================== *)
(** * [json.dumps(..., ensure_ascii=False, indent=2)] *)
(* ================================================================== *)

Module Json.

(** One character inside a JSON string: the quote, the backslash and
    the control characters are escaped, everything else is written as
    it is (nothing is escaped for being outside ASCII). *)
Definition escape_char (c : ascii) : string :=
  if Ascii.eqb c DQUOTE then String "\" (String DQUOTE "")
  else if Ascii.eqb c "\" then "\\"
  else if (PyStr.ord c =? 10)%N then "\n"
  else if (PyStr.ord c =? 13)%N then "\r"
  else if (PyStr.ord c =? 9)%N then "\t"
  else if (PyStr.ord c =? 8)%N then "\b"
  else if (PyStr.ord c =? 12)%N then "\f"
  else if (PyStr.ord c <? 32)%N then "\u00" ++ Py.hex2 c
  else String c "".

Fixpoint escape (s : string) : string :=
  match s with
  | EmptyString => EmptyString
  | String c r => escape_char c ++ escape r
  end.

Definition encode_string (s : string) : string :=
  String DQUOTE (escape s ++ String DQUOTE "").

Fixpoint spaces (n : nat) : string :=
  match n with
  | O => EmptyString
  | S k => String " " (spaces k)
  end.

(** The line break before an item at nesting depth [level]. *)
Definition newline_indent (level : nat) : string :=
  String LF (spaces (2 * level)).

Section ConcatMap.

Variable A : Type.
Variable f : A -> string.

(** The texts of the items of a list, one after the other. *)
Fixpoint concat_map (l : list A) : string :=
  match l with
  | [] => EmptyString
  | x :: r => f x ++ concat_map r
  end.

End ConcatMap.
Arguments concat_map {A} f l.

(** The encoder at nesting depth [level]: an empty container on one
    line, otherwise one item per line, two more spaces per level. *)
Fixpoint encode (level : nat) (v : json) : string :=
  match v with
  | JNull => "null"
  | JBool true => "true"
  | JBool false => "false"
  | JInt z => PyStr.of_Z z
  | JString s => encode_string s
  | JList [] => "[]"
  | JList (x :: rest) =>
      "[" ++ newline_indent (S level) ++ encode (S level) x
      ++ concat_map (fun y => "," ++ newline_indent (S level) ++ encode (S level) y)
                    rest
      ++ newline_indent level ++ "]"
  | JDict [] => "{}"
  | JDict (kx :: rest) =>
      "{" ++ newline_indent (S level)
      ++ encode_string (fst kx) ++ ": " ++ encode (S level) (snd kx)
      ++ concat_map (fun ky => "," ++ newline_indent (S level)
                               ++ encode_string (fst ky) ++ ": "
                               ++ encode (S level) (snd ky))
                    rest
      ++ newline_indent level ++ "}"
  end.

Definition dumps (v : json) : string := encode 0 v.

(** ** [json.loads]

    The decoder reads a text the way [json.loads] does.  It gives [None]
    where [json.loads] raises, and also where the value lies outside this
    model: a number with a fraction or an exponent, [NaN], [Infinity], a
    [\u] escape above 255. *)

(** The white space between tokens. *)
Definition is_ws (c : ascii) : bool :=
  Ascii.eqb c " " || (PyStr.ord c =? 9)%N || (PyStr.ord c =? 10)%N
  || (PyStr.ord c =? 13)%N.

Fixpoint skip_ws (s : string) : string :=
  match s with
  | EmptyString => EmptyString
  | String c r => if is_ws c then skip_ws r else s
  end.

Definition is_digit (c : ascii) : bool := PyStr.in_range 48 57 c.

Definition hex_value (c : ascii) : option N :=
  if PyStr.in_range 48 57 c then Some (PyStr.ord c - 48)%N
  else if PyStr.in_range 97 102 c then Some (PyStr.ord c - 87)%N
  else if PyStr.in_range 65 70 c then Some (PyStr.ord c - 55)%N
  else None.

(** The character a backslash and [e] stand for. *)
Definition unescape (e : ascii) : option ascii :=
  if Ascii.eqb e DQUOTE then Some DQUOTE
  else if Ascii.eqb e "\" then Some "\"%char
  else if Ascii.eqb e "/" then Some "/"%char
  else if Ascii.eqb e "b" then Some "008"%char
  else if Ascii.eqb e "f" then Some "012"%char
  else if Ascii.eqb e "n" then Some "010"%char
  else if Ascii.eqb e "r" then Some "013"%char
  else if Ascii.eqb e "t" then Some "009"%char
  else None.

(** The character of a [\u] escape, given its four hexadecimal digits. *)
Definition unicode_escape (a b c d : ascii) : option ascii :=
  match hex_value a, hex_value b, hex_value c, hex_value d with
  | Some x, Some y, Some z, Some t =>
      let code := (((x * 16 + y) * 16 + z) * 16 + t)%N in
      if (code <? 256)%N then Some (ascii_of_N code) else None
  | _, _, _, _ => None
  end.

(** [scanstring], from the character after the opening quote: the
    decoded string and the text after the closing quote.  A control
    character inside the string is refused. *)
Fixpoint scanstring (s : string) : option (string * string) :=
  match s with
  | EmptyString => None
  | String c r =>
      if Ascii.eqb c DQUOTE then Some (EmptyString, r)
      else if Ascii.eqb c "\" then
        match r with
        | EmptyString => None
        | String e r' =>
            if Ascii.eqb e "u" then
              match r' with
              | String h1 (String h2 (String h3 (String h4 r''))) =>
                  match unicode_escape h1 h2 h3 h4 with
                  | None => None
                  | Some ch =>
                      match scanstring r'' with
                      | Some (str, rest) => Some (String ch str, rest)
                      | None => None
                      end
                  end
              | _ => None
              end
            else
              match unescape e with
              | None => None
              | Some ch =>
                  match scanstring r' with
                  | Some (str, rest) => Some (String ch str, rest)
                  | None => None
                  end
              end
        end
      else if (PyStr.ord c <? 32)%N then None
      else
        match scanstring r with
        | Some (str, rest) => Some (String c str, rest)
        | None => None
        end
  end.

(** The longest run of digits at the start of [s], and what follows. *)
Fixpoint digits (s : string) : string * string :=
  match s with
  | EmptyString => (EmptyString, EmptyString)
  | String c r =>
      if is_digit c then let (d, rest) := digits r in (String c d, rest)
      else (EmptyString, s)
  end.

(** The integer part of a number: [0], or a digit other than 0 followed
    by digits. *)
Definition match_natural (s : string) : option (string * string) :=
  match s with
  | EmptyString => None
  | String c r =>
      if Ascii.eqb c "0" then Some ("0", r)
      else if is_digit c then let (d, rest) := digits r in Some (String c d, rest)
      else None
  end.

Definition match_integer (s : string) : option (string * string) :=
  match s with
  | EmptyString => None
  | String c r =>
      if Ascii.eqb c "-" then
        match match_natural r with
        | Some (d, rest) => Some (String c d, rest)
        | None => None
        end
      else match_natural s
  end.

Definition starts_with_digit (s : string) : bool :=
  match s with String c _ => is_digit c | EmptyString => false end.

(** A fraction follows: a dot and a digit. *)
Definition has_fraction (s : string) : bool :=
  match s with
  | String c r => Ascii.eqb c "." && starts_with_digit r
  | EmptyString => false
  end.

(** An exponent follows: [e] or [E], a sign or none, and a digit. *)
Definition has_exponent (s : string) : bool :=
  match s with
  | String c r =>
      (Ascii.eqb c "e" || Ascii.eqb c "E") &&
      (starts_with_digit r ||
       match r with
       | String g r' => (Ascii.eqb g "+" || Ascii.eqb g "-") && starts_with_digit r'
       | EmptyString => false
       end)
  | EmptyString => false
  end.

(** A number; only integers are values of the model. *)
Definition scan_number (s : string) : option (json * string) :=
  match match_integer s with
  | None => None
  | Some (text, rest) =>
      if has_fraction rest || has_exponent rest then None
      else match NilZero.int_of_string text with
           | Some d => Some (JInt (Z.of_int d), rest)
           | None => None
           end
  end.

(** [s] without the prefix [p], when it starts with it. *)
Fixpoint strip_prefix (p s : string) : option string :=
  match p, s with
  | EmptyString, _ => Some s
  | String a p', String b s' => if Ascii.eqb a b then strip_prefix p' s' else None
  | String _ _, EmptyString => None
  end.

(** [null], [true], [false] or a number. *)
Definition scan_literal (s : string) : option (json * string) :=
  match strip_prefix "null" s with
  | Some rest => Some (JNull, rest)
  | None =>
  match strip_prefix "true" s with
  | Some rest => Some (JBool true, rest)
  | None =>
  match strip_prefix "false" s with
  | Some rest => Some (JBool false, rest)
  | None => scan_number s
  end end end.

(** [dict(pairs)]: a key met again takes the later value. *)
Definition dict_of_pairs (pairs : list (string * json)) : list (string * json) :=
  fold_left (fun d kv => Py.dict_set (fst kv) (snd kv) d) pairs [].

(** [scan_once], [JSONArray] and [JSONObject].  [fuel] bounds the depth
    of the calls; [loads] gives enough of it for the whole text.
    [parse_items] starts at an item, [parse_members] after the opening
    quote of a key. *)
Fixpoint scan_once (fuel : nat) (s : string) {struct fuel} : option (json * string) :=
  match fuel with
  | O => None
  | S n =>
      match s with
      | EmptyString => None
      | String c r =>
          if Ascii.eqb c DQUOTE then
            match scanstring r with
            | Some (str, rest) => Some (JString str, rest)
            | None => None
            end
          else if Ascii.eqb c "{" then
            match skip_ws r with
            | EmptyString => None
            | String c' r' =>
                if Ascii.eqb c' "}" then Some (JDict [], r')
                else if Ascii.eqb c' DQUOTE then parse_members n [] r'
                else None
            end
          else if Ascii.eqb c "[" then
            match skip_ws r with
            | EmptyString => None
            | String c' r' =>
                if Ascii.eqb c' "]" then Some (JList [], r')
                else parse_items n [] (String c' r')
            end
          else scan_literal s
      end
  end

with parse_items (fuel : nat) (values : list json) (s : string) {struct fuel}
     : option (json * string) :=
  match fuel with
  | O => None
  | S n =>
      match scan_once n s with
      | None => None
      | Some (value, rest) =>
          let values := list_append values value in
          match skip_ws rest with
          | EmptyString => None
          | String c r =>
              if Ascii.eqb c "]" then Some (JList values, r)
              else if Ascii.eqb c "," then parse_items n values (skip_ws r)
              else None
          end
      end
  end

with parse_members (fuel : nat) (pairs : list (string * json)) (s : string)
                   {struct fuel} : option (json * string) :=
  match fuel with
  | O => None
  | S n =>
      match scanstring s with
      | None => None
      | Some (key, rest) =>
          match skip_ws rest with
          | EmptyString => None
          | String c r =>
              if Ascii.eqb c ":" then
                match scan_once n (skip_ws r) with
                | None => None
                | Some (value, rest') =>
                    let pairs := list_append pairs (key, value) in
                    match skip_ws rest' with
                    | EmptyString => None
                    | String c' r' =>
                        if Ascii.eqb c' "}" then Some (JDict (dict_of_pairs pairs), r')
                        else if Ascii.eqb c' "," then
                          match skip_ws r' with
                          | EmptyString => None
                          | String q r'' =>
                              if Ascii.eqb q DQUOTE then parse_members n pairs r''
                              else None
                          end
                        else None
                    end
                end
              else None
          end
      end
  end.

(** [json.loads(s)]: one value, with white space around it at most. *)
Definition loads (s : string) : option json :=
  match scan_once (S (String.length s)) (skip_ws s) with
  | Some (v, rest) =>
      match skip_ws rest with
      | EmptyString => Some v
      | _ => None
      end
  | None => None
  end.

End Json.



(* ================================================================== *)
(** * [main] *)
(* ================================================================== *)

Inductive output_format : Type := Text | Json_format.

(** The parsed command line.  [spotify] and [soundcloud] are [None] when
    the option is not given; [file] is the folder of [-f]. *)
Record args : Type := mkArgs {
  spotify : option string;
  soundcloud : option string;
  lyrics : bool;
  data : bool;
  output : output_format;
  file : option string
}.

Definition given (o : option string) : bool :=
  match o with Some s => PyStr.truthy s | None => false end.

Definition link (o : option string) : string :=
  match o with Some s => s | None => EmptyString end.

Definition NO_SOURCE : string :=
  "Aucune source musicale valide n'a " ++ String "233" "t"
  ++ String "233" " fournie.".

(** Lines 239-244, the body of the [try]. *)
Definition link_metadata (w : world) (a : args) : M (string * string) :=
  if given (spotify a) then _get_spotify_metadata w (link (spotify a))
  else if given (soundcloud a) then _get_soundcloud_metadata w (link (soundcloud a))
  else raise (ValueError NO_SOURCE).

(** Lines 238-247. *)
Definition read_link (w : world) (a : args) : M (string * string) :=
  try_except (link_metadata w a)
    [ (is_ValueError,
       fun e => stderr_write ("[ERROR] " ++ Py.exn_str e ++ nl) ;;; sys_exit 1) ].

(** [not song_id] on an [Optional[int]]. *)
Definition no_song_id (song_id : option Z) : bool :=
  match song_id with
  | Some i => (i =? 0)%Z
  | None => true
  end.

(** Line 265: [_scrape_genius_lyrics(song["url"])]. *)
Definition fetch_lyrics (w : world) (song : song_record) : M string :=
  match Py.subscript (JDict song) "url" with
  | inr e => raise e
  | inl (JString url) => _scrape_genius_lyrics w url
  | inl _ => raise (RequestException "Invalid URL: No scheme supplied.")
  end.

(** Lines 261-267. *)
Definition read_lyrics (w : world) (a : args) (song : song_record) : M string :=
  let need_lyrics := lyrics a || negb (data a) in
  if need_lyrics then
    try_except (fetch_lyrics w song)
      [ (is_Exception,
         fun e => stderr_write ("[WARNING] Lyrics scraping failed: "
                                  ++ Py.exn_str e ++ nl) ;;;
                  ret "") ]
  else ret "".

(** Lines 269-284. *)
Definition compose (a : args) (song : song_record) (lyrics_text : string) : M string :=
  match output a with
  | Json_format =>
      if lyrics a then ret (Json.dumps (JDict [("lyrics", JString lyrics_text)]))
      else if data a then ret (Json.dumps (JDict song))
      else
        let song_with_lyrics := Py.dict_set "lyrics" (JString lyrics_text) song in
        ret (Json.dumps (JDict song_with_lyrics))
  | Text =>
      if lyrics a then ret lyrics_text
      else if data a then _print_metadata song
      else
        metadata <- _print_metadata song ;;
        ret (metadata ++ nl ++ nl ++ lyrics_text)
  end.

(** Lines 286-290. *)
Definition deliver (w : world) (a : args) (title : json) (text : string) : M unit :=
  match file a with
  | Some folder_path =>
      _write_to_file w text title folder_path
        (match output a with Json_format => "json" | Text => "txt" end)
  | None => print text
  end.

(** Line 259: [song.get("title", "unknown_title")]. *)
Definition song_title (song : song_record) : json :=
  match Py.dict_get "title" song with
  | Some t => t
  | None => JString "unknown_title"
  end.

(** Lines 210-290, after the command line is parsed; [token] is the value
    of [GENIUS_ACCESS_TOKEN]. *)
Definition main (token : string) (w : world) (a : args) : M unit :=
  if negb (PyStr.truthy token) || String.eqb token TOKEN_PLACEHOLDER then
    stderr_write ("[ERROR] Please set GENIUS_ACCESS_TOKEN in the script (line 32)." ++ nl) ;;;
    sys_exit 1
  else
    query <- read_link w a ;;
    let (track, artist) := query in
    if negb (PyStr.truthy track) then
      stderr_write ("[ERROR] Could not parse metadata from provided link." ++ nl) ;;;
      sys_exit 1
    else
      song_id <- _search_genius w track artist token ;;
      if no_song_id song_id then
        stderr_write ("[ERROR] No matching song found on Genius." ++ nl) ;;;
        sys_exit 1
      else
        song <- _get_genius_song w (match song_id with Some i => i | None => 0%Z end) token ;;
        let title := song_title song in
        lyrics_text <- read_lyrics w a song ;;
        text <- compose a song lyrics_text ;;
        deliver w a title text.

(** What the interpreter prints for an exception nobody caught (the
    lines naming the call stack are left out). *)
Definition traceback (e : exn) : string :=
  "Traceback (most recent call last):" ++ nl
  ++ Py.exn_name e ++ ": " ++ Py.exn_str e ++ nl.

(** The process: its events and its exit status.  [sys.exit(c)] ends it
    with status [c]; an exception nobody caught is reported on the error
    stream and ends it with status 1. *)
Definition run_script (token : string) (w : world) (a : args) : list event * Z :=
  match main token w a with
  | (inl _, log) => (log, 0%Z)
  | (inr (SystemExit c), log) => (log, c)
  | (inr e, log) => ((log ++ [StderrWrite (traceback e)])%list, 1%Z)
  end.

(* ================================================================== *)
(** * Vocabulary of the specification *)
(* ================================================================== *)

(** [p] occurs in [s] as a run of consecutive characters. *)
Definition is_substring (p s : string) : Prop :=
  exists before after : string, s = before ++ p ++ after.

(** The substring match of the catalog matcher: the query artist is not
    empty and its lower-case form occurs in the lower-case name of the
    hit's primary artist. *)
Definition substring_match (artist : string) (h : hit) : Prop :=
  artist <> EmptyString /\
  is_substring (PyStr.lower artist) (PyStr.lower (primary_artist_name h)).

(** The statuses [raise_for_status] turns into an [HTTPError]. *)
Definition error_status (s : Z) : bool := (400 <=? s)%Z && (s <? 600)%Z.

(** A response the script reads on: no error status and a payload of the
    expected shape. *)
Definition answers {A : Type} (ans : reply A) (a : A) : Prop :=
  exists r : response A,
    ans = Answer r /\ error_status (status_code r) = false /\ body r = Some a.

(** Every character of [s] passes the test [p]. *)
Fixpoint all_chars (p : ascii -> bool) (s : string) : Prop :=
  match s with
  | EmptyString => True
  | String c r => p c = true /\ all_chars p r
  end.

(** The token was put in the script. *)
Definition token_set (token : string) : Prop :=
  token <> EmptyString /\ token <> TOKEN_PLACEHOLDER.

(** A message on the error stream that carries the [[ERROR]] label. *)
Definition error_message (e : event) : bool :=
  match e with
  | StderrWrite text => PyStr.startswith "[ERROR]" text
  | _ => false
  end.

Definition is_request (e : event) : bool :=
  match e with HttpGet _ _ => true | _ => false end.

(** A request to the song endpoint of the catalog. *)
Definition song_fetch (e : event) : bool :=
  match e with
  | HttpGet url _ => PyStr.startswith (GENIUS_API_BASE ++ "/songs/") url
  | _ => false
  end.

Definition search_request (track artist : string) : event :=
  HttpGet (GENIUS_API_BASE ++ "/search") [("q", search_query track artist)].

Definition song_request (song_id : Z) : event :=
  HttpGet (GENIUS_API_BASE ++ "/songs/" ++ PyStr.of_Z song_id) [].

(** The run gets as far as the search, with this track and artist. *)
Definition reaches_search (token : string) (w : world) (a : args)
           (track artist : string) : Prop :=
  token_set token /\
  fst (link_metadata w a) = inl (track, artist) /\
  track <> EmptyString.

(** The run gets as far as the fetch of song [song_id]. *)
Definition reaches_fetch (token : string) (w : world) (a : args)
           (track artist : string) (song_id : Z) : Prop :=
  reaches_search token w a track artist /\
  exists hits : list hit,
    answers (genius_search w token (search_query track artist)) hits /\
    choose_hit artist hits = Some song_id /\ song_id <> 0%Z.

(** The kinds of fatal error of the specification. *)
Inductive fatal_kind : Type :=
| AuthenticationFailure
| ExtractionFailure
| NoMatchFound
| CatalogError.

(** [fatal k token w a]: in the run on [a] in the world [w], an error of
    kind [k] happens.  An extraction failure is the [ValueError] the
    extractors raise by their contract (request failed, error status, body
    that is not JSON, no title), or an empty track. *)
Inductive fatal (token : string) (w : world) (a : args) : fatal_kind -> Prop :=
| extraction_raises (msg : string) :
    token_set token ->
    fst (link_metadata w a) = inr (ValueError msg) ->
    fatal token w a ExtractionFailure
| extraction_without_track (artist : string) :
    token_set token ->
    fst (link_metadata w a) = inl (EmptyString, artist) ->
    fatal token w a ExtractionFailure
| search_unauthorized (track artist : string) (r : response (list hit)) :
    reaches_search token w a track artist ->
    genius_search w token (search_query track artist) = Answer r ->
    status_code r = 401%Z ->
    fatal token w a AuthenticationFailure
| fetch_unauthorized (track artist : string) (song_id : Z) (r : response song_record) :
    reaches_fetch token w a track artist song_id ->
    genius_song w token song_id = Answer r ->
    status_code r = 401%Z ->
    fatal token w a AuthenticationFailure
| search_without_hits (track artist : string) :
    reaches_search token w a track artist ->
    answers (genius_search w token (search_query track artist)) [] ->
    fatal token w a NoMatchFound
| search_refused (track artist : string) (r : response (list hit)) :
    reaches_search token w a track artist ->
    genius_search w token (search_query track artist) = Answer r ->
    error_status (status_code r) = true ->
    status_code r <> 401%Z ->
    fatal token w a CatalogError
| fetch_refused (track artist : string) (song_id : Z) (r : response song_record) :
    reaches_fetch token w a track artist song_id ->
    genius_song w token song_id = Answer r ->
    error_status (status_code r) = true ->
    status_code r <> 401%Z ->
    fatal token w a CatalogError.

(** The last event of a log. *)
Definition last_event (log : list event) : option event :=
  match List.rev log with e :: _ => Some e | [] => None end.

(** A run reports a fatal error as the specification asks: a message with
    the [[ERROR]] label on the error stream and an exit status other than 0. *)
Definition reports_fatal (run : list event * Z) : Prop :=
  existsb error_message (fst run) = true /\ snd run <> 0%Z.

(** The record holds a dict with a [name] under [field]. *)
Definition has_name (field : string) (song : song_record) : Prop :=
  exists (d : list (string * json)) (name : json),
    Py.dict_get field song = Some (JDict d) /\ Py.dict_get "name" d = Some name.

(** The fields the text form of the metadata subscripts: the primary
    artist's name, and the album's name when the record has an album. *)
Definition metadata_fields (song : song_record) : Prop :=
  has_name "primary_artist" song /\
  (Py.truthy_get "album" song = true -> has_name "album" song).

Definition extension (a : args) : string :=
  match output a with Json_format => "json" | Text => "txt" end.

(** The output can be handed over: nothing to ask for standard output;
    for a file, the folder can be made, the title is a string and the file
    can be opened. *)
Definition can_deliver (w : world) (a : args) (song : song_record) : Prop :=
  match file a with
  | None => True
  | Some folder =>
      makedirs_error w folder = None /\
      exists t : string,
        song_title song = JString t /\
        open_error w (path_join folder (_sanitize_filename t ++ "." ++ extension a)) = None
  end.

(** The events carry [text] to its destination. *)
Definition emits (text : string) (out : list event) : Prop :=
  In (StdoutWrite (text ++ nl)) out \/ exists path, In (FileWrite path text) out.

(** [n] without the descendants that carry the exclusion marker. *)
Fixpoint prune (n : node) : node :=
  match n with
  | Tag i name attrs cs =>
      Tag i name attrs
          (flat_map (fun c => if Soup.is_excluded c then [] else [prune c]) cs)
  | _ => n
  end.

(** [prune] on the trees of a forest; a marked tree goes as a whole. *)
Definition prune_all (f : list node) : list node :=
  flat_map (fun c => if Soup.is_excluded c then [] else [prune c]) f.

(** The identities of the marked tags of a forest. *)
Definition marked (f : list node) : list nat :=
  Soup.uids (filter Soup.is_excluded (Soup.nodes_of f)).

(** [t'] is [t] after marked trees were taken out of it: pruning gives
    the same, and no marked tag was added. *)
Definition thinned (t t' : node) : Prop :=
  prune t' = prune t /\
  Soup.is_excluded t' = Soup.is_excluded t /\
  incl (Soup.find_all Soup.is_excluded t') (Soup.find_all Soup.is_excluded t).

(** The strings of [n] that are not inside a marked descendant. *)
Fixpoint unmarked_strings (n : node) : list string :=
  match n with
  | NavigableString s => [s]
  | Comment _ => []
  | Tag _ _ _ cs =>
      flat_map (fun c => if Soup.is_excluded c then [] else unmarked_strings c) cs
  end.

(** The text of one lyrics container: marked descendants removed, the
    remaining strings joined by a newline, the result trimmed. *)
Definition container_text (c : node) : string :=
  PyStr.strip (Soup.get_text nl (prune c)).

(** The lyrics of a page: the texts of its lyrics containers in document
    order, the empty ones dropped, joined by a newline. *)
Definition lyrics_text (soup : node) : string :=
  PyStr.join nl
    (filter PyStr.truthy
       (map container_text
            (filter Soup.is_lyrics_container (Soup.descendants soup)))).

(** Every tag of the document is an object of its own. *)
Definition distinct_tags (soup : node) : Prop :=
  NoDup (Soup.uids (Soup.nodes_of [soup])).

(** No dict of the value holds a key twice: what a Python [dict] tree
    is. *)
Fixpoint unique_keys (v : json) : Prop :=
  match v with
  | JList l =>
      (fix all (l : list json) : Prop :=
         match l with
         | [] => True
         | x :: r => unique_keys x /\ all r
         end) l
  | JDict d =>
      NoDup (map fst d) /\
      (fix all (l : list (string * json)) : Prop :=
         match l with
         | [] => True
         | kv :: r => unique_keys (snd kv) /\ all r
         end) d
  | _ => True
  end.

(** What may follow a value in a text: nothing, a comma or a line break. *)
Definition delimited (rest : string) : Prop :=
  match rest with
  | EmptyString => True
  | String c _ => c = ","%char \/ c = LF
  end.

(** The characters a JSON value can start with. *)
Definition value_start (c : ascii) : bool :=
  Ascii.eqb c DQUOTE || Ascii.eqb c "{" || Ascii.eqb c "[" || Ascii.eqb c "n"
  || Ascii.eqb c "t" || Ascii.eqb c "f" || Ascii.eqb c "-" || Json.is_digit c.

(** A decimal numeral as [str] writes it: no sign before zero, no
    leading zero. *)
Definition canonical (d : Decimal.int) : Prop :=
  match d with
  | Decimal.Pos u => u = Decimal.D0 Decimal.Nil \/ (u <> Decimal.Nil /\ forall v, u <> Decimal.D0 v)
  | Decimal.Neg u => u <> Decimal.Nil /\ forall v, u <> Decimal.D0 v
  end.

(** The decoder reads the encoding of [v] back, at any depth and before
    any delimited text, given fuel for the length of the encoding. *)
Definition reads_back (v : json) : Prop :=
  forall (level fuel : nat) (rest : string),
    String.length (Json.encode level v) <= fuel ->
    delimited rest ->
    Json.scan_once fuel (Json.encode level v ++ rest) = Some (v, rest).

(** The text of an item of a list after the first one. *)
Definition item_text (level : nat) (y : json) : string :=
  "," ++ Json.newline_indent (S level) ++ Json.encode (S level) y.

(** The text of a member of a dict. *)
Definition member_text (level : nat) (ky : string * json) : string :=
  Json.encode_string (fst ky) ++ ": " ++ Json.encode (S level) (snd ky).

(** The text of a member of a dict after the first one. *)
Definition next_member_text (level : nat) (ky : string * json) : string :=
  "," ++ Json.newline_indent (S level) ++ member_text level ky.

(** [s] without its first [k] characters: [s[k:]]. *)
Fixpoint drop (k : nat) (s : string) : string :=
  match k, s with
  | O, _ => s
  | S _, EmptyString => EmptyString
  | S k', String _ r => drop k' r
  end.

Definition extractor_shape (m : M (string * string)) (url : string) : Prop :=
  snd m = [HttpGet url []] /\
  forall e, fst m = inr e ->
            (exists msg, e = ValueError msg) \/ (exists msg, e = AttributeError msg).

(** An oEmbed value the extractors cannot read: it is not an object, or
    it holds under [title] a value that is neither falsy nor a string. *)
Definition malformed (data : json) : bool :=
  match data with
  | JDict d =>
      match Py.dict_get "title" d with
      | None | Some (JString _) => false
      | Some t => Py.truthy t
      end
  | _ => true
  end.

(* ================================================================== *)
(** * Induction principles *)
(* ================================================================== *)

Section ForestInduction.

Variable P : list node -> Prop.
Hypothesis P_nil : P [].
Hypothesis P_string : forall s rs, P rs -> P (NavigableString s :: rs).
Hypothesis P_comment : forall s rs, P rs -> P (Comment s :: rs).
Hypothesis P_tag :
  forall i name attrs cs rs, P cs -> P rs -> P (Tag i name attrs cs :: rs).

Fixpoint forest_step (n : node) : forall rs, P rs -> P (n :: rs) :=
  match n with
  | NavigableString s => P_string s
  | Comment s => P_comment s
  | Tag i name attrs cs =>
      fun rs H =>
        P_tag i name attrs cs rs
              ((fix all (l : list node) : P l :=
                  match l with
                  | [] => P_nil
                  | c :: l' => forest_step c l' (all l')
                  end) cs)
              H
  end.

End ForestInduction.

Section JsonInduction.

Variable P : json -> Prop.
Hypothesis P_null : P JNull.
Hypothesis P_bool : forall b, P (JBool b).
Hypothesis P_int : forall z, P (JInt z).
Hypothesis P_string : forall s, P (JString s).
Hypothesis P_list : forall l, Forall P l -> P (JList l).
Hypothesis P_dict : forall d, Forall (fun kv => P (snd kv)) d -> P (JDict d).

Fixpoint json_induction (v : json) : P v :=
  match v with
  | JNull => P_null
  | JBool b => P_bool b
  | JInt z => P_int z
  | JString s => P_string s
  | JList l =>
      P_list l
        ((fix all (l : list json) : Forall P l :=
            match l with
            | [] => Forall_nil P
            | x :: r => Forall_cons x (json_induction x) (all r)
            end) l)
  | JDict d =>
      P_dict d
        ((fix all (l : list (string * json)) : Forall (fun kv => P (snd kv)) l :=
            match l with
            | [] => Forall_nil _
            | kv :: r => Forall_cons kv (json_induction (snd kv)) (all r)
            end) d)
  end.

End JsonInduction.

(* ================================================================== *)
(** * Sample inputs *)
(* ================================================================== *)

Definition the_weeknd : hit := mkHit 101 "The Weeknd".

Definition drake : hit := mkHit 202 "Drake".

Definition world_of_hits (hits : list hit) : world :=
  mkWorld (fun _ => Unreachable "offline") (fun _ => Unreachable "offline")
          (fun _ _ => Answer (mkResponse 200 "OK" "https://api.genius.com/search" (Some hits)))
          (fun _ _ => Unreachable "offline") (fun _ => Unreachable "offline")
          (fun _ => None) (fun _ => None).

Definition world_of_title (title : string) : world :=
  mkWorld (fun _ => Answer (mkResponse 200 "OK" "https://open.spotify.com/oembed" (Some (JDict [("title", JString title)]))))
          (fun _ => Answer (mkResponse 200 "OK" "https://soundcloud.com/oembed" (Some (JDict [("title", JString title)]))))
          (fun _ _ => Unreachable "offline")
          (fun _ _ => Unreachable "offline") (fun _ => Unreachable "offline")
          (fun _ => None) (fun _ => None).

Definition some_args : args :=
  mkArgs (Some "https://open.spotify.com/track/1") None false false Text None.

Definition world_of_title_hits (title : string) (hits : list hit) : world :=
  mkWorld (fun _ => Answer (mkResponse 200 "OK" "https://open.spotify.com/oembed" (Some (JDict [("title", JString title)]))))
          (fun _ => Unreachable "offline")
          (fun _ _ => Answer (mkResponse 200 "OK" "https://api.genius.com/search" (Some hits)))
          (fun _ _ => Unreachable "offline") (fun _ => Unreachable "offline")
          (fun _ => None) (fun _ => None).

Definition world_of_search_status (status : Z) (reason : string) : world :=
  mkWorld (fun _ => Answer (mkResponse 200 "OK" "https://open.spotify.com/oembed"
                                       (Some (JDict [("title", JString "Song - Band")]))))
          (fun _ => Unreachable "offline")
          (fun _ _ => Answer (mkResponse status reason
                                         "https://api.genius.com/search?q=Song+Band" None))
          (fun _ _ => Unreachable "offline") (fun _ => Unreachable "offline")
          (fun _ => None) (fun _ => None).

Definition band_song : song_record :=
  [("id", JInt 5); ("title", JString "Song");
   ("primary_artist", JDict [("name", JString "The Band")]);
   ("url", JString "https://genius.com/the-band-song-lyrics")].

(** A world in which the catalog answers and the lyrics page does not. *)
Definition world_without_page : world :=
  mkWorld (fun _ => Answer (mkResponse 200 "OK" "https://open.spotify.com/oembed"
                                       (Some (JDict [("title", JString "Song - Band")]))))
          (fun _ => Unreachable "offline")
          (fun _ _ => Answer (mkResponse 200 "OK" "https://api.genius.com/search"
                                         (Some [mkHit 5 "The Band"])))
          (fun _ _ => Answer (mkResponse 200 "OK" "https://api.genius.com/songs/5"
                                         (Some band_song)))
          (fun _ => Unreachable "Connection refused")
          (fun _ => None) (fun _ => None).

Definition lyrics_container : list (string * string) :=
  [("class", "Lyrics__Container"); ("data-lyrics-container", "true")].

Definition exclude_marker : list (string * string) :=
  [("data-exclude-from-selection", "true")].

Definition sample_page : node :=
  Tag 0 "[document]" []
    [ Tag 1 "div" lyrics_container
        [ NavigableString "Verse";
          Tag 2 "span" exclude_marker [NavigableString "[ad]"] ];
      Tag 3 "div" lyrics_container
        [ NavigableString "  ";
          Tag 4 "div" exclude_marker
            [ Tag 5 "a" [] [NavigableString "About"] ] ];
      Comment "footer";
      Tag 6 "div" lyrics_container
        [ NavigableString "Chorus"; Tag 7 "br" [] []; NavigableString "Line" ] ].

Definition world_of_page (soup : node) : world :=
  mkWorld (fun _ => Unreachable "offline") (fun _ => Unreachable "offline")
          (fun _ _ => Unreachable "offline") (fun _ _ => Unreachable "offline")
          (fun u => Answer (mkResponse 200 "OK" u (Some soup)))
          (fun _ => None) (fun _ => None).

Definition data_json_args : args :=
  mkArgs (Some "https://open.spotify.com/track/1") None false true Json_format None.



(* ================================================================== *)
(** * Vocabulary of the further properties *)
(* ================================================================== *)

(** A request to the Genius API. *)
Definition genius_request (e : event) : bool :=
  match e with
  | HttpGet url _ => PyStr.startswith GENIUS_API_BASE url
  | _ => false
  end.

(** An event that hands output over: a write to standard output or to
    a file. *)
Definition is_output (e : event) : bool :=
  match e with
  | StdoutWrite _ | FileWrite _ _ => true
  | _ => false
  end.

(** A log without output. *)
Definition silent (log : list event) : bool := forallb (fun e => negb (is_output e)) log.

(** A line of the lyrics: not empty, and trimmed. *)
Definition clean_line (x : string) : Prop :=
  x <> EmptyString /\ PyStr.strip x = x.

(** A world that answers with a title on both oEmbed endpoints and
    nowhere else. *)
Definition world_of_oembed (answer : reply json) : world :=
  mkWorld (fun _ => answer) (fun _ => answer)
          (fun _ _ => Unreachable "offline")
          (fun _ _ => Unreachable "offline") (fun _ => Unreachable "offline")
          (fun _ => None) (fun _ => None).

(** A computation that hands no output over and, when it stops the
    process, stops it with status 1. *)
Definition discreet {A : Type} (m : M A) : Prop :=
  silent (snd m) = true /\ forall c, fst m = inr (SystemExit c) -> c = 1%Z.

(** The events of one delivery: one write to standard output, or a
    folder made, one file written and the note printed about it. *)
Definition delivery (a : args) (out : list event) : Prop :=
  match file a with
  | None => exists text, out = [StdoutWrite text]
  | Some folder =>
      exists path text note,
        out = [MakeDirs folder; FileWrite path text; StdoutWrite note]
  end.

(** A computation that ends in one of two ways: it returns after one
    delivery, the last thing it did, with nothing handed over before; or
    it raises, and a [SystemExit] it raises has status 1. *)
Definition settled (a : args) {A : Type} (m : M A) : Prop :=
  match fst m with
  | inl _ =>
      exists before out,
        snd m = (before ++ out)%list /\ silent before = true /\ delivery a out
  | inr e => forall c, e = SystemExit c -> c = 1%Z
  end.

(** Lines 232-284 of [main]: everything the script does before it hands
    the output over.  It returns the title and the text that lines 286-290
    deliver. *)
Definition prepare (token : string) (w : world) (a : args) : M (json * string) :=
  if negb (PyStr.truthy token) || String.eqb token TOKEN_PLACEHOLDER then
    stderr_write ("[ERROR] Please set GENIUS_ACCESS_TOKEN in the script (line 32)." ++ nl) ;;;
    sys_exit 1
  else
    query <- read_link w a ;;
    let (track, artist) := query in
    if negb (PyStr.truthy track) then
      stderr_write ("[ERROR] Could not parse metadata from provided link." ++ nl) ;;;
      sys_exit 1
    else
      song_id <- _search_genius w track artist token ;;
      if no_song_id song_id then
        stderr_write ("[ERROR] No matching song found on Genius." ++ nl) ;;;
        sys_exit 1
      else
        song <- _get_genius_song w (match song_id with Some i => i | None => 0%Z end) token ;;
        lyrics_text <- read_lyrics w a song ;;
        text <- compose a song lyrics_text ;;
        ret (song_title song, text).

(** [w] with other answers for the lyrics pages. *)
Definition with_page (w : world) (page : string -> reply node) : world :=
  mkWorld (spotify_oembed w) (soundcloud_oembed w) (genius_search w)
          (genius_song w) page (makedirs_error w) (open_error w).

(** A world in which every service answers, the catalog with the record
    [song]. *)
Definition world_of_song (song : song_record) : world :=
  mkWorld (fun _ => Answer (mkResponse 200 "OK" "https://open.spotify.com/oembed"
                                       (Some (JDict [("title", JString "Song - Band")]))))
          (fun _ => Unreachable "offline")
          (fun _ _ => Answer (mkResponse 200 "OK" "https://api.genius.com/search"
                                         (Some [mkHit 5 "The Band"])))
          (fun _ _ => Answer (mkResponse 200 "OK" "https://api.genius.com/songs/5"
                                         (Some song)))
          (fun u => Answer (mkResponse 200 "OK" u (Some sample_page)))
          (fun _ => None) (fun _ => None).

(** A record that names no artist. *)
Definition anonymous_song : song_record :=
  [("id", JInt 5); ("title", JString "Song");
   ("url", JString "https://genius.com/the-band-song-lyrics")].

Definition data_text_args : args :=
  mkArgs (Some "https://open.spotify.com/track/1") None false true Text None.

Definition lyrics_json_args : args :=
  mkArgs (Some "https://open.spotify.com/track/1") None true false Json_format None.

(** The characters a sanitized name can hold: those the pattern leaves
    in place, without the blank and without the path separator. *)
Definition name_char (c : ascii) : bool :=
  filename_char c && negb (Ascii.eqb c " ") && negb (Ascii.eqb c "/").

(** The separator [os.path.join] puts after [folder]. *)
Definition folder_separator (folder : string) : string :=
  if negb (PyStr.truthy folder) || PyStr.endswith "/" folder then "" else "/".

(** A world whose link services answer with [data]. *)
Definition world_of_data (data : json) : world :=
  world_of_oembed (Answer (mkResponse 200 "OK" "https://open.spotify.com/oembed"
                                      (Some data))).

Definition file_args (folder : string) : args :=
  mkArgs (Some "https://open.spotify.com/track/1") None false true Text (Some folder).

Definition world_without_catalog : world :=
  mkWorld (fun _ => Answer (mkResponse 200 "OK" "https://open.spotify.com/oembed"
                                       (Some (JDict [("title", JString "Song - Band")]))))
          (fun _ => Unreachable "offline")
          (fun _ _ => Unreachable "Connection refused")
          (fun _ _ => Unreachable "offline") (fun _ => Unreachable "offline")
          (fun _ => None) (fun _ => None).

Definition page_without_lyrics : node :=
  Tag 0 "[document]" []
    [ Tag 1 "div" [("class", "Lyrics__Container")] [NavigableString "Verse"];
      Tag 2 "span" [("data-lyrics-container", "true")] [NavigableString "Chorus"];
      Tag 3 "div" [("data-lyrics-container", "false")] [NavigableString "Bridge"] ].

(* ================================================================== *)
(** * Facts about the string builtins *)
(* ================================================================== *)

Example split_ex1 : PyStr.split " - " "a - - b" = ["a"; "- b"].
Proof. reflexivity. Qed.

Example split_ex2 : PyStr.split " - " " - " = [""; ""].
Proof. reflexivity. Qed.

Example split_ex3 : PyStr.split " - " "a -  - b" = ["a"; ""; "b"].
Proof. reflexivity. Qed.

Example of_Z_ex : PyStr.of_Z (-120) = "-120" /\ PyStr.of_Z 0 = "0".
Proof. split; reflexivity. Qed.

Lemma lower_nonempty (s : string) : s <> "" -> PyStr.lower s <> "".
Proof. destruct s; simpl; [congruence | discriminate]. Qed.

Lemma append_nil_r (s : string) : s ++ "" = s.
Proof. induction s as [|c s IH]; simpl; [reflexivity | now rewrite IH]. Qed.

Lemma append_assoc (s t u : string) : (s ++ t) ++ u = s ++ t ++ u.
Proof. induction s as [|c s IH]; simpl; [reflexivity | now rewrite IH]. Qed.

Lemma truthy_true (s : string) : PyStr.truthy s = true <-> s <> "".
Proof. destruct s; simpl; split; congruence. Qed.

Lemma startswith_spec (p s : string) :
  PyStr.startswith p s = true <-> exists after, s = p ++ after.
Proof.
  revert s; induction p as [|a p IH]; intros s; simpl.
  - split; [intros _; now exists s | reflexivity].
  - destruct s as [|b s].
    + split; [discriminate | intros [x Hx]; discriminate].
    + rewrite andb_true_iff, Ascii.eqb_eq, IH. split.
      * intros [-> [x ->]]. now exists x.
      * intros [x Hx]. injection Hx as -> ->. split; [reflexivity | now exists x].
Qed.

Lemma contains_spec (p s : string) :
  PyStr.contains p s = true <-> is_substring p s.
Proof.
  unfold is_substring. induction s as [|c s IH].
  - simpl. rewrite orb_false_r, startswith_spec. split.
    + intros [x Hx]. now exists "", x.
    + intros [b [a H]]. destruct b; [now exists a | discriminate].
  - cbn [PyStr.contains]. rewrite orb_true_iff, startswith_spec, IH. split.
    + intros [[x Hx] | [b [a H]]].
      * now exists "", x.
      * exists (String c b), a. simpl. now rewrite H.
    + intros [b [a H]]. destruct b as [|c' b].
      * left. now exists a.
      * right. injection H as _ H. now exists b, a.
Qed.

Lemma split_from_drop (sep : string) (k : nat) (s : string) :
  PyStr.split_from sep k s = PyStr.split sep (drop k s).
Proof.
  revert s. induction k as [|k IH]; intros s; [reflexivity |].
  destruct s as [|c r]; [reflexivity |]. cbn [PyStr.split_from drop]. apply IH.
Qed.

Lemma drop_length (k : nat) (s : string) : String.length (drop k s) <= String.length s.
Proof.
  revert s. induction k as [|k IH]; intros s; [cbn; lia |].
  destruct s as [|c r]; cbn; [lia |]. specialize (IH r). lia.
Qed.

Lemma drop_prefix (p after : string) : drop (String.length p) (p ++ after) = after.
Proof. induction p as [|c p IH]; [reflexivity | exact IH]. Qed.

Lemma join_cons_char (sep : string) (c : ascii) (h : string) (t : list string) :
  PyStr.join sep (String c h :: t) = String c (PyStr.join sep (h :: t)).
Proof. destruct t; reflexivity. Qed.

Lemma split_from_not_nil (sep : string) (s : string) (skip : nat) :
  PyStr.split_from sep skip s <> [].
Proof.
  revert skip; induction s as [|c s IH]; intros skip; simpl; [discriminate |].
  destruct skip as [|k]; [| apply IH].
  destruct (PyStr.startswith sep (String c s)); [discriminate |].
  destruct (PyStr.split_from sep 0 s); discriminate.
Qed.

(** Joining the parts with the separator gives the text back. *)
Lemma join_split (sep s : string) :
  sep <> "" -> PyStr.join sep (PyStr.split sep s) = s.
Proof.
  intros Hsep.
  assert (H : forall n s, String.length s <= n ->
                          PyStr.join sep (PyStr.split sep s) = s).
  { clear s. induction n as [|n IH]; intros s Hn.
    - destruct s; [reflexivity | cbn in Hn; lia].
    - destruct s as [|c r]; [reflexivity |].
      unfold PyStr.split. cbn [PyStr.split_from].
      destruct (PyStr.startswith sep (String c r)) eqn:E.
      + rewrite split_from_drop.
        pose proof (split_from_not_nil sep (drop (String.length sep - 1) r) 0) as Hnil.
        unfold PyStr.split in *.
        assert (Hj : PyStr.join sep
                       (PyStr.split_from sep 0 (drop (String.length sep - 1) r))
                     = drop (String.length sep - 1) r).
        { apply IH. pose proof (drop_length (String.length sep - 1) r).
          cbn in Hn. lia. }
        destruct (PyStr.split_from sep 0 (drop (String.length sep - 1) r))
          as [|h t]; [congruence |].
        change (PyStr.join sep ("" :: h :: t)) with (sep ++ PyStr.join sep (h :: t)).
        rewrite Hj.
        apply startswith_spec in E as [after E].
        destruct sep as [|a sep']; [congruence |].
        cbn in E. injection E as -> ->. cbn [String.length append].
        replace (S (String.length sep') - 1) with (String.length sep') by lia.
        now rewrite drop_prefix.
      + assert (Hj : PyStr.join sep (PyStr.split sep r) = r)
          by (apply IH; cbn in Hn; lia).
        unfold PyStr.split in Hj.
        pose proof (split_from_not_nil sep r 0) as Hnil.
        destruct (PyStr.split_from sep 0 r) as [|h t]; [congruence |].
        now rewrite join_cons_char, Hj. }
  now apply (H (String.length s)).
Qed.

(** There is one part exactly when the separator does not occur. *)
Lemma split_single (sep s : string) :
  sep <> "" ->
  (List.length (PyStr.split sep s) = 1 <-> ~ is_substring sep s).
Proof.
  intros Hsep. rewrite <- contains_spec. unfold PyStr.split.
  induction s as [|c r IH].
  - cbn. destruct sep; [congruence |]. cbn. split; [discriminate | reflexivity].
  - cbn [PyStr.split_from PyStr.contains].
    destruct (PyStr.startswith sep (String c r)) eqn:E.
    + cbn [orb List.length]. pose proof (split_from_not_nil sep r (String.length sep - 1)).
      destruct (PyStr.split_from sep (String.length sep - 1) r); [congruence |].
      cbn. split; [discriminate | tauto].
    + cbn [orb]. pose proof (split_from_not_nil sep r 0).
      destruct (PyStr.split_from sep 0 r); [congruence | exact IH].
Qed.

(* ================================================================== *)
(** * The catalog matcher *)
(* ================================================================== *)

Lemma artist_matches_spec (artist : string) (h : hit) :
  artist_matches (PyStr.lower artist) h = true <-> substring_match artist h.
Proof.
  unfold artist_matches, substring_match.
  rewrite andb_true_iff, truthy_true, contains_spec. split.
  - intros [Hne Hsub]. split; [| exact Hsub].
    intros ->. now apply Hne.
  - intros [Hne Hsub]. split; [now apply lower_nonempty | exact Hsub].
Qed.

Lemma artist_matches_false (artist : string) (h : hit) :
  artist_matches (PyStr.lower artist) h = false <-> ~ substring_match artist h.
Proof.
  rewrite <- artist_matches_spec.
  destruct (artist_matches (PyStr.lower artist) h); split; congruence.
Qed.

Lemma first_artist_match_skip (a : string) (before rest : list hit) :
  (forall h, In h before -> artist_matches a h = false) ->
  first_artist_match a (before ++ rest)%list = first_artist_match a rest.
Proof.
  induction before as [|b before IH]; intros Hno; simpl; [reflexivity |].
  rewrite (Hno b (or_introl eq_refl)). apply IH.
  intros h Hin. apply Hno. now right.
Qed.

Lemma first_artist_match_none (a : string) (hits : list hit) :
  first_artist_match a hits = None <->
  (forall h, In h hits -> artist_matches a h = false).
Proof.
  induction hits as [|x hits IH]; simpl.
  - split; [intros _ h [] | reflexivity].
  - destruct (artist_matches a x) eqn:E.
    + split; [discriminate |]. intros H.
      rewrite (H x (or_introl eq_refl)) in E. discriminate.
    + rewrite IH. split.
      * intros H h [<- | Hin]; [exact E | now apply H].
      * intros H h Hin. apply H. now right.
Qed.

Lemma raise_for_status_ok {A : Type} (r : response A) :
  error_status (status_code r) = false -> raise_for_status r = ret tt.
Proof.
  unfold error_status, raise_for_status. intros H.
  destruct ((400 <=? status_code r)%Z && (status_code r <? 500)%Z) eqn:E1.
  - apply andb_true_iff in E1 as [E1 E2].
    rewrite E1 in H. simpl in H. apply Z.ltb_lt in E2. apply Z.ltb_ge in H. lia.
  - destruct ((500 <=? status_code r)%Z && (status_code r <? 600)%Z) eqn:E2;
      [| reflexivity].
    apply andb_true_iff in E2 as [E2 E3]. rewrite E3, andb_true_r in H.
    apply Z.leb_le in E2. apply Z.leb_gt in H. lia.
Qed.

(** On a response it can read, the search function asks once and returns
    the choice made among the hits. *)
Lemma search_genius_answers (w : world) (track artist token : string)
      (hits : list hit) :
  answers (genius_search w token (search_query track artist)) hits ->
  _search_genius w track artist token =
  (inl (choose_hit artist hits),
   [HttpGet (GENIUS_API_BASE ++ "/search") [("q", search_query track artist)]]).
Proof.
  intros (r & Hr & Hs & Hb). unfold _search_genius, requests_get.
  rewrite Hr. cbn [bind emit ret]. rewrite (raise_for_status_ok r Hs).
  unfold payload. rewrite Hb. reflexivity.
Qed.

(** C1.  On a hit list in which some hit's primary-artist name, in lower
    case, contains the lower-case query artist, and for a query artist that
    is not empty, the catalog matcher returns the identifier of the first
    such hit in the order of the list.  For the empty query artist the
    substring check matches no hit at all. *)
Theorem search_genius_first_substring_match :
  (forall (w : world) (track artist token : string)
          (before after : list hit) (h : hit),
      answers (genius_search w token (search_query track artist))
              (before ++ h :: after)%list ->
      artist <> "" ->
      (forall h', In h' before ->
         ~ is_substring (PyStr.lower artist) (PyStr.lower (primary_artist_name h'))) ->
      is_substring (PyStr.lower artist) (PyStr.lower (primary_artist_name h)) ->
      fst (_search_genius w track artist token) = inl (Some (hit_id h)))
  /\
  (forall h : hit, artist_matches (PyStr.lower "") h = false).
Proof.
  split.
  - intros w track artist token before after h Hans Hne Hbefore Hh.
    rewrite (search_genius_answers _ _ _ _ _ Hans). cbn [fst]. f_equal.
    unfold choose_hit. rewrite first_artist_match_skip.
    + cbn [first_artist_match].
      replace (artist_matches (PyStr.lower artist) h) with true; [reflexivity |].
      symmetry. apply artist_matches_spec. now split.
    + intros h' Hin. apply artist_matches_false. intros [_ Hsub].
      exact (Hbefore h' Hin Hsub).
  - intros h. reflexivity.
Qed.

Lemma search_genius_first_substring_match_witness :
  fst (_search_genius (world_of_hits [drake; the_weeknd; the_weeknd])
                      "Blinding Lights" "weeknd" "secret")
  = inl (Some 101%Z).
Proof.
  apply (proj1 search_genius_first_substring_match
               (world_of_hits [drake; the_weeknd; the_weeknd])
               "Blinding Lights" "weeknd" "secret" [drake] [the_weeknd] the_weeknd).
  - eexists. repeat split; reflexivity.
  - discriminate.
  - intros h' [<- | []] Hsub. apply contains_spec in Hsub. discriminate.
  - apply contains_spec. reflexivity.
Defined.

Lemma choose_hit_none (artist : string) (hits : list hit) :
  choose_hit artist hits = None <-> hits = [].
Proof.
  unfold choose_hit.
  destruct (first_artist_match (PyStr.lower artist) hits) eqn:E.
  - split; [discriminate |]. intros ->. discriminate.
  - destruct hits; split; congruence.
Qed.

(** C2.  When no hit satisfies the substring match, the catalog matcher
    returns the identifier of the first hit of a non-empty list; and it
    returns no identifier exactly when the hit list is empty. *)
Theorem search_genius_fallback_first_hit
        (w : world) (track artist token : string) (hits : list hit) :
  answers (genius_search w token (search_query track artist)) hits ->
  ((forall h, In h hits -> ~ substring_match artist h) ->
   fst (_search_genius w track artist token)
   = inl (option_map hit_id (hd_error hits)))
  /\
  (fst (_search_genius w track artist token) = inl None <-> hits = []).
Proof.
  intros Hans. rewrite (search_genius_answers _ _ _ _ _ Hans). cbn [fst]. split.
  - intros Hno. f_equal. unfold choose_hit.
    replace (first_artist_match (PyStr.lower artist) hits) with (@None Z).
    + now destruct hits.
    + symmetry. apply first_artist_match_none.
      intros h Hin. apply artist_matches_false. now apply Hno.
  - rewrite <- (choose_hit_none artist hits). split.
    + intros H. now injection H.
    + intros H. now rewrite H.
Qed.

Lemma search_genius_fallback_first_hit_witness :
  fst (_search_genius (world_of_hits [mkHit 7 "X"; mkHit 8 "Y"]) "Song" "Z" "secret")
  = inl (Some 7%Z).
Proof.
  refine (proj1 (search_genius_fallback_first_hit
                   (world_of_hits [mkHit 7 "X"; mkHit 8 "Y"]) "Song" "Z" "secret"
                   [mkHit 7 "X"; mkHit 8 "Y"] _) _).
  - eexists. repeat split; reflexivity.
  - intros h Hin Hm. apply artist_matches_spec in Hm.
    destruct Hin as [<- | [<- | []]]; discriminate.
Defined.

(* ================================================================== *)
(** * The metadata extractors *)
(* ================================================================== *)

Lemma split_length (sep s : string) : 1 <= List.length (PyStr.split sep s).
Proof.
  unfold PyStr.split. pose proof (split_from_not_nil sep s 0) as H.
  destruct (PyStr.split_from sep 0 s); [congruence | simpl; lia].
Qed.

(** A title that was found goes through the split of lines 52-55. *)
Lemma get_spotify_metadata_answers (w : world) (url title : string)
      (d : list (string * json)) :
  answers (spotify_oembed w url) (JDict d) ->
  Py.dict_get "title" d = Some (JString title) ->
  title <> "" ->
  _get_spotify_metadata w url =
  (inl (spotify_title_parts title),
   [HttpGet ("https://open.spotify.com/oembed?url=" ++ url) []]).
Proof.
  intros (r & Hr & Hs & Hb) Ht Hne. unfold _get_spotify_metadata, requests_get.
  rewrite Hr. cbn [bind emit ret]. rewrite (raise_for_status_ok r Hs).
  unfold payload. rewrite Hb. cbn [bind ret get_title]. rewrite Ht.
  destruct title; [congruence | reflexivity].
Qed.

(** An empty title counts as no title. *)
Lemma get_spotify_metadata_empty_title (w : world) (url : string)
      (d : list (string * json)) :
  answers (spotify_oembed w url) (JDict d) ->
  Py.dict_get "title" d = Some (JString "") ->
  fst (_get_spotify_metadata w url)
  = inr (ValueError "Invalid Spotify metadata: title not found.").
Proof.
  intros (r & Hr & Hs & Hb) Ht. unfold _get_spotify_metadata, requests_get.
  rewrite Hr. cbn [bind emit ret]. rewrite (raise_for_status_ok r Hs).
  unfold payload. rewrite Hb. cbn [bind ret get_title]. rewrite Ht. reflexivity.
Qed.

(** C4.  The Spotify title is split on " - " and every part is trimmed.
    With two parts or more the track is the first part and the artist the
    last one; with a single part the track is the whole title and the artist
    is empty.  The parts are the pieces between the separators (joined with
    the separator they give the title), there is always at least one, and
    there is exactly one when the title holds no separator.  The extractor
    returns this pair for every title it finds: whenever the service
    answers with an object that holds a string that is not empty under
    [title]. *)
Theorem spotify_title_split :
  (forall title : string,
      let parts := map PyStr.strip (PyStr.split " - " title) in
      PyStr.join " - " (PyStr.split " - " title) = title /\
      (List.length parts = 1 <-> ~ is_substring " - " title) /\
      1 <= List.length parts /\
      (2 <= List.length parts ->
       spotify_title_parts title = (nth 0 parts "", last parts "")) /\
      (List.length parts = 1 -> spotify_title_parts title = (title, "")))
  /\
  (forall (w : world) (url title : string) (d : list (string * json)),
      answers (spotify_oembed w url) (JDict d) ->
      Py.dict_get "title" d = Some (JString title) ->
      title <> "" ->
      fst (_get_spotify_metadata w url) = inl (spotify_title_parts title)).
Proof.
  split.
  - intros title parts. unfold spotify_title_parts. fold parts.
    assert (Hlen : 1 <= List.length parts).
    { unfold parts. rewrite length_map. apply split_length. }
    split; [apply join_split; discriminate |].
    split; [unfold parts; rewrite length_map; apply split_single; discriminate |].
    split; [exact Hlen |]. split; intros H.
    + apply Nat.leb_le in H. now rewrite H.
    + replace (2 <=? List.length parts)%nat with false; [reflexivity |].
      symmetry. apply Nat.leb_gt. lia.
  - intros w url title d Hans Ht Hne.
    now rewrite (get_spotify_metadata_answers w url title d Hans Ht Hne).
Qed.

Lemma spotify_title_split_witness :
  spotify_title_parts "Song Name - Artist Name" = ("Song Name", "Artist Name")
  /\ spotify_title_parts " Solo " = (" Solo ", "")
  /\ fst (_get_spotify_metadata (world_of_title "Song Name - Artist Name") "u")
     = inl ("Song Name", "Artist Name").
Proof.
  split; [| split].
  - apply (proj1 spotify_title_split "Song Name - Artist Name"). simpl. lia.
  - apply (proj1 spotify_title_split " Solo "). reflexivity.
  - apply (proj2 spotify_title_split (world_of_title "Song Name - Artist Name")
                 "u" "Song Name - Artist Name"
                 [("title", JString "Song Name - Artist Name")]).
    + eexists. repeat split; reflexivity.
    + reflexivity.
    + discriminate.
Defined.

Lemma get_soundcloud_metadata_answers (w : world) (url title : string)
      (d : list (string * json)) :
  answers (soundcloud_oembed w url) (JDict d) ->
  Py.dict_get "title" d = Some (JString title) ->
  title <> "" ->
  _get_soundcloud_metadata w url =
  (inl (soundcloud_title_parts title),
   [HttpGet ("https://soundcloud.com/oembed?format=json&url=" ++ url) []]).
Proof.
  intros (r & Hr & Hs & Hb) Ht Hne. unfold _get_soundcloud_metadata, requests_get.
  rewrite Hr. cbn [bind emit ret]. rewrite (raise_for_status_ok r Hs).
  unfold payload. rewrite Hb. cbn [bind ret get_title]. rewrite Ht.
  destruct title; [congruence | reflexivity].
Qed.

(** C5.  The SoundCloud title is split on " - " and every part is
    trimmed.  With two parts or more the artist is the first part and the
    track is the remaining (trimmed) parts joined again with " - "; with a
    single part the track is the whole title and the artist is empty.  The
    parts are the pieces between the separators, and there is exactly one
    when the title holds no separator.  The extractor returns this pair for
    every title it finds: whenever the service answers with an object that
    holds a string that is not empty under [title]. *)
Theorem soundcloud_title_split :
  (forall title : string,
      let parts := map PyStr.strip (PyStr.split " - " title) in
      PyStr.join " - " (PyStr.split " - " title) = title /\
      (List.length parts = 1 <-> ~ is_substring " - " title) /\
      1 <= List.length parts /\
      (2 <= List.length parts ->
       soundcloud_title_parts title = (PyStr.join " - " (tl parts), nth 0 parts "")) /\
      (List.length parts = 1 -> soundcloud_title_parts title = (title, "")))
  /\
  (forall (w : world) (url title : string) (d : list (string * json)),
      answers (soundcloud_oembed w url) (JDict d) ->
      Py.dict_get "title" d = Some (JString title) ->
      title <> "" ->
      fst (_get_soundcloud_metadata w url) = inl (soundcloud_title_parts title)).
Proof.
  split.
  - intros title parts. unfold soundcloud_title_parts. fold parts.
    assert (Hlen : 1 <= List.length parts).
    { unfold parts. rewrite length_map. apply split_length. }
    split; [apply join_split; discriminate |].
    split; [unfold parts; rewrite length_map; apply split_single; discriminate |].
    split; [exact Hlen |]. split; intros H.
    + apply Nat.leb_le in H. now rewrite H.
    + replace (2 <=? List.length parts)%nat with false; [reflexivity |].
      symmetry. apply Nat.leb_gt. lia.
  - intros w url title d Hans Ht Hne.
    now rewrite (get_soundcloud_metadata_answers w url title d Hans Ht Hne).
Qed.

Lemma soundcloud_title_split_witness :
  soundcloud_title_parts "Artist - Part One - Part Two"
  = ("Part One - Part Two", "Artist")
  /\ soundcloud_title_parts "Untitled" = ("Untitled", "")
  /\ fst (_get_soundcloud_metadata (world_of_title "Artist - Part One - Part Two") "u")
     = inl ("Part One - Part Two", "Artist").
Proof.
  split; [| split].
  - apply (proj1 soundcloud_title_split "Artist - Part One - Part Two"). simpl. lia.
  - apply (proj1 soundcloud_title_split "Untitled"). reflexivity.
  - apply (proj2 soundcloud_title_split (world_of_title "Artist - Part One - Part Two")
                 "u" "Artist - Part One - Part Two"
                 [("title", JString "Artist - Part One - Part Two")]).
    + eexists. repeat split; reflexivity.
    + reflexivity.
    + discriminate.
Defined.

(** Each part is trimmed before the parts are joined; the joined text is
    not trimmed again. *)
Example soundcloud_trailing_separator :
  soundcloud_title_parts "A - B - " = ("B - ", "A").
Proof. reflexivity. Qed.

(* ================================================================== *)
(** * The filename sanitizer *)
(* ================================================================== *)

Section Sanitizer.

Variable keep : ascii -> bool.

Lemma keep_chars_all (s : string) : all_chars keep (PyStr.keep_chars keep s).
Proof.
  induction s as [|c s IH]; simpl; [exact I |].
  destruct (keep c) eqn:E; simpl; auto.
Qed.

Lemma keep_chars_fixed (s : string) :
  all_chars keep s -> PyStr.keep_chars keep s = s.
Proof.
  induction s as [|c s IH]; simpl; [reflexivity |].
  intros [Hc Hs]. rewrite Hc. now rewrite IH.
Qed.

Lemma lstrip_all (s : string) : all_chars keep s -> all_chars keep (PyStr.lstrip s).
Proof.
  induction s as [|c s IH]; simpl; [auto |].
  intros [Hc Hs]. destruct (PyStr.isspace c); simpl; auto.
Qed.

Lemma rstrip_all (s : string) : all_chars keep s -> all_chars keep (PyStr.rstrip s).
Proof.
  induction s as [|c s IH]; simpl; [auto |].
  intros [Hc Hs]. specialize (IH Hs).
  destruct (PyStr.rstrip s); [destruct (PyStr.isspace c) |]; simpl in *; auto.
Qed.

Lemma replace_char_all (a b : ascii) (s : string) :
  keep b = true -> all_chars keep s -> all_chars keep (PyStr.replace_char a b s).
Proof.
  intros Hb. induction s as [|c s IH]; simpl; [auto |].
  intros [Hc Hs]. split; [| auto]. now destruct (Ascii.eqb c a).
Qed.

End Sanitizer.

Lemma lstrip_lstrip (s : string) : PyStr.lstrip (PyStr.lstrip s) = PyStr.lstrip s.
Proof.
  induction s as [|c s IH]; simpl; [reflexivity |].
  destruct (PyStr.isspace c) eqn:E; [exact IH |]. simpl. now rewrite E.
Qed.

Lemma rstrip_rstrip (s : string) : PyStr.rstrip (PyStr.rstrip s) = PyStr.rstrip s.
Proof.
  induction s as [|c s IH]; simpl; [reflexivity |].
  destruct (PyStr.rstrip s) as [|d t] eqn:E.
  - destruct (PyStr.isspace c) eqn:Ec; simpl; [reflexivity | now rewrite Ec].
  - cbn [PyStr.rstrip]. cbn [PyStr.rstrip] in IH. now rewrite IH.
Qed.

(** Trimming on the right leaves a text that starts with a character
    other than white space as it starts. *)
Lemma lstrip_rstrip (s : string) :
  PyStr.lstrip s = s -> PyStr.lstrip (PyStr.rstrip s) = PyStr.rstrip s.
Proof.
  destruct s as [|c s]; simpl; [reflexivity |].
  destruct (PyStr.isspace c) eqn:E.
  - intros H. exfalso.
    assert (Hlen : String.length (PyStr.lstrip s) <= String.length s).
    { clear. induction s as [|d s IH]; simpl; [lia |].
      destruct (PyStr.isspace d); simpl; lia. }
    rewrite H in Hlen. simpl in Hlen. lia.
  - intros _. destruct (PyStr.rstrip s); simpl; now rewrite E.
Qed.

Lemma strip_strip (s : string) : PyStr.strip (PyStr.strip s) = PyStr.strip s.
Proof.
  unfold PyStr.strip.
  rewrite (lstrip_rstrip (PyStr.lstrip s) (lstrip_lstrip s)).
  apply rstrip_rstrip.
Qed.

Lemma strip_trimmed (s : string) :
  PyStr.lstrip (PyStr.strip s) = PyStr.strip s /\
  PyStr.rstrip (PyStr.strip s) = PyStr.strip s.
Proof.
  unfold PyStr.strip. split.
  - apply lstrip_rstrip, lstrip_lstrip.
  - apply rstrip_rstrip.
Qed.

Lemma isspace_space : PyStr.isspace " " = true.
Proof. reflexivity. Qed.

Lemma not_space_replace (c : ascii) :
  PyStr.isspace c = false -> (if Ascii.eqb c " " then "_"%char else c) = c.
Proof.
  intros H. destruct (Ascii.eqb c " ") eqn:E; [| reflexivity].
  apply Ascii.eqb_eq in E. subst c. discriminate.
Qed.

(** Turning the spaces of a trimmed text into underscores leaves it
    trimmed. *)
Lemma lstrip_replace (s : string) :
  PyStr.lstrip s = s ->
  PyStr.lstrip (PyStr.replace_char " " "_" s) = PyStr.replace_char " " "_" s.
Proof.
  destruct s as [|c s]; simpl; [reflexivity |].
  destruct (PyStr.isspace c) eqn:E.
  - intros H. exfalso.
    assert (Hlen : String.length (PyStr.lstrip s) <= String.length s).
    { clear. induction s as [|d s IH]; simpl; [lia |].
      destruct (PyStr.isspace d); simpl; lia. }
    rewrite H in Hlen. simpl in Hlen. lia.
  - intros _. rewrite (not_space_replace c E). now rewrite E.
Qed.

Lemma rstrip_replace (s : string) :
  PyStr.rstrip s = s ->
  PyStr.rstrip (PyStr.replace_char " " "_" s) = PyStr.replace_char " " "_" s.
Proof.
  induction s as [|c s IH]; simpl; [reflexivity |].
  destruct (PyStr.rstrip s) as [|d t] eqn:E.
  - destruct (PyStr.isspace c) eqn:Ec; [discriminate |].
    intros H. injection H as <-. simpl.
    rewrite (not_space_replace c Ec). now rewrite Ec.
  - intros H. injection H as H. rewrite (IH H).
    destruct s as [|e s']; [discriminate |]. reflexivity.
Qed.

Lemma replace_replace (s : string) :
  PyStr.replace_char " " "_" (PyStr.replace_char " " "_" s)
  = PyStr.replace_char " " "_" s.
Proof.
  induction s as [|c s IH]; simpl; [reflexivity |]. rewrite IH. f_equal.
  destruct (Ascii.eqb c " ") eqn:E; [reflexivity | now rewrite E].
Qed.

(** C8.  The filename sanitizer is idempotent: sanitizing a sanitized
    name gives the same name. *)
Theorem sanitize_filename_idempotent (name : string) :
  _sanitize_filename (_sanitize_filename name) = _sanitize_filename name.
Proof.
  unfold _sanitize_filename.
  set (kept := PyStr.keep_chars filename_char name).
  assert (Hall : all_chars filename_char
                   (PyStr.replace_char " " "_" (PyStr.strip kept))).
  { apply replace_char_all; [reflexivity |].
    unfold PyStr.strip. apply rstrip_all, lstrip_all. apply keep_chars_all. }
  rewrite (keep_chars_fixed _ _ Hall).
  destruct (strip_trimmed kept) as [Hl Hr].
  unfold PyStr.strip at 1.
  rewrite (lstrip_replace _ Hl), (rstrip_replace _ Hr).
  apply replace_replace.
Qed.

Example sanitize_ex :
  _sanitize_filename "  Don't Stop  Me/Now! (Live).v2 " = "Dont_Stop__MeNow_(Live).v2".
Proof. reflexivity. Qed.

(* ================================================================== *)
(** * Running [main] *)
(* ================================================================== *)

Lemma bind_value {A B : Type} (a : A) (l : list event) (k : A -> M B) :
  bind (inl a, l) k = (fst (k a), (l ++ snd (k a))%list).
Proof. unfold bind. now destruct (k a). Qed.

Lemma bind_raise {A B : Type} (e : exn) (l : list event) (k : A -> M B) :
  bind (inr e, l) k = (inr e, l).
Proof. reflexivity. Qed.

Lemma token_check (token : string) :
  token_set token ->
  negb (PyStr.truthy token) || String.eqb token TOKEN_PLACEHOLDER = false.
Proof.
  intros [Hne Hph]. apply orb_false_iff. split.
  - destruct token; [congruence | reflexivity].
  - now apply String.eqb_neq.
Qed.

Lemma raise_for_status_cases {A : Type} (r : response A) :
  (error_status (status_code r) = false /\ raise_for_status r = ret tt) \/
  (error_status (status_code r) = true /\
   exists msg, raise_for_status r = raise (HTTPError msg)).
Proof.
  destruct (error_status (status_code r)) eqn:E.
  - right. split; [reflexivity |]. revert E. unfold raise_for_status, error_status.
    destruct (Z.leb_spec 400 (status_code r)), (Z.ltb_spec (status_code r) 500),
             (Z.leb_spec 500 (status_code r)), (Z.ltb_spec (status_code r) 600);
      simpl; intros E; try discriminate; try lia; eexists; reflexivity.
  - left. split; [reflexivity |]. now apply raise_for_status_ok.
Qed.

(** An extractor asks its service once, writes nothing, and raises
    nothing but [ValueError] and [AttributeError]. *)
Ltac extractor_case :=
  split;
  [ reflexivity
  | let e := fresh "e" in
    let H := fresh "H" in
    intros e H;
    first [ discriminate H
          | injection H as <-;
            first [ left; eexists; reflexivity | right; eexists; reflexivity ] ] ].

Ltac extractor_cases ans :=
  unfold extractor_shape, requests_get;
  destruct ans as [err | r]; cbn;
  [ extractor_case | ];
  destruct (raise_for_status_cases r) as [[_ ->] | [_ [msg ->]]]; cbn;
  [ | extractor_case ];
  unfold payload; destruct (body r) as [data |]; cbn;
  [ | extractor_case ];
  destruct data as [| b | z | t | l | d]; cbn; try extractor_case;
  destruct (Py.dict_get "title" d) as [[| [] | z | [| c t] | [| x l] | [| kv d']] |];
  cbn; try extractor_case;
  destruct (z =? 0)%Z; cbn; extractor_case.

Lemma get_spotify_metadata_shape (w : world) (url : string) :
  extractor_shape (_get_spotify_metadata w url)
                  ("https://open.spotify.com/oembed?url=" ++ url).
Proof.
  unfold _get_spotify_metadata. extractor_cases (spotify_oembed w url).
Qed.

Lemma get_soundcloud_metadata_shape (w : world) (url : string) :
  extractor_shape (_get_soundcloud_metadata w url)
                  ("https://soundcloud.com/oembed?format=json&url=" ++ url).
Proof.
  unfold _get_soundcloud_metadata. extractor_cases (soundcloud_oembed w url).
Qed.

Lemma link_metadata_raises (w : world) (a : args) (e : exn) :
  fst (link_metadata w a) = inr e ->
  (exists msg, e = ValueError msg) \/ (exists msg, e = AttributeError msg).
Proof.
  unfold link_metadata.
  destruct (given (spotify a)); [apply get_spotify_metadata_shape |].
  destruct (given (soundcloud a)); [apply get_soundcloud_metadata_shape |].
  intros [= <-]. left. eexists; reflexivity.
Qed.

Lemma link_metadata_events (w : world) (a : args) :
  forallb is_request (snd (link_metadata w a)) = true.
Proof.
  unfold link_metadata.
  destruct (given (spotify a)).
  { now rewrite (proj1 (get_spotify_metadata_shape w _)). }
  destruct (given (soundcloud a)).
  { now rewrite (proj1 (get_soundcloud_metadata_shape w _)). }
  reflexivity.
Qed.

(** A log of requests holds no labelled message and no song fetch unless
    one of its requests is one. *)
Lemma requests_not_labelled (log : list event) :
  forallb is_request log = true -> existsb error_message log = false.
Proof.
  induction log as [|e log IH]; simpl; [reflexivity |].
  intros H. apply andb_true_iff in H as [He Hl].
  destruct e; try discriminate. simpl. auto.
Qed.

Lemma link_metadata_no_fetch (w : world) (a : args) :
  existsb song_fetch (snd (link_metadata w a)) = false.
Proof.
  unfold link_metadata.
  destruct (given (spotify a)).
  { now rewrite (proj1 (get_spotify_metadata_shape w _)). }
  destruct (given (soundcloud a)).
  { now rewrite (proj1 (get_soundcloud_metadata_shape w _)). }
  reflexivity.
Qed.

Lemma read_link_value (w : world) (a : args) (q : string * string) :
  fst (link_metadata w a) = inl q ->
  read_link w a = (inl q, snd (link_metadata w a)).
Proof.
  unfold read_link, try_except.
  destruct (link_metadata w a) as [[v | e] l]; simpl; intros [= ->]. reflexivity.
Qed.

(** The [ValueError] of an extractor is caught at line 245. *)
Lemma read_link_raises (w : world) (a : args) (msg : string) :
  fst (link_metadata w a) = inr (ValueError msg) ->
  read_link w a =
  (inr (SystemExit 1),
   (snd (link_metadata w a) ++ [StderrWrite ("[ERROR] " ++ msg ++ nl)])%list).
Proof.
  intros H. unfold read_link, try_except.
  destruct (link_metadata w a) as [[v | e] l]; simpl in *; [discriminate |].
  injection H as ->. reflexivity.
Qed.

(** Its [AttributeError] is not. *)
Lemma read_link_escapes (w : world) (a : args) (msg : string) :
  fst (link_metadata w a) = inr (AttributeError msg) ->
  read_link w a = (inr (AttributeError msg), snd (link_metadata w a)).
Proof.
  intros H. unfold read_link, try_except.
  destruct (link_metadata w a) as [[v | e] l]; simpl in *; [discriminate |].
  injection H as ->. reflexivity.
Qed.

Lemma status_401_error {A : Type} (r : response A) :
  status_code r = 401%Z ->
  exists msg, raise_for_status r = raise (HTTPError msg).
Proof.
  intros H. destruct (raise_for_status_cases r) as [[E _] | [_ Hm]]; [| exact Hm].
  rewrite H in E. discriminate.
Qed.

Lemma status_refused_error {A : Type} (r : response A) :
  error_status (status_code r) = true ->
  exists msg, raise_for_status r = raise (HTTPError msg).
Proof.
  intros H. destruct (raise_for_status_cases r) as [[E _] | [_ Hm]]; [| exact Hm].
  rewrite H in E. discriminate.
Qed.

Lemma search_genius_unauthorized (w : world) (track artist token : string)
      (r : response (list hit)) :
  genius_search w token (search_query track artist) = Answer r ->
  status_code r = 401%Z ->
  exists msg,
    _search_genius w track artist token =
    (inr (SystemExit 1),
     [search_request track artist;
      StderrWrite ("[ERROR] Invalid Genius API access token: " ++ msg)]).
Proof.
  intros Hr Hs. destruct (status_401_error r Hs) as [msg Hm]. exists msg.
  unfold _search_genius, requests_get. rewrite Hr. cbn [bind emit ret].
  rewrite Hm. cbn. rewrite Hs. reflexivity.
Qed.

Lemma search_genius_refused (w : world) (track artist token : string)
      (r : response (list hit)) :
  genius_search w token (search_query track artist) = Answer r ->
  error_status (status_code r) = true ->
  status_code r <> 401%Z ->
  exists msg,
    _search_genius w track artist token =
    (inr (HTTPError msg), [search_request track artist]).
Proof.
  intros Hr He Hs. destruct (status_refused_error r He) as [msg Hm]. exists msg.
  unfold _search_genius, requests_get. rewrite Hr. cbn [bind emit ret].
  rewrite Hm. cbn. apply Z.eqb_neq in Hs. rewrite Hs. reflexivity.
Qed.

Lemma get_genius_song_answers (w : world) (song_id : Z) (token : string)
      (song : song_record) :
  answers (genius_song w token song_id) song ->
  _get_genius_song w song_id token = (inl song, [song_request song_id]).
Proof.
  intros (r & Hr & Hs & Hb). unfold _get_genius_song, requests_get.
  rewrite Hr. cbn [bind emit ret]. rewrite (raise_for_status_ok r Hs).
  unfold payload. rewrite Hb. reflexivity.
Qed.

Lemma get_genius_song_unauthorized (w : world) (song_id : Z) (token : string)
      (r : response song_record) :
  genius_song w token song_id = Answer r ->
  status_code r = 401%Z ->
  _get_genius_song w song_id token =
  (inr (SystemExit 1),
   [song_request song_id;
    StderrWrite ("[ERROR] Invalid Genius API access token (HTTP 401 Unauthorized)."
                   ++ nl)]).
Proof.
  intros Hr Hs. destruct (status_401_error r Hs) as [msg Hm].
  unfold _get_genius_song, requests_get. rewrite Hr. cbn [bind emit ret].
  rewrite Hm. cbn. rewrite Hs. reflexivity.
Qed.

Lemma get_genius_song_refused (w : world) (song_id : Z) (token : string)
      (r : response song_record) :
  genius_song w token song_id = Answer r ->
  error_status (status_code r) = true ->
  status_code r <> 401%Z ->
  exists msg,
    _get_genius_song w song_id token =
    (inr (HTTPError msg), [song_request song_id]).
Proof.
  intros Hr He Hs. destruct (status_refused_error r He) as [msg Hm]. exists msg.
  unfold _get_genius_song, requests_get. rewrite Hr. cbn [bind emit ret].
  rewrite Hm. cbn. apply Z.eqb_neq in Hs. rewrite Hs. reflexivity.
Qed.

(** [main] up to the search: the token check passes and the link gives a
    track. *)
Lemma main_reaches_search (token : string) (w : world) (a : args)
      (track artist : string) :
  reaches_search token w a track artist ->
  main token w a =
  bind (inl (track, artist), snd (link_metadata w a))
       (fun _ =>
          song_id <- _search_genius w track artist token ;;
          if no_song_id song_id then
            stderr_write ("[ERROR] No matching song found on Genius." ++ nl) ;;;
            sys_exit 1
          else
            song <- _get_genius_song w (match song_id with Some i => i | None => 0%Z end) token ;;
            let title := song_title song in
            lyrics_text <- read_lyrics w a song ;;
            text <- compose a song lyrics_text ;;
            deliver w a title text).
Proof.
  intros (Htok & Hlink & Htrack). unfold main.
  rewrite (token_check token Htok), (read_link_value w a _ Hlink).
  unfold bind at 1. unfold bind at 4.
  destruct track; [congruence |]. reflexivity.
Qed.

Lemma run_without_song_id (token : string) (w : world) (a : args)
      (track artist : string) (hits : list hit) :
  reaches_search token w a track artist ->
  answers (genius_search w token (search_query track artist)) hits ->
  no_song_id (choose_hit artist hits) = true ->
  run_script token w a =
  ((snd (link_metadata w a)
    ++ [search_request track artist;
        StderrWrite ("[ERROR] No matching song found on Genius." ++ nl)])%list,
   1%Z).
Proof.
  intros Hreach Hans Hno. unfold run_script.
  rewrite (main_reaches_search _ _ _ _ _ Hreach).
  rewrite (search_genius_answers _ _ _ _ _ Hans).
  rewrite bind_value, bind_value. rewrite Hno. reflexivity.
Qed.

(** C10.  When the catalog matcher returns the identifier 0, [main] does
    what it does when there is no match: it writes "No matching song found"
    with the error label, ends with status 1, and sends no request to the
    song endpoint. *)
Theorem falsy_song_id_reported_as_no_match
        (token : string) (w : world) (a : args)
        (track artist : string) (hits : list hit) :
  reaches_search token w a track artist ->
  answers (genius_search w token (search_query track artist)) hits ->
  hits <> [] ->
  choose_hit artist hits = Some 0%Z ->
  run_script token w a =
  ((snd (link_metadata w a)
    ++ [search_request track artist;
        StderrWrite ("[ERROR] No matching song found on Genius." ++ nl)])%list,
   1%Z)
  /\ existsb song_fetch (fst (run_script token w a)) = false
  /\ (forall w' : world,
        link_metadata w' a = link_metadata w a ->
        answers (genius_search w' token (search_query track artist)) [] ->
        run_script token w' a = run_script token w a).
Proof.
  intros Hreach Hans _ Hzero.
  assert (Hrun := run_without_song_id token w a track artist hits Hreach Hans).
  rewrite Hzero in Hrun. specialize (Hrun eq_refl). split; [exact Hrun |]. split.
  - rewrite Hrun. cbn [fst]. rewrite existsb_app, link_metadata_no_fetch.
    reflexivity.
  - intros w' Hlink Hans'. rewrite Hrun.
    assert (Hreach' : reaches_search token w' a track artist).
    { destruct Hreach as (H1 & H2 & H3). repeat split; try apply H1; auto.
      now rewrite Hlink. }
    rewrite (run_without_song_id token w' a track artist [] Hreach' Hans' eq_refl).
    now rewrite Hlink.
Qed.

Lemma falsy_song_id_reported_as_no_match_witness :
  snd (run_script "secret" (world_of_title_hits "Song - Band" [mkHit 0 "The Band"])
                  some_args) = 1%Z.
Proof.
  refine (f_equal snd
            (proj1 (falsy_song_id_reported_as_no_match
                      "secret" (world_of_title_hits "Song - Band" [mkHit 0 "The Band"])
                      some_args "Song" "Band" [mkHit 0 "The Band"] _ _ _ _))).
  - repeat split; discriminate.
  - eexists. repeat split; reflexivity.
  - discriminate.
  - reflexivity.
Defined.

(* ================================================================== *)
(** * Fatal errors *)
(* ================================================================== *)

Lemma last_event_app (l l' : list event) (x : event) :
  last_event (l ++ x :: l') = last_event (x :: l').
Proof.
  unfold last_event. rewrite rev_app_distr.
  destruct (List.rev (x :: l')) eqn:E; [| reflexivity].
  apply (f_equal (@List.length event)) in E. rewrite length_rev in E. discriminate.
Qed.

Lemma main_reaches_fetch (token : string) (w : world) (a : args)
      (track artist : string) (song_id : Z) :
  reaches_fetch token w a track artist song_id ->
  main token w a =
  bind (inl tt, (snd (link_metadata w a) ++ [search_request track artist])%list)
       (fun _ =>
          song <- _get_genius_song w song_id token ;;
          let title := song_title song in
          lyrics_text <- read_lyrics w a song ;;
          text <- compose a song lyrics_text ;;
          deliver w a title text).
Proof.
  intros (Hreach & hits & Hans & Hid & Hnz).
  rewrite (main_reaches_search _ _ _ _ _ Hreach).
  rewrite (search_genius_answers _ _ _ _ _ Hans).
  apply Z.eqb_neq in Hnz. unfold bind. rewrite Hid. cbn [no_song_id]. rewrite Hnz.
  destruct (_get_genius_song w song_id token) as [[song | e] l]; cbn.
  - destruct (read_lyrics w a song) as [[t | e] l2]; cbn.
    + destruct (compose a song t) as [[x | e] l3]; cbn.
      * destruct (deliver w a (song_title song) x) as [res l4]; cbn.
        now rewrite <- !app_assoc.
      * now rewrite <- !app_assoc.
    + now rewrite <- !app_assoc.
  - now rewrite <- !app_assoc.
Qed.

(** What a run looks like for each way of failing. *)
Lemma fatal_run (token : string) (w : world) (a : args) (k : fatal_kind) :
  fatal token w a k ->
  exists (before : list event) (text : string),
    run_script token w a = ((before ++ [StderrWrite text])%list, 1%Z) /\
    forallb is_request before = true /\
    match k with
    | CatalogError => exists msg, text = traceback (HTTPError msg)
    | _ => PyStr.startswith "[ERROR]" text = true
    end.
Proof.
  intros Hk. pose proof (link_metadata_events w a) as Hev.
  destruct Hk as [msg Htok Hl | artist Htok Hl | track artist r Hreach Hr Hs
                  | track artist i r Hreach Hr Hs | track artist Hreach Hans
                  | track artist r Hreach Hr He Hs
                  | track artist i r Hreach Hr He Hs].
  - exists (snd (link_metadata w a)), ("[ERROR] " ++ msg ++ nl).
    repeat split; auto. unfold run_script, main.
    rewrite (token_check token Htok), (read_link_raises w a msg Hl). reflexivity.
  - exists (snd (link_metadata w a)),
      ("[ERROR] Could not parse metadata from provided link." ++ nl).
    repeat split; auto. unfold run_script, main.
    rewrite (token_check token Htok), (read_link_value w a _ Hl). reflexivity.
  - destruct (search_genius_unauthorized w track artist token r Hr Hs) as [msg Hm].
    exists (snd (link_metadata w a) ++ [search_request track artist])%list,
      ("[ERROR] Invalid Genius API access token: " ++ msg).
    repeat split.
    + unfold run_script. rewrite (main_reaches_search _ _ _ _ _ Hreach), Hm.
      cbn. now rewrite <- app_assoc.
    + rewrite forallb_app, Hev. reflexivity.
  - exists (snd (link_metadata w a)
            ++ [search_request track artist; song_request i])%list,
      ("[ERROR] Invalid Genius API access token (HTTP 401 Unauthorized)." ++ nl).
    repeat split.
    + unfold run_script. rewrite (main_reaches_fetch _ _ _ _ _ _ Hreach).
      rewrite (get_genius_song_unauthorized w i token r Hr Hs).
      cbn. now rewrite <- !app_assoc.
    + rewrite forallb_app, Hev. reflexivity.
  - exists (snd (link_metadata w a) ++ [search_request track artist])%list,
      ("[ERROR] No matching song found on Genius." ++ nl).
    repeat split.
    + rewrite (run_without_song_id token w a track artist [] Hreach Hans eq_refl).
      now rewrite <- app_assoc.
    + rewrite forallb_app, Hev. reflexivity.
  - destruct (search_genius_refused w track artist token r Hr He Hs) as [msg Hm].
    exists (snd (link_metadata w a) ++ [search_request track artist])%list,
      (traceback (HTTPError msg)).
    repeat split.
    + unfold run_script. rewrite (main_reaches_search _ _ _ _ _ Hreach), Hm.
      cbn. now rewrite <- app_assoc.
    + rewrite forallb_app, Hev. reflexivity.
    + now exists msg.
  - destruct (get_genius_song_refused w i token r Hr He Hs) as [msg Hm].
    exists (snd (link_metadata w a)
            ++ [search_request track artist; song_request i])%list,
      (traceback (HTTPError msg)).
    repeat split.
    + unfold run_script. rewrite (main_reaches_fetch _ _ _ _ _ _ Hreach), Hm.
      cbn. now rewrite <- !app_assoc.
    + rewrite forallb_app, Hev. reflexivity.
    + now exists msg.
Qed.

Lemma traceback_not_labelled (e : exn) :
  PyStr.startswith "[ERROR]" (traceback e) = false.
Proof. reflexivity. Qed.

(** C6, as amended.  Every fatal error ends the run with status 1 and its
    report is the last thing written.  For an authentication failure, an
    extraction failure (the [ValueError] of an extractor, or a link that
    gives no track) and a search without hits the report carries the
    [[ERROR]] label.  A catalog error (a response with an error status
    other than 401 from the search or the song endpoint) is raised again
    and nobody catches it: the report is the interpreter's traceback of the
    [HTTPError], and no labelled message is written. *)
Theorem fatal_error_report (token : string) (w : world) (a : args) (k : fatal_kind) :
  fatal token w a k ->
  snd (run_script token w a) = 1%Z /\
  exists text : string,
    last_event (fst (run_script token w a)) = Some (StderrWrite text) /\
    match k with
    | CatalogError =>
        (exists msg, text = traceback (HTTPError msg)) /\
        existsb error_message (fst (run_script token w a)) = false
    | _ =>
        PyStr.startswith "[ERROR]" text = true /\
        reports_fatal (run_script token w a)
    end.
Proof.
  intros Hk. destruct (fatal_run token w a k Hk) as (before & text & Hrun & Hreq & Htext).
  rewrite Hrun. cbn [fst snd]. split; [reflexivity |]. exists text.
  split; [apply last_event_app |].
  assert (Hlab : existsb error_message (before ++ [StderrWrite text])
                 = PyStr.startswith "[ERROR]" text).
  { rewrite existsb_app, (requests_not_labelled before Hreq). cbn.
    now rewrite orb_false_r. }
  unfold reports_fatal. cbn [fst snd]. rewrite Hlab.
  destruct k; try (repeat split; [exact Htext | exact Htext | discriminate]).
  destruct Htext as [msg ->]. split; [now exists msg | reflexivity].
Qed.

Lemma search_status_reaches_search (status : Z) (reason : string) :
  reaches_search "secret" (world_of_search_status status reason) some_args "Song" "Band".
Proof. repeat split; discriminate. Qed.

Lemma fatal_error_report_witness :
  snd (run_script "secret" (world_of_search_status 401 "Unauthorized") some_args) = 1%Z
  /\ snd (run_script "secret" (world_of_search_status 500 "Internal Server Error")
                     some_args) = 1%Z.
Proof.
  split.
  - refine (proj1 (fatal_error_report "secret" (world_of_search_status 401 "Unauthorized")
                                      some_args AuthenticationFailure _)).
    eapply search_unauthorized.
    + apply search_status_reaches_search.
    + reflexivity.
    + reflexivity.
  - refine (proj1 (fatal_error_report "secret"
                     (world_of_search_status 500 "Internal Server Error")
                     some_args CatalogError _)).
    eapply search_refused.
    + apply search_status_reaches_search.
    + reflexivity.
    + reflexivity.
    + discriminate.
Defined.

(** C6 as stated does not hold: a search answered with status 500 is a
    catalog error, and the run writes no message with the [[ERROR]] label. *)
Lemma catalog_error_not_labelled :
  fatal "secret" (world_of_search_status 500 "Internal Server Error") some_args
        CatalogError
  /\ ~ reports_fatal
       (run_script "secret" (world_of_search_status 500 "Internal Server Error")
                   some_args).
Proof.
  split.
  - eapply search_refused.
    + apply search_status_reaches_search.
    + reflexivity.
    + reflexivity.
    + discriminate.
  - intros [Hlab _]. vm_compute in Hlab. discriminate.
Qed.

Example catalog_error_run :
  run_script "secret" (world_of_search_status 500 "Internal Server Error") some_args
  = ([HttpGet "https://open.spotify.com/oembed?url=https://open.spotify.com/track/1" [];
      HttpGet "https://api.genius.com/search" [("q", "Song Band")];
      StderrWrite
        ("Traceback (most recent call last):" ++ nl
         ++ "requests.exceptions.HTTPError: 500 Server Error: Internal Server Error for url: https://api.genius.com/search?q=Song+Band"
         ++ nl)],
     1%Z).
Proof. reflexivity. Qed.

(* ================================================================== *)
(** * A failed scrape *)
(* ================================================================== *)

Lemma scrape_genius_lyrics_exception (w : world) (url : string) (e : exn) :
  fst (_scrape_genius_lyrics w url) = inr e -> is_Exception e = true.
Proof.
  unfold _scrape_genius_lyrics, requests_get.
  destruct (genius_page w url) as [err | r]; cbn; [now intros [= <-] |].
  destruct (raise_for_status_cases r) as [[_ ->] | [_ [msg ->]]]; cbn;
    [| now intros [= <-]].
  unfold payload. destruct (body r); cbn; [discriminate | now intros [= <-]].
Qed.

Lemma fetch_lyrics_exception (w : world) (song : song_record) (e : exn) :
  fst (fetch_lyrics w song) = inr e -> is_Exception e = true.
Proof.
  unfold fetch_lyrics, Py.subscript.
  destruct (Py.dict_get "url" song) as [[| | | url | |] |]; cbn;
    try (now intros [= <-]).
  apply scrape_genius_lyrics_exception.
Qed.

Lemma read_lyrics_failure (w : world) (a : args) (song : song_record)
      (e : exn) (l : list event) :
  lyrics a || negb (data a) = true ->
  fetch_lyrics w song = (inr e, l) ->
  read_lyrics w a song =
  (inl "", (l ++ [StderrWrite ("[WARNING] Lyrics scraping failed: "
                                 ++ Py.exn_str e ++ nl)])%list).
Proof.
  intros Hneed Hfetch. unfold read_lyrics. rewrite Hneed.
  pose proof (fetch_lyrics_exception w song e) as Hexc.
  rewrite Hfetch in *. specialize (Hexc eq_refl).
  unfold try_except. cbn [select_clause]. rewrite Hexc. reflexivity.
Qed.

Lemma print_metadata_ok (song : song_record) :
  metadata_fields song -> exists text, _print_metadata song = (inl text, []).
Proof.
  intros [(d & name & Hd & Hname) Halbum]. unfold _print_metadata.
  cbn [Py.subscript]. rewrite Hd. cbn [Py.subscript]. rewrite Hname.
  destruct (Py.truthy_get "album" song) eqn:Ea.
  - destruct (Halbum eq_refl) as (d' & name' & Hd' & Hname').
    rewrite Hd'. cbn [Py.subscript]. rewrite Hname'.
    destruct (Py.truthy_get "release_date" song) eqn:Er.
    + unfold Py.truthy_get in Er.
      destruct (Py.dict_get "release_date" song); [| discriminate].
      eexists. reflexivity.
    + eexists. reflexivity.
  - destruct (Py.truthy_get "release_date" song) eqn:Er.
    + unfold Py.truthy_get in Er.
      destruct (Py.dict_get "release_date" song); [| discriminate].
      eexists. reflexivity.
    + eexists. reflexivity.
Qed.

Lemma deliver_ok (w : world) (a : args) (song : song_record) (text : string) :
  can_deliver w a song ->
  exists out, deliver w a (song_title song) text = (inl tt, out) /\ emits text out.
Proof.
  unfold can_deliver, deliver, emits. destruct (file a) as [folder |].
  - intros (Hmk & t & Ht & Hopen). unfold _write_to_file. rewrite Hmk, Ht.
    cbn [bind emit ret]. unfold extension in Hopen. rewrite Hopen.
    eexists. split; [reflexivity |]. right. eexists. cbn. right. left. reflexivity.
  - intros _. eexists. split; [reflexivity |]. left. now left.
Qed.

Lemma compose_without_lyrics (a : args) (song : song_record) :
  lyrics a || negb (data a) = true ->
  (output a = Text -> lyrics a = false -> metadata_fields song) ->
  exists text,
    compose a song "" = (inl text, []) /\
    (output a = Text -> lyrics a = false ->
     exists metadata,
       _print_metadata song = (inl metadata, []) /\ text = metadata ++ nl ++ nl) /\
    (output a = Json_format -> lyrics a = false ->
     text = Json.dumps (JDict (Py.dict_set "lyrics" (JString "") song))).
Proof.
  intros Hneed Hfields. unfold compose.
  destruct (output a), (lyrics a), (data a); try discriminate;
    try (eexists; split; [reflexivity |]; split; intros; congruence).
  destruct (print_metadata_ok song (Hfields eq_refl eq_refl)) as [metadata Hm].
  rewrite Hm. exists (metadata ++ nl ++ nl). split; [| split].
  - reflexivity.
  - intros _ _. now exists metadata.
  - discriminate.
Qed.

(** C7.  When the song was fetched, lyrics are wanted and the scrape
    raises, the run goes on: it writes a message with the [[WARNING]] label,
    composes the output with the empty string for the lyrics (in combined
    text mode the metadata followed by a blank line, in combined JSON mode
    the record with an empty [lyrics]), hands it over, and ends with
    status 0. *)
Theorem scrape_failure_not_fatal
        (token : string) (w : world) (a : args) (track artist : string)
        (song_id : Z) (song : song_record) (e : exn) (l : list event) :
  reaches_fetch token w a track artist song_id ->
  answers (genius_song w token song_id) song ->
  lyrics a || negb (data a) = true ->
  fetch_lyrics w song = (inr e, l) ->
  (output a = Text -> lyrics a = false -> metadata_fields song) ->
  can_deliver w a song ->
  exists (text : string) (out : list event),
    compose a song "" = (inl text, []) /\
    (output a = Text -> lyrics a = false ->
     exists metadata,
       _print_metadata song = (inl metadata, []) /\ text = metadata ++ nl ++ nl) /\
    (output a = Json_format -> lyrics a = false ->
     text = Json.dumps (JDict (Py.dict_set "lyrics" (JString "") song))) /\
    emits text out /\
    run_script token w a =
    ((snd (link_metadata w a)
      ++ [search_request track artist; song_request song_id]
      ++ l
      ++ [StderrWrite ("[WARNING] Lyrics scraping failed: " ++ Py.exn_str e ++ nl)]
      ++ out)%list,
     0%Z).
Proof.
  intros Hreach Hsong Hneed Hfetch Hfields Hdel.
  destruct (compose_without_lyrics a song Hneed Hfields) as (text & Hc & Htext & Hjson).
  destruct (deliver_ok w a song text Hdel) as (out & Hout & Hemit).
  exists text, out. repeat split; auto.
  unfold run_script. rewrite (main_reaches_fetch _ _ _ _ _ _ Hreach).
  rewrite (get_genius_song_answers _ _ _ _ Hsong).
  repeat (rewrite bind_value; cbv beta zeta).
  rewrite (read_lyrics_failure w a song e l Hneed Hfetch).
  repeat (rewrite bind_value; cbv beta zeta). rewrite Hc.
  repeat (rewrite bind_value; cbv beta zeta). rewrite Hout.
  cbn [fst snd app]. now rewrite <- !app_assoc.
Qed.

Lemma scrape_failure_not_fatal_witness :
  exists (text : string) (out : list event),
    compose some_args band_song "" = (inl text, []) /\
    (output some_args = Text -> lyrics some_args = false ->
     exists metadata,
       _print_metadata band_song = (inl metadata, []) /\ text = metadata ++ nl ++ nl) /\
    (output some_args = Json_format -> lyrics some_args = false ->
     text = Json.dumps (JDict (Py.dict_set "lyrics" (JString "") band_song))) /\
    emits text out /\
    run_script "secret" world_without_page some_args =
    ((snd (link_metadata world_without_page some_args)
      ++ [search_request "Song" "Band"; song_request 5]
      ++ [HttpGet "https://genius.com/the-band-song-lyrics" []]
      ++ [StderrWrite ("[WARNING] Lyrics scraping failed: "
                         ++ Py.exn_str (RequestException "Connection refused") ++ nl)]
      ++ out)%list,
     0%Z).
Proof.
  apply (scrape_failure_not_fatal "secret" world_without_page some_args
                                  "Song" "Band" 5 band_song).
  - split; [repeat split; discriminate |].
    exists [mkHit 5 "The Band"]. split; [| split; [reflexivity | discriminate]].
    eexists. repeat split; reflexivity.
  - eexists. repeat split; reflexivity.
  - reflexivity.
  - reflexivity.
  - intros _ _. split.
    + exists [("name", JString "The Band")], (JString "The Band"). split; reflexivity.
    + discriminate.
  - exact I.
Defined.

Example scrape_failure_run :
  run_script "secret" world_without_page some_args
  = ([HttpGet "https://open.spotify.com/oembed?url=https://open.spotify.com/track/1" [];
      HttpGet "https://api.genius.com/search" [("q", "Song Band")];
      HttpGet "https://api.genius.com/songs/5" [];
      HttpGet "https://genius.com/the-band-song-lyrics" [];
      StderrWrite ("[WARNING] Lyrics scraping failed: Connection refused" ++ nl);
      StdoutWrite ("Title : Song" ++ nl ++ "Artist: The Band" ++ nl
                   ++ "URL   : https://genius.com/the-band-song-lyrics"
                   ++ nl ++ nl ++ nl)],
     0%Z).
Proof. reflexivity. Qed.

(* ================================================================== *)
(** * The lyrics extractor *)
(* ================================================================== *)

(** Induction on a forest: on the children of its first tree and on the
    trees after it. *)
Lemma forest_ind (P : list node -> Prop) :
  P [] ->
  (forall s rs, P rs -> P (NavigableString s :: rs)) ->
  (forall s rs, P rs -> P (Comment s :: rs)) ->
  (forall i name attrs cs rs, P cs -> P rs -> P (Tag i name attrs cs :: rs)) ->
  forall f, P f.
Proof.
  intros H1 H2 H3 H4 f.
  induction f as [|n f IH]; [exact H1 | now apply (forest_step P H1 H2 H3 H4)].
Qed.

Import Soup.

Local Open Scope list_scope.

Lemma uids_app (l l' : list node) : uids (l ++ l') = (uids l ++ uids l')%list.
Proof.
  induction l as [|n l IH]; simpl; [reflexivity |].
  destruct n; simpl; now rewrite IH.
Qed.

Lemma nodes_of_app (f g : list node) :
  nodes_of (f ++ g) = (nodes_of f ++ nodes_of g)%list.
Proof. unfold nodes_of. apply flat_map_app. Qed.

Lemma nodes_of_tag i name attrs cs rs :
  nodes_of (Tag i name attrs cs :: rs)
  = Tag i name attrs cs :: (nodes_of cs ++ nodes_of rs)%list.
Proof. reflexivity. Qed.

Lemma uids_of_tag i name attrs cs rs :
  uids_of (Tag i name attrs cs :: rs) = i :: (uids_of cs ++ uids_of rs)%list.
Proof. unfold uids_of. rewrite nodes_of_tag. simpl. now rewrite uids_app. Qed.

Lemma uids_of_app (f g : list node) :
  uids_of (f ++ g) = (uids_of f ++ uids_of g)%list.
Proof. unfold uids_of. now rewrite nodes_of_app, uids_app. Qed.

Lemma deref_tag u i name attrs cs rs :
  deref u (Tag i name attrs cs :: rs)
  = if Nat.eqb i u then Some (Tag i name attrs cs)
    else match deref u cs with
         | Some t => Some t
         | None => deref u rs
         end.
Proof.
  unfold deref. rewrite nodes_of_tag. simpl.
  destruct (Nat.eqb i u); [reflexivity |].
  induction (nodes_of cs) as [|n l IH]; simpl; [reflexivity |].
  destruct (has_uid u n); [reflexivity | exact IH].
Qed.

Lemma deref_app u (f g : list node) :
  deref u (f ++ g)
  = match deref u f with Some t => Some t | None => deref u g end.
Proof.
  unfold deref. rewrite nodes_of_app.
  induction (nodes_of f) as [|n l IH]; simpl; [reflexivity |].
  destruct (has_uid u n); [reflexivity | exact IH].
Qed.

Lemma detach_all_tag u i name attrs cs rs :
  detach_all u (Tag i name attrs cs :: rs)
  = if Nat.eqb i u then detach_all u rs
    else Tag i name attrs (detach_all u cs) :: detach_all u rs.
Proof. unfold detach_all. simpl. now destruct (Nat.eqb i u). Qed.

Lemma deref_none u (f : list node) :
  deref u f = None <-> ~ In u (uids_of f).
Proof.
  induction f as [| s rs IH | s rs IH | i name attrs cs rs IHc IHr] using forest_ind.
  - split; [intros _ [] | reflexivity].
  - exact IH.
  - exact IH.
  - rewrite deref_tag, uids_of_tag. destruct (Nat.eqb_spec i u) as [-> | Hne].
    + split; [discriminate |]. intros H. exfalso. apply H. now left.
    + destruct (deref u cs) eqn:E.
      * split; [discriminate |]. intros H. exfalso.
        assert (Hin : In u (uids_of cs)).
        { destruct (in_dec Nat.eq_dec u (uids_of cs)) as [Hi | Hn]; [exact Hi |].
          apply IHc in Hn. discriminate. }
        apply H. right. apply in_or_app. now left.
      * rewrite IHr. simpl. rewrite in_app_iff.
        assert (Hn : ~ In u (uids_of cs)) by now apply IHc.
        tauto.
Qed.

Lemma deref_some u (f : list node) (t : node) :
  deref u f = Some t -> In t (nodes_of f) /\ has_uid u t = true.
Proof. unfold deref. intros H. now apply find_some in H. Qed.

Lemma has_uid_in_uids u (n : node) (l : list node) :
  In n l -> has_uid u n = true -> In u (uids l).
Proof.
  induction l as [|m l IH]; simpl; [tauto |].
  intros [-> | Hin] Hu.
  - destruct n; try discriminate. simpl in Hu. apply Nat.eqb_eq in Hu. now left.
  - destruct m; auto. right. auto.
Qed.

Lemma in_uids u (l : list node) :
  In u (uids l) -> exists n, In n l /\ has_uid u n = true.
Proof.
  induction l as [|m l IH]; simpl; [tauto |].
  destruct m as [s | s | i name attrs cs].
  - intros H. destruct (IH H) as (n & Hn & Hu). exists n. auto.
  - intros H. destruct (IH H) as (n & Hn & Hu). exists n. auto.
  - intros [-> | H].
    + exists (Tag u name attrs cs). split; [now left | apply Nat.eqb_refl].
    + destruct (IH H) as (n & Hn & Hu). exists n. auto.
Qed.

(** Two nodes of a list without repeated identities that carry the same
    identity are one node. *)
Lemma unique_node u (l : list node) (x y : node) :
  NoDup (uids l) -> In x l -> In y l ->
  has_uid u x = true -> has_uid u y = true -> x = y.
Proof.
  induction l as [|m l IH]; simpl; [tauto |].
  intros Hnd [-> | Hx] [-> | Hy] Hux Huy; try reflexivity.
  - destruct x; try discriminate. simpl in Hux. apply Nat.eqb_eq in Hux. subst.
    inversion Hnd; subst. exfalso. eauto using has_uid_in_uids.
  - destruct y; try discriminate. simpl in Huy. apply Nat.eqb_eq in Huy. subst.
    inversion Hnd; subst. exfalso. eauto using has_uid_in_uids.
  - apply IH; auto. destruct m; auto. now inversion Hnd.
Qed.

(** The descendants of a node of a forest are nodes of the forest. *)
Lemma descendants_closed (f : list node) (t : node) :
  In t (nodes_of f) -> incl (descendants t) (nodes_of f).
Proof.
  induction f as [| s rs IH | s rs IH | i name attrs cs rs IHc IHr] using forest_ind.
  - intros [].
  - intros [<- | H]; [intros x [] | ]. intros x Hx. right. now apply IH.
  - intros [<- | H]; [intros x [] | ]. intros x Hx. right. now apply IH.
  - rewrite nodes_of_tag. intros [<- | H] x Hx.
    + right. apply in_or_app. now left.
    + right. apply in_app_or in H. apply in_or_app.
      destruct H as [H | H]; [left; now apply IHc | right; now apply IHr].
Qed.

Lemma nodes_of_one (t : node) : nodes_of [t] = t :: descendants t.
Proof. unfold nodes_of. simpl. now rewrite List.app_nil_r. Qed.

Lemma subtree_closed (f : list node) (t : node) :
  In t (nodes_of f) -> incl (nodes_of [t]) (nodes_of f).
Proof.
  intros H x. rewrite nodes_of_one. intros [<- | Hx]; [exact H |].
  now apply (descendants_closed f t).
Qed.

Lemma detach_all_absent e (f : list node) :
  ~ In e (uids_of f) -> detach_all e f = f.
Proof.
  induction f as [| s rs IH | s rs IH | i name attrs cs rs IHc IHr] using forest_ind.
  - reflexivity.
  - intros H. unfold detach_all. simpl. f_equal. now apply IH.
  - intros H. unfold detach_all. simpl. f_equal. now apply IH.
  - rewrite uids_of_tag, detach_all_tag. intros H.
    destruct (Nat.eqb_spec i e) as [-> | Hne]; [exfalso; apply H; now left |].
    rewrite IHc, IHr; [reflexivity | |]; intros Hin; apply H; right;
      apply in_or_app; auto.
Qed.

Lemma detach_all_uids e (f : list node) :
  incl (uids_of (detach_all e f)) (uids_of f) /\ ~ In e (uids_of (detach_all e f)).
Proof.
  induction f as [| s rs IH | s rs IH | i name attrs cs rs IHc IHr] using forest_ind.
  - split; [apply incl_refl | intros []].
  - exact IH.
  - exact IH.
  - rewrite detach_all_tag, uids_of_tag.
    destruct IHc as [IHc1 IHc2], IHr as [IHr1 IHr2].
    destruct (Nat.eqb_spec i e) as [-> | Hne].
    + split; [| exact IHr2]. intros x Hx. right. apply in_or_app. right. auto.
    + rewrite uids_of_tag. split.
      * intros x [<- | Hx]; [now left |]. right.
        apply in_app_or in Hx. apply in_or_app. destruct Hx; auto.
      * intros [H | H]; [congruence |]. apply in_app_or in H. tauto.
Qed.

Lemma uids_of_one i name attrs cs :
  uids_of [Tag i name attrs cs] = i :: uids_of cs.
Proof. rewrite uids_of_tag. simpl. now rewrite List.app_nil_r. Qed.

Lemma NoDup_tag i name attrs cs rs :
  NoDup (uids_of (Tag i name attrs cs :: rs)) ->
  ~ In i (uids_of cs) /\ ~ In i (uids_of rs) /\
  NoDup (uids_of cs) /\ NoDup (uids_of rs) /\
  (forall u, In u (uids_of cs) -> ~ In u (uids_of rs)).
Proof.
  rewrite uids_of_tag. intros H. inversion H as [| x l Hi Hnd]; subst.
  repeat split.
  - intros Hin. apply Hi, in_or_app. now left.
  - intros Hin. apply Hi, in_or_app. now right.
  - now apply NoDup_app_remove_r in Hnd.
  - now apply NoDup_app_remove_l in Hnd.
  - intros u Hc Hr. revert Hnd Hc Hr. generalize (uids_of cs), (uids_of rs).
    intros l1 l2. induction l1 as [|a l1 IH]; simpl; [tauto |].
    intros Hnd [-> | Hc] Hr.
    + inversion Hnd; subst. apply H2, in_or_app. now right.
    + inversion Hnd; subst. auto.
Qed.

Lemma deref_in_uids u (f : list node) (t : node) :
  deref u f = Some t -> In u (uids_of f).
Proof.
  intros H. destruct (in_dec Nat.eq_dec u (uids_of f)) as [Hi | Hn]; [exact Hi |].
  apply deref_none in Hn. congruence.
Qed.

(** Taking the tree of identity [e] out of a forest splits its tags in
    two: those that stay and those of the tree. *)
Lemma detach_all_split e (f : list node) (te : node) :
  NoDup (uids_of f) -> deref e f = Some te ->
  Permutation (uids_of f) (uids_of (detach_all e f) ++ uids_of [te]).
Proof.
  induction f as [| s rs IH | s rs IH | i name attrs cs rs IHc IHr] using forest_ind.
  - discriminate.
  - exact IH.
  - exact IH.
  - intros Hnd. destruct (NoDup_tag _ _ _ _ _ Hnd) as (Hic & Hir & Hc & Hr & Hcr).
    rewrite deref_tag, detach_all_tag.
    destruct (Nat.eqb_spec i e) as [-> | Hne].
    + intros [= <-]. rewrite (detach_all_absent e rs Hir).
      rewrite uids_of_one, uids_of_tag.
      change (e :: uids_of cs ++ uids_of rs)
        with ((e :: uids_of cs) ++ uids_of rs).
      apply Permutation_app_comm.
    + rewrite !uids_of_tag. destruct (deref e cs) as [t |] eqn:E.
      * intros [= ->].
        assert (Her : ~ In e (uids_of rs))
          by (apply Hcr; eapply deref_in_uids; eauto).
        rewrite (detach_all_absent e rs Her). simpl. apply perm_skip.
        rewrite <- List.app_assoc.
        eapply Permutation_trans;
          [| apply Permutation_app_head, Permutation_app_comm].
        rewrite List.app_assoc. apply Permutation_app_tail. now apply IHc.
      * intros Hrs.
        assert (Hec : ~ In e (uids_of cs)) by now apply deref_none.
        rewrite (detach_all_absent e cs Hec). simpl. apply perm_skip.
        rewrite <- List.app_assoc. apply Permutation_app_head. now apply IHr.
Qed.

(** A node that is neither the detached tree nor inside it is found
    again after the detachment, with the tree taken out of it. *)
Lemma deref_detach_all e u (f : list node) (t : node) :
  NoDup (uids_of f) ->
  deref u f = Some t ->
  (forall te, deref e f = Some te -> ~ In u (uids_of [te])) ->
  deref u (detach_all e f) = Some (detach e t).
Proof.
  induction f as [| s rs IH | s rs IH | i name attrs cs rs IHc IHr] using forest_ind.
  - discriminate.
  - exact IH.
  - exact IH.
  - intros Hnd. destruct (NoDup_tag _ _ _ _ _ Hnd) as (Hic & Hir & Hc & Hr & Hcr).
    rewrite !deref_tag, detach_all_tag.
    destruct (Nat.eqb_spec i u) as [-> | Hiu].
    + intros [= <-] Hout. destruct (Nat.eqb_spec u e) as [-> | Hue].
      * exfalso. apply (Hout _ eq_refl). rewrite uids_of_one. now left.
      * rewrite deref_tag, Nat.eqb_refl. reflexivity.
    + destruct (Nat.eqb_spec i e) as [-> | Hie].
      * intros Hu Hout. specialize (Hout _ eq_refl).
        rewrite uids_of_one in Hout. simpl in Hout.
        assert (Huc : deref u cs = None) by (apply deref_none; tauto).
        rewrite Huc in Hu. apply IHr; auto.
        intros te Hte. exfalso. apply Hir. eapply deref_in_uids; eauto.
      * rewrite deref_tag. apply Nat.eqb_neq in Hiu. rewrite Hiu.
        destruct (deref u cs) as [t' |] eqn:Eu.
        -- intros [= ->] Hout. rewrite (IHc Hc eq_refl); [reflexivity |].
           intros te Hte. apply Hout. now rewrite Hte.
        -- intros Hu Hout.
           assert (Hnone : deref u (detach_all e cs) = None).
           { apply deref_none. intros Hin. apply deref_none in Eu. apply Eu.
             now apply (proj1 (detach_all_uids e cs)). }
           rewrite Hnone. apply IHr; auto.
           intros te Hte. apply Hout.
           destruct (deref e cs) as [te' |] eqn:Ee; [| exact Hte].
           exfalso. apply (Hcr e); eapply deref_in_uids; eauto.
Qed.

Lemma is_excluded_detach e (n : node) : is_excluded (detach e n) = is_excluded n.
Proof. now destruct n. Qed.

Lemma has_uid_detach e u (n : node) : has_uid u (detach e n) = has_uid u n.
Proof. now destruct n. Qed.

Lemma prune_all_tag i name attrs cs rs :
  prune_all (Tag i name attrs cs :: rs)
  = if is_excluded (Tag i name attrs cs) then prune_all rs
    else Tag i name attrs (prune_all cs) :: prune_all rs.
Proof.
  unfold prune_all at 1. cbn [flat_map].
  now destruct (is_excluded (Tag i name attrs cs)).
Qed.

(** Detaching a marked tree does not change what pruning leaves. *)
Lemma prune_all_detach e (f : list node) :
  (forall n, In n (nodes_of f) -> has_uid e n = true -> is_excluded n = true) ->
  prune_all (detach_all e f) = prune_all f.
Proof.
  induction f as [| s rs IH | s rs IH | i name attrs cs rs IHc IHr] using forest_ind.
  - reflexivity.
  - intros H. unfold detach_all, prune_all. cbn. f_equal. apply IH.
    intros n Hn. apply H. now right.
  - intros H. unfold detach_all, prune_all. cbn. f_equal. apply IH.
    intros n Hn. apply H. now right.
  - intros H. rewrite detach_all_tag.
    assert (Hcs : forall n, In n (nodes_of cs) -> has_uid e n = true ->
                            is_excluded n = true).
    { intros n Hn. apply H. rewrite nodes_of_tag. right. apply in_or_app. now left. }
    assert (Hrs : forall n, In n (nodes_of rs) -> has_uid e n = true ->
                            is_excluded n = true).
    { intros n Hn. apply H. rewrite nodes_of_tag. right. apply in_or_app. now right. }
    destruct (Nat.eqb_spec i e) as [-> | Hne].
    + rewrite prune_all_tag.
      rewrite (H (Tag e name attrs cs)); [now apply IHr | now left | apply Nat.eqb_refl].
    + rewrite !prune_all_tag.
      change (is_excluded (Tag i name attrs (detach_all e cs)))
        with (is_excluded (Tag i name attrs cs)).
      destruct (is_excluded (Tag i name attrs cs)); [now apply IHr |].
      now rewrite IHc, IHr.
Qed.

Lemma marked_tag i name attrs cs rs :
  marked (Tag i name attrs cs :: rs)
  = ((if is_excluded (Tag i name attrs cs) then [i] else []) ++ marked cs ++ marked rs).
Proof.
  unfold marked. rewrite nodes_of_tag. cbn [filter].
  destruct (is_excluded (Tag i name attrs cs)); cbn;
    now rewrite filter_app, uids_app.
Qed.

Lemma marked_detach e (f : list node) :
  incl (marked (detach_all e f)) (marked f).
Proof.
  induction f as [| s rs IH | s rs IH | i name attrs cs rs IHc IHr] using forest_ind.
  - apply incl_refl.
  - exact IH.
  - exact IH.
  - rewrite detach_all_tag, marked_tag. destruct (Nat.eqb_spec i e) as [-> | Hne].
    + intros x Hx. apply in_or_app. right. apply in_or_app. right. now apply IHr.
    + rewrite marked_tag.
      change (is_excluded (Tag i name attrs (detach_all e cs)))
        with (is_excluded (Tag i name attrs cs)).
      intros x Hx. apply in_app_or in Hx. apply in_or_app.
      destruct Hx as [Hx | Hx]; [now left | right].
      apply in_app_or in Hx. apply in_or_app.
      destruct Hx as [Hx | Hx]; [left; now apply IHc | right; now apply IHr].
Qed.

Lemma marked_in_uids (f : list node) : incl (marked f) (uids_of f).
Proof.
  unfold marked, uids_of. generalize (nodes_of f). intros l.
  induction l as [|n l IH]; simpl; [apply incl_refl |].
  destruct (is_excluded n) eqn:E.
  - destruct n; try discriminate. simpl. intros x [<- | Hx]; [now left | right; auto].
  - destruct n; auto. intros x Hx. right. auto.
Qed.

Lemma find_all_excluded_tag i name attrs cs :
  find_all is_excluded (Tag i name attrs cs) = marked cs.
Proof. reflexivity. Qed.

(** What detaching [e] does to one tree in which the tags of identity [e]
    are marked. *)
Lemma detach_tree e (t : node) :
  (forall n, In n (descendants t) -> has_uid e n = true -> is_excluded n = true) ->
  prune (detach e t) = prune t /\
  incl (find_all is_excluded (detach e t)) (find_all is_excluded t) /\
  ~ In e (uids (descendants (detach e t))).
Proof.
  destruct t as [s | s | i name attrs cs]; cbn [detach].
  - intros _. repeat split; [apply incl_refl | intros []].
  - intros _. repeat split; [apply incl_refl | intros []].
  - intros H. split; [| split].
    + change (Tag i name attrs (prune_all (detach_all e cs))
              = Tag i name attrs (prune_all cs)).
      f_equal. now apply prune_all_detach.
    + apply marked_detach.
    + apply (proj2 (detach_all_uids e cs)).
Qed.

Lemma thinned_refl (t : node) : thinned t t.
Proof. repeat split. apply incl_refl. Qed.

Lemma thinned_trans (t1 t2 t3 : node) :
  thinned t1 t2 -> thinned t2 t3 -> thinned t1 t3.
Proof.
  intros (H1 & H2 & H3) (H4 & H5 & H6). repeat split; try congruence.
  eapply incl_tran; eauto.
Qed.

Lemma uids_incl (l l' : list node) : incl l l' -> incl (uids l) (uids l').
Proof.
  intros H u Hu. destruct (in_uids u l Hu) as (n & Hn & Hun).
  eapply has_uid_in_uids; eauto.
Qed.

Lemma find_all_in_uids (p : node -> bool) (t : node) :
  incl (find_all p t) (uids (descendants t)).
Proof. apply uids_incl. intros x Hx. now apply filter_In in Hx. Qed.

Lemma root_in_uids e (f : list node) :
  existsb (has_uid e) f = true -> In e (uids_of f).
Proof.
  intros H. apply existsb_exists in H as (r & Hr & Hu).
  apply (has_uid_in_uids e r); [| exact Hu].
  unfold nodes_of. apply in_flat_map. exists r. split; [exact Hr | now left].
Qed.

(** A tag that hangs below another one is not a root. *)
Lemma descendant_not_root e (f : list node) (t : node) :
  NoDup (uids_of f) -> In t (nodes_of f) -> In e (uids (descendants t)) ->
  existsb (has_uid e) f = false.
Proof.
  induction f as [| s rs IH | s rs IH | i name attrs cs rs IHc IHr] using forest_ind.
  - intros _ [].
  - intros Hnd [<- | Ht] He; [destruct He | now apply IH].
  - intros Hnd [<- | Ht] He; [destruct He | now apply IH].
  - intros Hnd Ht He.
    destruct (NoDup_tag _ _ _ _ _ Hnd) as (Hic & Hir & Hc & Hr & Hcr).
    rewrite nodes_of_tag in Ht. cbn [existsb has_uid].
    assert (Hcase : In e (uids_of cs) \/ (In e (uids_of rs) /\ In t (nodes_of rs))).
    { destruct Ht as [<- | Ht]; [now left |]. apply in_app_or in Ht.
      destruct Ht as [Ht | Ht].
      - left. apply (uids_incl _ _ (descendants_closed cs t Ht)). exact He.
      - right. split; [| exact Ht].
        apply (uids_incl _ _ (descendants_closed rs t Ht)). exact He. }
    destruct Hcase as [Hec | [Her Htr]].
    + destruct (Nat.eqb_spec i e) as [-> | Hne]; [tauto |]. cbn.
      destruct (existsb (has_uid e) rs) eqn:E; [| reflexivity].
      exfalso. apply (Hcr e Hec). now apply root_in_uids.
    + destruct (Nat.eqb_spec i e) as [-> | Hne]; [tauto |]. cbn. now apply IHr.
Qed.

Lemma detach_roots e (h : list node) :
  existsb (has_uid e) h = false -> map (detach e) h = detach_all e h.
Proof.
  unfold detach_all. induction h as [|r h IH]; cbn; [reflexivity |].
  intros H. apply orb_false_iff in H as [Hr Hh].
  rewrite has_uid_detach, Hr. cbn. f_equal. now apply IH.
Qed.

(** One [extract] of a marked element.  The tags stay the same and stay
    distinct; a reference leads to its tree as it was or thinned; and the
    element is no longer below anything. *)
Lemma extract_spec (h : heap) (e : nat) :
  NoDup (uids_of h) ->
  (forall te, deref e h = Some te -> is_excluded te = true) ->
  NoDup (uids_of (extract h e)) /\
  (forall u, In u (uids_of (extract h e)) <-> In u (uids_of h)) /\
  (forall u t, deref u h = Some t ->
     exists t', deref u (extract h e) = Some t' /\ thinned t t' /\
                ~ In e (find_all is_excluded t')).
Proof.
  intros Hnd Hmark. unfold extract.
  destruct (existsb (has_uid e) h) eqn:Eroot.
  { split; [exact Hnd |]. split; [tauto |]. intros u t Hu. exists t.
    split; [exact Hu |]. split; [apply thinned_refl |]. intros Hin.
    apply find_all_in_uids in Hin. apply deref_some in Hu as [Hu _].
    rewrite (descendant_not_root e h t Hnd Hu Hin) in Eroot. discriminate. }
  destruct (deref e h) as [te |] eqn:Ee.
  2:{ split; [exact Hnd |]. split; [tauto |]. intros u t Hu. exists t.
      split; [exact Hu |]. split; [apply thinned_refl |]. intros Hin.
      apply find_all_in_uids in Hin. apply deref_some in Hu as [Hu _].
      apply deref_none in Ee. apply Ee.
      apply (uids_incl _ _ (descendants_closed h t Hu)). exact Hin. }
  rewrite (detach_roots e h Eroot).
  pose proof (detach_all_split e h te Hnd Ee) as Hperm.
  assert (Hnd' : NoDup (uids_of (detach_all e h) ++ uids_of [te]))
    by (eapply Permutation_NoDup; eauto).
  destruct (deref_some _ _ _ Ee) as [Hte_in Hte_uid].
  split; [now rewrite uids_of_app |]. split.
  { intros u. rewrite uids_of_app. split; intros H.
    - eapply Permutation_in; [apply Permutation_sym; exact Hperm | exact H].
    - eapply Permutation_in; eauto. }
  intros u t Hu. destruct (deref_some _ _ _ Hu) as [Ht_in Ht_uid].
  rewrite deref_app.
  destruct (in_dec Nat.eq_dec u (uids_of [te])) as [Hin | Hout].
  - assert (Hgone : deref u (detach_all e h) = None).
    { apply deref_none. intros Hd. revert Hnd' Hd Hin.
      generalize (uids_of (detach_all e h)), (uids_of [te]). intros l1 l2.
      induction l1 as [|a l1 IH]; cbn; [tauto |].
      intros Hn [-> | Hd] Hi; inversion Hn; subst; auto.
      apply H1, in_or_app. now right. }
    rewrite Hgone. destruct (deref u [te]) as [t' |] eqn:Eu.
    2:{ apply deref_none in Eu. tauto. }
    destruct (deref_some _ _ _ Eu) as [Ht'_in Ht'_uid].
    assert (t' = t).
    { apply (unique_node u (nodes_of h)); auto.
      now apply (subtree_closed h te Hte_in). }
    subst t'. exists t. split; [reflexivity |]. split; [apply thinned_refl |].
    intros Hfa. apply find_all_in_uids in Hfa.
    assert (Hsub : incl (descendants t) (descendants te)).
    { rewrite nodes_of_one in Ht'_in. destruct Ht'_in as [<- | Hd]; [apply incl_refl |].
      intros x Hx. pose proof (descendants_closed [te] t) as Hc.
      rewrite nodes_of_one in Hc. specialize (Hc (or_intror Hd) x Hx).
      destruct Hc as [<- | Hc]; [| exact Hc].
      exfalso. apply NoDup_app_remove_l in Hnd'.
      destruct te as [s | s | i name attrs cs]; try discriminate.
      rewrite uids_of_one in Hnd'. inversion Hnd'; subst. apply H1.
      apply (uids_incl (descendants t) (nodes_of cs)).
      - intros y Hy. apply (descendants_closed cs t Hd y Hy).
      - eapply has_uid_in_uids; [exact Hx | apply Nat.eqb_refl]. }
    apply (uids_incl _ _ Hsub) in Hfa.
    apply NoDup_app_remove_l in Hnd'.
    destruct te as [s | s | i name attrs cs]; try discriminate.
    cbn in Hte_uid. apply Nat.eqb_eq in Hte_uid. subst i.
    rewrite uids_of_one in Hnd'. inversion Hnd'; subst. now apply H1.
  - rewrite (deref_detach_all e u h t Hnd Hu).
    2:{ intros te' Hte'. rewrite Ee in Hte'. now injection Hte' as <-. }
    exists (detach e t). split; [reflexivity |].
    destruct (detach_tree e t) as (Hp & Hi & Hn).
    { intros n Hn Hun. apply Hmark. f_equal.
      apply (unique_node e (nodes_of h)); auto.
      now apply (descendants_closed h t Ht_in). }
    split.
    + split; [exact Hp |]. split; [apply is_excluded_detach | exact Hi].
    + intros Hfa. apply Hn. now apply find_all_in_uids in Hfa.
Qed.

(** The loop of line 145 over marked elements. *)
Lemma extract_all_spec (E : list nat) (h : heap) :
  NoDup (uids_of h) ->
  (forall e, In e E -> forall te, deref e h = Some te -> is_excluded te = true) ->
  NoDup (uids_of (fold_left extract E h)) /\
  (forall u, In u (uids_of (fold_left extract E h)) <-> In u (uids_of h)) /\
  (forall u t, deref u h = Some t ->
     exists t', deref u (fold_left extract E h) = Some t' /\ thinned t t' /\
                forall e, In e E -> ~ In e (find_all is_excluded t')).
Proof.
  revert h. induction E as [|e E IH]; intros h Hnd Hmark; cbn [fold_left].
  - split; [exact Hnd |]. split; [tauto |]. intros u t Hu. exists t.
    split; [exact Hu |]. split; [apply thinned_refl | intros e []].
  - destruct (extract_spec h e Hnd (Hmark e (or_introl eq_refl)))
      as (Hnd1 & Hmem1 & Hfwd1).
    destruct (IH (extract h e) Hnd1) as (Hnd2 & Hmem2 & Hfwd2).
    { intros e' He' te' Hte'.
      destruct (deref e' h) as [t0 |] eqn:E0.
      - destruct (Hfwd1 e' t0 E0) as (t1 & Ht1 & (_ & Hex & _) & _).
        rewrite Hte' in Ht1. injection Ht1 as <-. rewrite Hex.
        apply (Hmark e' (or_intror He') t0 E0).
      - exfalso. apply deref_none in E0. apply E0, Hmem1.
        eapply deref_in_uids; eauto. }
    split; [exact Hnd2 |]. split.
    { intros u. rewrite Hmem2. apply Hmem1. }
    intros u t Hu. destruct (Hfwd1 u t Hu) as (t1 & Ht1 & Hthin1 & Hne1).
    destruct (Hfwd2 u t1 Ht1) as (t2 & Ht2 & Hthin2 & Hne2).
    exists t2. split; [exact Ht2 |]. split; [eapply thinned_trans; eauto |].
    intros e' [<- | He'].
    + intros Hin. apply Hne1. now apply (proj2 (proj2 Hthin2)).
    + now apply Hne2.
Qed.

Lemma marked_string s rs : marked (NavigableString s :: rs) = marked rs.
Proof. reflexivity. Qed.

Lemma marked_comment s rs : marked (Comment s :: rs) = marked rs.
Proof. reflexivity. Qed.

(** Pruning a forest without marked tags changes nothing. *)
Lemma prune_all_fixed (f : list node) : marked f = [] -> prune_all f = f.
Proof.
  induction f as [| s rs IH | s rs IH | i name attrs cs rs IHc IHr] using forest_ind.
  - reflexivity.
  - rewrite marked_string. intros H. unfold prune_all. cbn. f_equal. now apply IH.
  - rewrite marked_comment. intros H. unfold prune_all. cbn. f_equal. now apply IH.
  - rewrite marked_tag, prune_all_tag.
    destruct (is_excluded (Tag i name attrs cs)); [discriminate |]. cbn.
    intros H. apply app_eq_nil in H as [Hc Hr]. now rewrite IHc, IHr.
Qed.

Lemma prune_fixed (t : node) : find_all is_excluded t = [] -> prune t = t.
Proof.
  destruct t as [s | s | i name attrs cs]; try reflexivity.
  rewrite find_all_excluded_tag. intros H.
  change (Tag i name attrs (prune_all cs) = Tag i name attrs cs).
  now rewrite prune_all_fixed.
Qed.

(** One turn of the loop over the containers: the text appended is that
    of the container without its marked descendants, and every reference
    still leads to its tree, thinned at most. *)
Lemma scrape_container_spec (h : heap) (lines : list string) (c : nat) (t : node) :
  NoDup (uids_of h) ->
  deref c h = Some t ->
  exists h',
    scrape_container (h, lines) c
    = (h', lines ++ filter PyStr.truthy [container_text t]) /\
    NoDup (uids_of h') /\
    (forall u x, deref u h = Some x ->
       exists x', deref u h' = Some x' /\ thinned x x').
Proof.
  intros Hnd Hc. destruct (deref_some _ _ _ Hc) as [Ht_in _].
  destruct (extract_all_spec (find_all is_excluded t) h Hnd)
    as (Hnd' & Hmem & Hfwd).
  { intros e He te Hte. unfold find_all in He.
    destruct (in_uids e _ He) as (n & Hn & Hun).
    apply filter_In in Hn as [Hn Hex].
    destruct (deref_some _ _ _ Hte) as [Hte_in Hte_uid].
    replace te with n; [exact Hex |].
    apply (unique_node e (nodes_of h)); auto.
    now apply (descendants_closed h t Ht_in). }
  exists (fold_left extract (find_all is_excluded t) h).
  destruct (Hfwd c t Hc) as (t' & Ht' & (Hprune & Hex & Hincl) & Hnone).
  assert (Hclean : find_all is_excluded t' = []).
  { destruct (find_all is_excluded t') as [|e l] eqn:E; [reflexivity |].
    exfalso. apply (Hnone e); [apply Hincl |]; now left. }
  split; [| split; [exact Hnd' |]].
  - unfold scrape_container. rewrite Hc, Ht'. f_equal.
    unfold container_text. rewrite <- Hprune, (prune_fixed t' Hclean).
    cbn [filter]. unfold list_append.
    destruct (PyStr.truthy (PyStr.strip (get_text nl t'))); [reflexivity |].
    now rewrite List.app_nil_r.
  - intros u x Hx. destruct (Hfwd u x Hx) as (x' & Hx' & Hthin & _). eauto.
Qed.

(** The loop over the containers, started anywhere in its course. *)
Lemma scrape_loop_spec (soup : node) (L : list node) :
  forall (h : heap) (lines : list string),
    (forall n, In n L -> is_lyrics_container n = true /\ In n (nodes_of [soup])) ->
    NoDup (uids_of h) ->
    (forall n u, In n (nodes_of [soup]) -> has_uid u n = true ->
       exists t, deref u h = Some t /\ thinned n t) ->
    snd (fold_left scrape_container (uids L) (h, lines))
    = lines ++ filter PyStr.truthy (map container_text L).
Proof.
  induction L as [|n L IH]; intros h lines HL Hnd Hinv.
  - cbn. now rewrite List.app_nil_r.
  - destruct (HL n (or_introl eq_refl)) as [Hcont Hn_in].
    destruct n as [s | s | c name attrs cs]; try discriminate.
    cbn [uids fold_left].
    destruct (Hinv _ c Hn_in (Nat.eqb_refl c)) as (t & Ht & Hthin).
    destruct (scrape_container_spec h lines c t Hnd Ht) as (h' & Hstep & Hnd' & Hfwd).
    rewrite Hstep, IH; auto.
    + rewrite <- List.app_assoc. f_equal. cbn [map filter].
      assert (Heq : container_text t = container_text (Tag c name attrs cs)).
      { unfold container_text. now rewrite (proj1 Hthin). }
      rewrite Heq.
      now destruct (PyStr.truthy (container_text (Tag c name attrs cs))).
    + intros m Hm. apply HL. now right.
    + intros m u Hm Hu. destruct (Hinv m u Hm Hu) as (x & Hx & Hthin1).
      destruct (Hfwd u x Hx) as (x' & Hx' & Hthin2).
      exists x'. split; [exact Hx' | eapply thinned_trans; eauto].
Qed.

Lemma scrape_soup_lyrics_text (soup : node) :
  distinct_tags soup -> scrape_soup soup = lyrics_text soup.
Proof.
  intros Hnd. unfold scrape_soup, lyrics_text, find_all.
  pose proof (scrape_loop_spec soup
                (filter is_lyrics_container (descendants soup)) [soup] []) as H.
  destruct (fold_left scrape_container _ _) as [h lines]. cbn [snd] in H.
  rewrite H; [reflexivity | | exact Hnd |].
  - intros n Hn. apply filter_In in Hn as [Hn Hc]. split; [exact Hc |].
    rewrite nodes_of_one. now right.
  - intros n u Hn Hu. destruct (deref u [soup]) as [t |] eqn:E.
    + exists t. split; [reflexivity |].
      destruct (deref_some _ _ _ E) as [Ht Htu].
      replace t with n; [apply thinned_refl |].
      apply (unique_node u (nodes_of [soup])); auto.
    + exfalso. apply deref_none in E. apply E.
      eapply has_uid_in_uids; eauto.
Qed.

Lemma marked_prune_all (f : list node) : marked (prune_all f) = [].
Proof.
  induction f as [| s rs IH | s rs IH | i name attrs cs rs IHc IHr] using forest_ind.
  - reflexivity.
  - exact IH.
  - exact IH.
  - rewrite prune_all_tag.
    destruct (is_excluded (Tag i name attrs cs)) eqn:E; [exact IHr |].
    rewrite marked_tag.
    change (is_excluded (Tag i name attrs (prune_all cs)))
      with (is_excluded (Tag i name attrs cs)).
    now rewrite E, IHc, IHr.
Qed.

Lemma strings_prune_all (f : list node) :
  flat_map strings (prune_all f)
  = flat_map (fun c => if is_excluded c then [] else unmarked_strings c) f.
Proof.
  induction f as [| s rs IH | s rs IH | i name attrs cs rs IHc IHr] using forest_ind.
  - reflexivity.
  - unfold prune_all in *. cbn. now rewrite IH.
  - unfold prune_all in *. cbn. now rewrite IH.
  - rewrite prune_all_tag. cbn [flat_map].
    destruct (is_excluded (Tag i name attrs cs)); [exact IHr |].
    cbn [flat_map strings unmarked_strings List.app]. now rewrite IHc, IHr.
Qed.

(** What pruning does: no marked descendant is left, the strings left are
    those outside the marked descendants, and a tree without marked
    descendants is left as it is. *)
Lemma prune_spec (c : node) :
  find_all is_excluded (prune c) = [] /\
  strings (prune c) = unmarked_strings c /\
  (find_all is_excluded c = [] -> prune c = c).
Proof.
  split; [| split; [| apply prune_fixed]].
  - destruct c as [s | s | i name attrs cs]; try reflexivity.
    apply (marked_prune_all cs).
  - destruct c as [s | s | i name attrs cs]; try reflexivity.
    apply (strings_prune_all cs).
Qed.

Local Open Scope string_scope.

Lemma scrape_genius_lyrics_answers (w : world) (url : string) (soup : node) :
  answers (genius_page w url) soup ->
  _scrape_genius_lyrics w url = (inl (scrape_soup soup), [HttpGet url []]).
Proof.
  intros (r & Hr & Hs & Hb). unfold _scrape_genius_lyrics, requests_get.
  rewrite Hr. cbn [bind emit ret]. rewrite (raise_for_status_ok r Hs).
  unfold payload. rewrite Hb. reflexivity.
Qed.

(** C3.  For a fetched page, the lyrics extractor returns the texts of the
    lyrics containers, taken in document order and joined by one newline,
    without the containers whose text is empty.  The text of a container
    is obtained by taking every descendant that carries the exclusion
    marker out of it, joining the strings that remain with a newline, and
    trimming the result. *)
Theorem scrape_genius_lyrics_spec :
  (forall (w : world) (url : string) (soup : node),
      answers (genius_page w url) soup ->
      distinct_tags soup ->
      fst (_scrape_genius_lyrics w url)
      = inl (PyStr.join nl
               (filter PyStr.truthy
                  (map (fun c => PyStr.strip (PyStr.join nl (Soup.strings (prune c))))
                       (filter Soup.is_lyrics_container (Soup.descendants soup))))))
  /\
  (forall c : node,
      Soup.find_all Soup.is_excluded (prune c) = [] /\
      Soup.strings (prune c) = unmarked_strings c /\
      (Soup.find_all Soup.is_excluded c = [] -> prune c = c)).
Proof.
  split; [| apply prune_spec].
  intros w url soup Hans Hnd.
  rewrite (scrape_genius_lyrics_answers w url soup Hans). cbn [fst].
  now rewrite (scrape_soup_lyrics_text soup Hnd).
Qed.

(** A page with a container that holds an advertisement, a container
    that is empty once its marked part is gone, and a container with two
    lines. *)
Lemma scrape_genius_lyrics_spec_witness :
  fst (_scrape_genius_lyrics (world_of_page sample_page) "https://genius.com/song")
  = inl ("Verse" ++ nl ++ "Chorus" ++ nl ++ "Line").
Proof.
  apply (proj1 scrape_genius_lyrics_spec (world_of_page sample_page)
               "https://genius.com/song" sample_page).
  - eexists. repeat split; reflexivity.
  - unfold distinct_tags. cbn.
    repeat (constructor; [cbn; intuition discriminate |]). constructor.
Defined.

Example scrape_sample_page :
  scrape_soup sample_page = "Verse" ++ nl ++ "Chorus" ++ nl ++ "Line".
Proof. reflexivity. Qed.

(* ================================================================== *)
(** * Encoding and decoding JSON *)
(* ================================================================== *)

Import Json.

Lemma length_append (s t : string) :
  String.length (s ++ t) = String.length s + String.length t.
Proof. induction s as [|c s IH]; simpl; [reflexivity | now rewrite IH]. Qed.

Lemma skip_ws_spaces (n : nat) (s : string) :
  skip_ws (spaces n ++ s) = skip_ws s.
Proof. induction n as [|n IH]; simpl; [reflexivity | exact IH]. Qed.

Lemma skip_ws_newline_indent (level : nat) (s : string) :
  skip_ws (newline_indent level ++ s) = skip_ws s.
Proof. unfold newline_indent. cbn. apply skip_ws_spaces. Qed.

(** What the first character of a value is not. *)
Lemma value_start_facts (c : ascii) :
  value_start c = true ->
  is_ws c = false /\ Ascii.eqb c "]" = false /\ Ascii.eqb c "}" = false /\
  Ascii.eqb c "," = false /\ Ascii.eqb c ":" = false.
Proof.
  destruct c as [[] [] [] [] [] [] [] []]; vm_compute; intros H;
    try discriminate H; repeat split.
Qed.

Lemma skip_ws_value (c : ascii) (r : string) :
  value_start c = true -> skip_ws (String c r) = String c r.
Proof.
  intros H. cbn. now rewrite (proj1 (value_start_facts c H)).
Qed.

(** ** Strings *)

(** An escaped character is read back as the character. *)
Lemma scanstring_escape_char (c : ascii) (k : string) :
  scanstring (escape_char c ++ k)
  = match scanstring k with
    | Some (str, rest) => Some (String c str, rest)
    | None => None
    end.
Proof.
  destruct c as [[] [] [] [] [] [] [] []]; reflexivity.
Qed.

Lemma scanstring_escape (s rest : string) :
  scanstring (escape s ++ String DQUOTE rest) = Some (s, rest).
Proof.
  induction s as [|c s IH]; [reflexivity |].
  cbn [escape]. rewrite append_assoc, scanstring_escape_char. now rewrite IH.
Qed.

Lemma scanstring_encode_string (s rest : string) :
  exists r, encode_string s ++ rest = String DQUOTE r /\
            scanstring r = Some (s, rest).
Proof.
  exists (escape s ++ String DQUOTE rest). split.
  - unfold encode_string. cbn. now rewrite append_assoc.
  - apply scanstring_escape.
Qed.

(** ** Integers *)

Lemma canonical_norm (d : Decimal.int) : canonical (Decimal.norm d).
Proof.
  destruct d as [u | u]; cbn.
  - unfold Decimal.unorm. destruct (Decimal.nzhead u) eqn:E;
      try (right; split; [discriminate | intros v; discriminate]).
    + now left.
    + exfalso. exact (DecimalFacts.nzhead_nonzero u _ E).
  - destruct (Decimal.nzhead u) eqn:E; cbn;
      try (split; [discriminate | intros v; discriminate]).
    + now left.
    + exfalso. exact (DecimalFacts.nzhead_nonzero u _ E).
Qed.

Lemma to_int_canonical (z : Z) : canonical (Z.to_int z).
Proof.
  rewrite <- (DecimalZ.of_to z) at 1. rewrite DecimalZ.to_of. apply canonical_norm.
Qed.

Lemma digits_numeral (u : Decimal.uint) (rest : string) :
  starts_with_digit rest = false ->
  digits (NilEmpty.string_of_uint u ++ rest) = (NilEmpty.string_of_uint u, rest).
Proof.
  intros Hrest. induction u; cbn; try (rewrite IHu; reflexivity).
  destruct rest as [|c r]; [reflexivity |]. cbn in *. now rewrite Hrest.
Qed.

Lemma match_natural_numeral (u : Decimal.uint) (rest : string) :
  u = Decimal.D0 Decimal.Nil \/ (u <> Decimal.Nil /\ forall v, u <> Decimal.D0 v) ->
  starts_with_digit rest = false ->
  match_natural (NilZero.string_of_uint u ++ rest)
  = Some (NilZero.string_of_uint u, rest).
Proof.
  intros [-> | [Hnil Hzero]] Hrest; [reflexivity |].
  destruct u; try congruence;
    cbn; rewrite (digits_numeral _ rest Hrest); reflexivity.
Qed.

Lemma numeral_first_digit (u : Decimal.uint) :
  exists c r, NilZero.string_of_uint u = String c r /\ is_digit c = true.
Proof. destruct u; cbn; eexists; eexists; split; reflexivity. Qed.

Lemma match_integer_numeral (d : Decimal.int) (rest : string) :
  canonical d ->
  starts_with_digit rest = false ->
  match_integer (NilZero.string_of_int d ++ rest)
  = Some (NilZero.string_of_int d, rest).
Proof.
  intros Hc Hrest. destruct d as [u | u]; cbn [NilZero.string_of_int canonical] in *.
  - destruct (numeral_first_digit u) as (c & r & Hu & Hd).
    pose proof (match_natural_numeral u rest Hc Hrest) as Hm.
    rewrite Hu in *. cbn [append match_integer] in *.
    replace (Ascii.eqb c "-") with false; [exact Hm |].
    destruct c as [[] [] [] [] [] [] [] []]; try discriminate Hd; reflexivity.
  - cbn. now rewrite (match_natural_numeral u rest (or_intror Hc) Hrest).
Qed.

Lemma delimited_number_end (rest : string) :
  delimited rest ->
  starts_with_digit rest = false /\ has_fraction rest = false /\
  has_exponent rest = false.
Proof.
  destruct rest as [|c r]; [now repeat split |].
  intros [-> | ->]; now repeat split.
Qed.

Lemma scan_number_of_Z (z : Z) (rest : string) :
  delimited rest ->
  scan_number (PyStr.of_Z z ++ rest) = Some (JInt z, rest).
Proof.
  intros Hd. destruct (delimited_number_end rest Hd) as (H1 & H2 & H3).
  unfold scan_number, PyStr.of_Z.
  pose proof (to_int_canonical z) as Hc.
  rewrite (match_integer_numeral _ rest Hc H1), H2, H3. cbn [orb].
  rewrite NilZero.isi.
  - now rewrite DecimalZ.of_to.
  - intros E. rewrite E in Hc. cbn in Hc. destruct Hc as [Hc | [Hc _]]; congruence.
  - intros E. rewrite E in Hc. cbn in Hc. destruct Hc as [Hc _]. congruence.
Qed.

Lemma of_Z_first (z : Z) :
  exists c r, PyStr.of_Z z = String c r /\ (is_digit c = true \/ c = "-"%char).
Proof.
  unfold PyStr.of_Z. destruct (Z.to_int z) as [u | u]; cbn.
  - destruct (numeral_first_digit u) as (c & r & Hu & Hd). rewrite Hu. eauto.
  - eexists; eexists; split; [reflexivity | now right].
Qed.

(** A text that starts like a number is read as a number. *)
Lemma scan_once_number (n : nat) (c : ascii) (r : string) :
  is_digit c = true \/ c = "-"%char ->
  scan_once (S n) (String c r) = scan_number (String c r).
Proof.
  intros [H | ->]; [| reflexivity].
  destruct c as [[] [] [] [] [] [] [] []]; try discriminate H; reflexivity.
Qed.

Lemma digit_value_start (c : ascii) :
  is_digit c = true \/ c = "-"%char -> value_start c = true.
Proof.
  intros [H | ->]; [| reflexivity].
  destruct c as [[] [] [] [] [] [] [] []]; try discriminate H; reflexivity.
Qed.

(** ** Values *)

Lemma encode_start (level : nat) (v : json) :
  exists c r, encode level v = String c r /\ value_start c = true.
Proof.
  destruct v as [| [] | z | s | [| x l] | [| kx d]];
    try (eexists; eexists; split; reflexivity).
  destruct (of_Z_first z) as (c & r & Hz & Hc). exists c, r.
  split; [exact Hz | now apply digit_value_start].
Qed.

Lemma skip_ws_encode (level : nat) (v : json) (rest : string) :
  skip_ws (encode level v ++ rest) = encode level v ++ rest.
Proof.
  destruct (encode_start level v) as (c & r & -> & Hc).
  apply (skip_ws_value c (r ++ rest) Hc).
Qed.

Lemma encode_length (level : nat) (v : json) : 1 <= String.length (encode level v).
Proof.
  destruct (encode_start level v) as (c & r & -> & _). cbn. lia.
Qed.

Lemma dict_set_fresh (k : string) (v : json) (d : list (string * json)) :
  ~ In k (map fst d) -> Py.dict_set k v d = (d ++ [(k, v)])%list.
Proof.
  induction d as [| [k' v'] d IH]; cbn; [reflexivity |].
  intros H. destruct (String.eqb_spec k k') as [-> | Hne]; [tauto |].
  rewrite IH; [reflexivity | tauto].
Qed.

Lemma dict_of_pairs_from (l acc : list (string * json)) :
  NoDup (map fst (acc ++ l)) ->
  fold_left (fun d kv => Py.dict_set (fst kv) (snd kv) d) l acc = (acc ++ l)%list.
Proof.
  revert acc. induction l as [| [k v] l IH]; intros acc Hnd; cbn [fold_left].
  - now rewrite List.app_nil_r.
  - cbn [fst snd]. rewrite dict_set_fresh.
    + rewrite IH; rewrite <- List.app_assoc; [reflexivity | exact Hnd].
    + rewrite map_app in Hnd. cbn in Hnd.
      apply NoDup_remove_2 in Hnd. intros Hin. apply Hnd.
      apply in_or_app. now left.
Qed.

(** A dict read from pairs with distinct keys holds the pairs as they
    came. *)
Lemma dict_of_pairs_unique (l : list (string * json)) :
  NoDup (map fst l) -> dict_of_pairs l = l.
Proof. intros H. unfold dict_of_pairs. now rewrite dict_of_pairs_from. Qed.

Lemma scan_once_S (n : nat) (c : ascii) (r : string) :
  scan_once (S n) (String c r)
  = if Ascii.eqb c DQUOTE then
      match scanstring r with
      | Some (str, rest) => Some (JString str, rest)
      | None => None
      end
    else if Ascii.eqb c "{" then
      match skip_ws r with
      | EmptyString => None
      | String c' r' =>
          if Ascii.eqb c' "}" then Some (JDict [], r')
          else if Ascii.eqb c' DQUOTE then parse_members n [] r'
          else None
      end
    else if Ascii.eqb c "[" then
      match skip_ws r with
      | EmptyString => None
      | String c' r' =>
          if Ascii.eqb c' "]" then Some (JList [], r')
          else parse_items n [] (String c' r')
      end
    else scan_literal (String c r).
Proof. reflexivity. Qed.

Lemma parse_items_S (n : nat) (values : list json) (s : string) :
  parse_items (S n) values s
  = match scan_once n s with
    | None => None
    | Some (value, rest) =>
        match skip_ws rest with
        | EmptyString => None
        | String c r =>
            if Ascii.eqb c "]" then Some (JList (list_append values value), r)
            else if Ascii.eqb c ","
                 then parse_items n (list_append values value) (skip_ws r)
                 else None
        end
    end.
Proof. reflexivity. Qed.

Lemma parse_members_S (n : nat) (pairs : list (string * json)) (s : string) :
  parse_members (S n) pairs s
  = match scanstring s with
    | None => None
    | Some (key, rest) =>
        match skip_ws rest with
        | EmptyString => None
        | String c r =>
            if Ascii.eqb c ":" then
              match scan_once n (skip_ws r) with
              | None => None
              | Some (value, rest') =>
                  match skip_ws rest' with
                  | EmptyString => None
                  | String c' r' =>
                      if Ascii.eqb c' "}"
                      then Some (JDict (dict_of_pairs (list_append pairs (key, value))), r')
                      else if Ascii.eqb c' "," then
                        match skip_ws r' with
                        | EmptyString => None
                        | String q r'' =>
                            if Ascii.eqb q DQUOTE
                            then parse_members n (list_append pairs (key, value)) r''
                            else None
                        end
                      else None
                  end
              end
            else None
        end
    end.
Proof. reflexivity. Qed.

Lemma encode_list_cons (level : nat) (x : json) (xs : list json) :
  encode level (JList (x :: xs))
  = String "[" (newline_indent (S level) ++ encode (S level) x
                ++ concat_map (item_text level) xs
                ++ newline_indent level ++ "]").
Proof. reflexivity. Qed.

Lemma encode_dict_cons (level : nat) (kx : string * json) (d : list (string * json)) :
  encode level (JDict (kx :: d))
  = String "{" (newline_indent (S level) ++ member_text level kx
                ++ concat_map (next_member_text level) d
                ++ newline_indent level ++ "}").
Proof.
  cbn [encode]. unfold member_text. cbn [append]. f_equal.
  rewrite !append_assoc. reflexivity.
Qed.

Lemma delimited_newline_indent (level : nat) (s : string) :
  delimited (newline_indent level ++ s).
Proof. now right. Qed.

(** The items of a list are read back one after the other. *)
Lemma parse_items_encoded (level : nat) (rest : string) (xs : list json) :
  Forall (fun x => unique_keys x -> reads_back x) xs ->
  unique_keys (JList xs) ->
  forall (x : json) (values : list json) (fuel : nat),
    reads_back x ->
    String.length (encode (S level) x)
    + String.length (concat_map (item_text level) xs) < fuel ->
    parse_items fuel values
                (encode (S level) x ++ concat_map (item_text level) xs
                 ++ newline_indent level ++ String "]" rest)
    = Some (JList (values ++ x :: xs), rest).
Proof.
  induction xs as [|y ys IH]; intros Hall Huniq x values fuel Hx Hfuel.
  - destruct fuel as [|n]; [lia |]. rewrite parse_items_S.
    cbn [concat_map append] in *.
    rewrite (Hx (S level) n (newline_indent level ++ String "]" rest));
      [| cbn in Hfuel; lia | apply delimited_newline_indent].
    rewrite skip_ws_newline_indent. reflexivity.
  - destruct fuel as [|n]; [lia |]. rewrite parse_items_S.
    cbn [concat_map] in *. unfold item_text at 1. unfold item_text at 1 in Hfuel.
    rewrite !append_assoc. cbn [append].
    rewrite !length_append in Hfuel. cbn [String.length] in Hfuel.
    pose proof (encode_length (S level) x) as Hlen.
    rewrite (Hx (S level) n); [| lia | now left].
    cbn [skip_ws is_ws Ascii.eqb Bool.eqb orb PyStr.ord N_of_ascii N.eqb
         N_of_digits N.add N.mul Pos.eqb].
    cbn -[parse_items skip_ws encode concat_map newline_indent].
    rewrite skip_ws_newline_indent, skip_ws_encode.
    inversion Hall as [| ? ? Hy Hys]; subst. destruct Huniq as [Huy Huys].
    rewrite (IH Hys Huys y (list_append values x) n (Hy Huy)); [| lia].
    unfold list_append. now rewrite <- List.app_assoc.
Qed.

Lemma member_text_start (level : nat) (kx : string * json) (tail : string) :
  member_text level kx ++ tail
  = String DQUOTE (escape (fst kx)
                   ++ String DQUOTE (String ":" (String " "
                        (encode (S level) (snd kx) ++ tail)))).
Proof.
  unfold member_text, encode_string. cbn [append].
  now rewrite !append_assoc.
Qed.

Lemma skip_ws_space (s : string) : skip_ws (String " " s) = skip_ws s.
Proof. reflexivity. Qed.

(** The members of a dict are read back one after the other. *)
Lemma parse_members_encoded (level : nat) (rest : string) (d : list (string * json)) :
  Forall (fun kv => unique_keys (snd kv) -> reads_back (snd kv)) d ->
  (forall kv, In kv d -> unique_keys (snd kv)) ->
  forall (kx : string * json) (pairs : list (string * json)) (fuel : nat),
    reads_back (snd kx) ->
    String.length (member_text level kx)
    + String.length (concat_map (next_member_text level) d) < fuel ->
    parse_members fuel pairs
      (escape (fst kx)
       ++ String DQUOTE (String ":" (String " "
            (encode (S level) (snd kx)
             ++ concat_map (next_member_text level) d
             ++ newline_indent level ++ String "}" rest))))
    = Some (JDict (dict_of_pairs (pairs ++ kx :: d)), rest).
Proof.
  induction d as [|ky d IH]; intros Hall Huniq kx pairs fuel Hx Hfuel.
  - destruct fuel as [|n]; [lia |]. rewrite parse_members_S, scanstring_escape.
    change (skip_ws (String ":" ?s)) with (String ":" s). cbv iota.
    change (Ascii.eqb ":" ":") with true. cbv iota.
    rewrite skip_ws_space, skip_ws_encode.
    unfold member_text in Hfuel. rewrite !length_append in Hfuel.
    cbn [concat_map append] in *.
    rewrite (Hx (S level) n (newline_indent level ++ String "}" rest));
      [| lia | apply delimited_newline_indent].
    rewrite skip_ws_newline_indent.
    change (skip_ws (String "}" rest)) with (String "}" rest). cbv iota.
    change (Ascii.eqb "}" "}") with true. cbv iota.
    unfold list_append. now destruct kx.
  - destruct fuel as [|n]; [lia |]. rewrite parse_members_S, scanstring_escape.
    change (skip_ws (String ":" ?s)) with (String ":" s). cbv iota.
    change (Ascii.eqb ":" ":") with true. cbv iota.
    rewrite skip_ws_space, skip_ws_encode.
    cbn [concat_map] in *. unfold next_member_text at 1.
    unfold next_member_text at 1 in Hfuel.
    rewrite !append_assoc. cbn [append].
    unfold member_text at 1 in Hfuel.
    rewrite !length_append in Hfuel. cbn [String.length] in Hfuel.
    rewrite (Hx (S level) n); [| lia | now left].
    change (skip_ws (String "," ?s)) with (String "," s). cbv iota.
    change (Ascii.eqb "," "}") with false. change (Ascii.eqb "," ",") with true.
    cbv iota. rewrite skip_ws_newline_indent, member_text_start.
    change (skip_ws (String DQUOTE ?s)) with (String DQUOTE s). cbv iota.
    change (Ascii.eqb DQUOTE DQUOTE) with true. cbv iota.
    inversion Hall as [| ? ? Hy Hys]; subst.
    rewrite (IH Hys (fun kv H => Huniq kv (or_intror H)) ky
                (list_append pairs (fst kx, snd kx)) n
                (Hy (Huniq ky (or_introl eq_refl)))); [| lia].
    unfold list_append. rewrite <- List.app_assoc. now destruct kx.
Qed.

(** Every value with distinct keys is read back from its encoding. *)
Lemma encode_reads_back (v : json) : unique_keys v -> reads_back v.
Proof.
  induction v as [| b | z | s | l IH | d IH] using json_induction;
    intros Huniq level fuel rest Hfuel Hrest.
  - destruct fuel as [|n]; [cbn in Hfuel; lia | reflexivity].
  - destruct fuel as [|n]; [destruct b; cbn in Hfuel; lia |].
    destruct b; reflexivity.
  - destruct fuel as [|n]; [pose proof (encode_length level (JInt z)); lia |].
    cbn [encode]. destruct (of_Z_first z) as (c & r & Hz & Hc).
    rewrite <- (scan_number_of_Z z rest Hrest). rewrite Hz. cbn [append].
    now apply scan_once_number.
  - destruct fuel as [|n]; [pose proof (encode_length level (JString s)); lia |].
    cbn [encode]. destruct (scanstring_encode_string s rest) as (r & -> & Hr).
    rewrite scan_once_S. change (Ascii.eqb DQUOTE DQUOTE) with true. cbv iota.
    now rewrite Hr.
  - destruct l as [|x xs].
    + destruct fuel as [|n]; [cbn in Hfuel; lia | reflexivity].
    + destruct fuel as [|n]; [pose proof (encode_length level (JList (x :: xs))); lia |].
      rewrite encode_list_cons in *. cbn [append]. rewrite scan_once_S.
      change (Ascii.eqb "[" DQUOTE) with false.
      change (Ascii.eqb "[" "{") with false.
      change (Ascii.eqb "[" "[") with true. cbv iota.
      rewrite !append_assoc, skip_ws_newline_indent, skip_ws_encode.
      destruct (encode_start (S level) x) as (c & r & Hx & Hc).
      destruct (value_start_facts c Hc) as (_ & Hclose & _).
      cbn [String.length] in Hfuel. rewrite !length_append in Hfuel.
      inversion IH as [| ? ? IHx IHxs]; subst. destruct Huniq as [Hux Huxs].
      pose proof (parse_items_encoded level rest xs IHxs Huxs x [] n (IHx Hux))
        as Hitems.
      rewrite Hx in *. cbn [append]. rewrite Hclose.
      cbn [append] in Hitems. apply Hitems.
      cbn [String.length] in *. pose proof (length_append "" ""). lia.
  - destruct d as [|kx d].
    + destruct fuel as [|n]; [cbn in Hfuel; lia | reflexivity].
    + destruct fuel as [|n]; [pose proof (encode_length level (JDict (kx :: d))); lia |].
      rewrite encode_dict_cons in *. cbn [append]. rewrite scan_once_S.
      change (Ascii.eqb "{" DQUOTE) with false.
      change (Ascii.eqb "{" "{") with true. cbv iota.
      rewrite !append_assoc, skip_ws_newline_indent, member_text_start.
      change (skip_ws (String DQUOTE ?s)) with (String DQUOTE s). cbv iota.
      change (Ascii.eqb DQUOTE "}") with false.
      change (Ascii.eqb DQUOTE DQUOTE) with true. cbv iota.
      cbn [String.length] in Hfuel. rewrite !length_append in Hfuel.
      inversion IH as [| ? ? IHx IHd]; subst.
      destruct Huniq as [Hnd [Hux Hud]].
      assert (Hvals : forall kv, In kv d -> unique_keys (snd kv)).
      { clear - Hud. induction d as [|ky d IHd']; [intros kv [] |].
        destruct Hud as [Hy Hd]. intros kv [<- | Hin]; auto. }
      pose proof (parse_members_encoded level rest d IHd Hvals kx [] n (IHx Hux))
        as Hmembers.
      cbn [append] in Hmembers. change ("}" ++ rest) with (String "}" rest).
      rewrite Hmembers;
        [| unfold newline_indent in Hfuel; cbn [String.length] in Hfuel; lia].
      cbn [List.app]. now rewrite (dict_of_pairs_unique (kx :: d) Hnd).
Qed.

Lemma loads_dumps (v : json) : unique_keys v -> loads (dumps v) = Some v.
Proof.
  intros Huniq. unfold loads, dumps.
  rewrite <- (append_nil_r (encode 0 v)) at 2.
  rewrite skip_ws_encode, append_nil_r.
  rewrite <- (append_nil_r (encode 0 v)) at 2.
  rewrite (encode_reads_back v Huniq 0 (S (String.length (encode 0 v))) "");
    [reflexivity | lia | exact I].
Qed.

Lemma read_lyrics_not_needed (w : world) (a : args) (song : song_record) :
  lyrics a = false -> data a = true -> read_lyrics w a song = (inl "", []).
Proof. intros Hl Hd. unfold read_lyrics. now rewrite Hl, Hd. Qed.

(** C9.  In metadata-only mode with JSON output, the text the run hands
    over is the encoding of the song record, and decoding that text gives
    the record back: the same keys with the same values in the same order.
    More generally every value is read back from its encoding. *)
Theorem metadata_json_round_trip :
  (forall v : json, unique_keys v -> Json.loads (Json.dumps v) = Some v)
  /\
  (forall (token : string) (w : world) (a : args) (track artist : string)
          (song_id : Z) (song : song_record),
      reaches_fetch token w a track artist song_id ->
      answers (genius_song w token song_id) song ->
      output a = Json_format -> lyrics a = false -> data a = true ->
      unique_keys (JDict song) ->
      can_deliver w a song ->
      exists (text : string) (out : list event),
        compose a song "" = (inl text, []) /\
        Json.loads text = Some (JDict song) /\
        emits text out /\
        run_script token w a =
        ((snd (link_metadata w a)
          ++ [search_request track artist; song_request song_id] ++ out)%list,
         0%Z)).
Proof.
  split; [exact loads_dumps |].
  intros token w a track artist song_id song Hreach Hsong Hout Hl Hd Huniq Hdel.
  exists (Json.dumps (JDict song)).
  destruct (deliver_ok w a song (Json.dumps (JDict song)) Hdel) as (out & Hdeliver & Hemit).
  exists out.
  assert (Hc : compose a song "" = (inl (Json.dumps (JDict song)), [])).
  { unfold compose. now rewrite Hout, Hl, Hd. }
  split; [exact Hc |]. split; [now apply loads_dumps |]. split; [exact Hemit |].
  unfold run_script. rewrite (main_reaches_fetch _ _ _ _ _ _ Hreach).
  rewrite (get_genius_song_answers _ _ _ _ Hsong).
  repeat (rewrite bind_value; cbv beta zeta).
  rewrite (read_lyrics_not_needed w a song Hl Hd).
  repeat (rewrite bind_value; cbv beta zeta). rewrite Hc.
  repeat (rewrite bind_value; cbv beta zeta). rewrite Hdeliver.
  cbn [fst snd List.app]. now rewrite <- !List.app_assoc.
Qed.

Lemma metadata_json_round_trip_witness :
  Json.loads (Json.dumps (JDict band_song)) = Some (JDict band_song)
  /\ exists (text : string) (out : list event),
       compose data_json_args band_song "" = (inl text, []) /\
       Json.loads text = Some (JDict band_song) /\
       emits text out /\
       run_script "secret" world_without_page data_json_args =
       ((snd (link_metadata world_without_page data_json_args)
         ++ [search_request "Song" "Band"; song_request 5] ++ out)%list,
        0%Z).
Proof.
  assert (Huniq : unique_keys (JDict band_song)).
  { cbn. repeat split;
      repeat (constructor; [cbn; intuition discriminate |]); constructor. }
  split.
  - exact (proj1 metadata_json_round_trip (JDict band_song) Huniq).
  - apply (proj2 metadata_json_round_trip "secret" world_without_page data_json_args
                 "Song" "Band" 5%Z band_song).
    + split; [repeat split; discriminate |].
      exists [mkHit 5 "The Band"]. split; [| split; [reflexivity | discriminate]].
      eexists. repeat split; reflexivity.
    + eexists. repeat split; reflexivity.
    + reflexivity.
    + reflexivity.
    + reflexivity.
    + exact Huniq.
    + exact I.
Defined.

Example metadata_json_run :
  run_script "secret" world_without_page data_json_args
  = ([HttpGet "https://open.spotify.com/oembed?url=https://open.spotify.com/track/1" [];
      HttpGet "https://api.genius.com/search" [("q", "Song Band")];
      HttpGet "https://api.genius.com/songs/5" [];
      StdoutWrite (Json.dumps (JDict band_song) ++ nl)],
     0%Z).
Proof. reflexivity. Qed.

(* ================================================================== *)
(** * Further properties: the token and the link *)
(* ================================================================== *)

(** X1.  With the token left empty or left as the placeholder, the run
    writes the message that asks to set it, ends with status 1, and sends
    no request at all. *)
Theorem unset_token_stops_run (token : string) (w : world) (a : args) :
  token = "" \/ token = TOKEN_PLACEHOLDER ->
  run_script token w a
  = ([StderrWrite ("[ERROR] Please set GENIUS_ACCESS_TOKEN in the script (line 32)."
                     ++ nl)],
     1%Z).
Proof. intros [-> | ->]; reflexivity. Qed.

Lemma unset_token_stops_run_witness :
  run_script TOKEN_PLACEHOLDER world_without_page some_args
  = ([StderrWrite ("[ERROR] Please set GENIUS_ACCESS_TOKEN in the script (line 32)."
                     ++ nl)],
     1%Z).
Proof.
  apply (unset_token_stops_run TOKEN_PLACEHOLDER world_without_page some_args).
  right. reflexivity.
Defined.

Ltac malformed_cases data :=
  destruct data as [| b | z | t | l | d]; cbn;
  try (intros; first [discriminate | eexists; reflexivity]);
  destruct (Py.dict_get "title" d) as [[| [] | z | [| c t] | [| x l] | [| kv d']] |];
  cbn; try (intros; first [discriminate | eexists; reflexivity]);
  destruct (z =? 0)%Z; cbn; intros; first [discriminate | eexists; reflexivity].

(** A malformed answer leaves the extractor as an [AttributeError]. *)
Lemma get_spotify_metadata_malformed (w : world) (url : string) (data : json) :
  answers (spotify_oembed w url) data ->
  malformed data = true ->
  exists msg, fst (_get_spotify_metadata w url) = inr (AttributeError msg).
Proof.
  intros (r & Hr & Hs & Hb). unfold _get_spotify_metadata, requests_get.
  rewrite Hr. cbn [bind emit ret]. rewrite (raise_for_status_ok r Hs).
  unfold payload. rewrite Hb. cbn [bind ret]. unfold malformed.
  malformed_cases data.
Qed.

Lemma get_soundcloud_metadata_malformed (w : world) (url : string) (data : json) :
  answers (soundcloud_oembed w url) data ->
  malformed data = true ->
  exists msg, fst (_get_soundcloud_metadata w url) = inr (AttributeError msg).
Proof.
  intros (r & Hr & Hs & Hb). unfold _get_soundcloud_metadata, requests_get.
  rewrite Hr. cbn [bind emit ret]. rewrite (raise_for_status_ok r Hs).
  unfold payload. rewrite Hb. cbn [bind ret]. unfold malformed.
  malformed_cases data.
Qed.

Ltac attribute_error_cases ans :=
  unfold requests_get;
  destruct ans as [err | r] eqn:Hr; cbn; [discriminate |];
  destruct (raise_for_status_cases r) as [[Hs ->] | [_ [msg' ->]]]; cbn;
  [| discriminate];
  unfold payload; destruct (body r) as [data |] eqn:Hb; cbn; [| discriminate];
  intros H; exists data; split; [exists r; auto |];
  revert H; unfold malformed;
  destruct data as [| b | z | t | l | d]; cbn; try reflexivity;
  destruct (Py.dict_get "title" d) as [[| [] | z | [| c t] | [| x l] | [| kv d']] |];
  cbn; try reflexivity; try discriminate;
  destruct (z =? 0)%Z; cbn; try reflexivity; discriminate.

(** Only a malformed answer does. *)
Lemma get_spotify_metadata_attribute_error (w : world) (url msg : string) :
  fst (_get_spotify_metadata w url) = inr (AttributeError msg) ->
  exists data, answers (spotify_oembed w url) data /\ malformed data = true.
Proof.
  unfold _get_spotify_metadata. attribute_error_cases (spotify_oembed w url).
Qed.

Lemma get_soundcloud_metadata_attribute_error (w : world) (url msg : string) :
  fst (_get_soundcloud_metadata w url) = inr (AttributeError msg) ->
  exists data, answers (soundcloud_oembed w url) data /\ malformed data = true.
Proof.
  unfold _get_soundcloud_metadata. attribute_error_cases (soundcloud_oembed w url).
Qed.

(** X2.  Each extractor sends one request to its oEmbed endpoint and
    writes nothing.  What it raises is a [ValueError], which [main]
    catches, or an [AttributeError], which nothing catches; and it raises
    the [AttributeError] exactly when the service answers with a value
    that is not an object, or with an object whose title is neither falsy
    nor a string. *)
Theorem extractor_exceptions (w : world) (url : string) :
  (snd (_get_spotify_metadata w url)
   = [HttpGet ("https://open.spotify.com/oembed?url=" ++ url) []]
   /\ (forall e, fst (_get_spotify_metadata w url) = inr e ->
                 (exists msg, e = ValueError msg) \/ (exists msg, e = AttributeError msg))
   /\ ((exists msg, fst (_get_spotify_metadata w url) = inr (AttributeError msg))
       <-> exists data, answers (spotify_oembed w url) data /\ malformed data = true))
  /\
  (snd (_get_soundcloud_metadata w url)
   = [HttpGet ("https://soundcloud.com/oembed?format=json&url=" ++ url) []]
   /\ (forall e, fst (_get_soundcloud_metadata w url) = inr e ->
                 (exists msg, e = ValueError msg) \/ (exists msg, e = AttributeError msg))
   /\ ((exists msg, fst (_get_soundcloud_metadata w url) = inr (AttributeError msg))
       <-> exists data, answers (soundcloud_oembed w url) data /\ malformed data = true)).
Proof.
  split.
  - destruct (get_spotify_metadata_shape w url) as [Hlog Hexn].
    split; [exact Hlog |]. split; [exact Hexn |]. split.
    + intros [msg H]. now apply (get_spotify_metadata_attribute_error w url msg).
    + intros (data & Hans & Hbad). now apply (get_spotify_metadata_malformed w url data).
  - destruct (get_soundcloud_metadata_shape w url) as [Hlog Hexn].
    split; [exact Hlog |]. split; [exact Hexn |]. split.
    + intros [msg H]. now apply (get_soundcloud_metadata_attribute_error w url msg).
    + intros (data & Hans & Hbad). now apply (get_soundcloud_metadata_malformed w url data).
Qed.

(** X3.  A request that fails, or an answer with an error status, is
    reported by both extractors as a [ValueError] whose text starts with
    "Invalid or unreachable ... URL: " and goes on with the text of the
    failure. *)
Theorem extractor_unreachable (w : world) (url : string) :
  (forall err, spotify_oembed w url = Unreachable err ->
     fst (_get_spotify_metadata w url)
     = inr (ValueError ("Invalid or unreachable Spotify URL: " ++ err)))
  /\
  (forall r, spotify_oembed w url = Answer r ->
     error_status (status_code r) = true ->
     exists msg,
       raise_for_status r = raise (HTTPError msg) /\
       fst (_get_spotify_metadata w url)
       = inr (ValueError ("Invalid or unreachable Spotify URL: " ++ msg)))
  /\
  (forall err, soundcloud_oembed w url = Unreachable err ->
     fst (_get_soundcloud_metadata w url)
     = inr (ValueError ("Invalid or unreachable SoundCloud URL: " ++ err)))
  /\
  (forall r, soundcloud_oembed w url = Answer r ->
     error_status (status_code r) = true ->
     exists msg,
       raise_for_status r = raise (HTTPError msg) /\
       fst (_get_soundcloud_metadata w url)
       = inr (ValueError ("Invalid or unreachable SoundCloud URL: " ++ msg))).
Proof.
  repeat split.
  - intros err H. unfold _get_spotify_metadata, requests_get. now rewrite H.
  - intros r H He. destruct (status_refused_error r He) as [msg Hm]. exists msg.
    split; [exact Hm |]. unfold _get_spotify_metadata, requests_get.
    rewrite H. cbn [bind emit ret]. now rewrite Hm.
  - intros err H. unfold _get_soundcloud_metadata, requests_get. now rewrite H.
  - intros r H He. destruct (status_refused_error r He) as [msg Hm]. exists msg.
    split; [exact Hm |]. unfold _get_soundcloud_metadata, requests_get.
    rewrite H. cbn [bind emit ret]. now rewrite Hm.
Qed.

Lemma extractor_unreachable_witness :
  fst (_get_spotify_metadata (world_of_oembed (Unreachable "timed out")) "u")
  = inr (ValueError "Invalid or unreachable Spotify URL: timed out")
  /\ exists msg,
       raise_for_status (mkResponse 404 "Not Found" "https://soundcloud.com/oembed"
                                    (@None json))
       = raise (HTTPError msg) /\
       fst (_get_soundcloud_metadata
              (world_of_oembed
                 (Answer (mkResponse 404 "Not Found" "https://soundcloud.com/oembed" None)))
              "u")
       = inr (ValueError ("Invalid or unreachable SoundCloud URL: " ++ msg)).
Proof.
  split.
  - apply (proj1 (extractor_unreachable (world_of_oembed (Unreachable "timed out")) "u")).
    reflexivity.
  - apply (proj2 (proj2 (proj2
             (extractor_unreachable
                (world_of_oembed
                   (Answer (mkResponse 404 "Not Found" "https://soundcloud.com/oembed" None)))
                "u")))); reflexivity.
Defined.

(** X4.  An answer without a title, or with an empty one, makes both
    extractors raise the [ValueError] "title not found". *)
Theorem extractor_title_not_found
        (w : world) (url : string) (d : list (string * json)) :
  Py.dict_get "title" d = None \/ Py.dict_get "title" d = Some (JString "") ->
  (answers (spotify_oembed w url) (JDict d) ->
   fst (_get_spotify_metadata w url)
   = inr (ValueError "Invalid Spotify metadata: title not found."))
  /\
  (answers (soundcloud_oembed w url) (JDict d) ->
   fst (_get_soundcloud_metadata w url)
   = inr (ValueError "Invalid SoundCloud metadata: title not found.")).
Proof.
  intros Ht. split; intros (r & Hr & Hs & Hb).
  - unfold _get_spotify_metadata, requests_get.
    rewrite Hr. cbn [bind emit ret]. rewrite (raise_for_status_ok r Hs).
    unfold payload. rewrite Hb. cbn [bind ret get_title].
    now destruct Ht as [-> | ->].
  - unfold _get_soundcloud_metadata, requests_get.
    rewrite Hr. cbn [bind emit ret]. rewrite (raise_for_status_ok r Hs).
    unfold payload. rewrite Hb. cbn [bind ret get_title].
    now destruct Ht as [-> | ->].
Qed.

Lemma extractor_title_not_found_witness :
  fst (_get_spotify_metadata
         (world_of_oembed (Answer (mkResponse 200 "OK" "https://open.spotify.com/oembed"
                                              (Some (JDict []))))) "u")
  = inr (ValueError "Invalid Spotify metadata: title not found.").
Proof.
  apply (proj1 (extractor_title_not_found
                  (world_of_oembed (Answer (mkResponse 200 "OK" "https://open.spotify.com/oembed"
                                                       (Some (JDict []))))) "u" []
                  (or_introl eq_refl))).
  eexists. repeat split; reflexivity.
Defined.

(** X5.  When the link given on the command line is the empty string,
    the run reports that no valid source was provided, ends with status 1,
    and sends no request. *)
Theorem empty_link_stops_run (token : string) (w : world) (a : args) :
  token_set token ->
  (spotify a = Some "" /\ soundcloud a = None)
  \/ (spotify a = None /\ soundcloud a = Some "") ->
  run_script token w a
  = ([StderrWrite ("[ERROR] " ++ NO_SOURCE ++ nl)], 1%Z).
Proof.
  intros Htok Hlink. unfold run_script, main.
  rewrite (token_check token Htok).
  unfold read_link, link_metadata.
  destruct Hlink as [[-> ->] | [-> ->]]; reflexivity.
Qed.

Lemma empty_link_stops_run_witness :
  run_script "secret" world_without_page (mkArgs (Some "") None false false Text None)
  = ([StderrWrite ("[ERROR] " ++ NO_SOURCE ++ nl)], 1%Z).
Proof.
  apply (empty_link_stops_run "secret" world_without_page
                              (mkArgs (Some "") None false false Text None)).
  - split; discriminate.
  - left. split; reflexivity.
Defined.

(* ================================================================== *)
(** * Further properties: titles and the query *)
(* ================================================================== *)

Lemma strip_empty : PyStr.strip "" = "".
Proof. reflexivity. Qed.

Lemma nth_map_strip (n : nat) (l : list string) :
  PyStr.strip (nth n (map PyStr.strip l) "") = nth n (map PyStr.strip l) "".
Proof.
  pose proof (map_nth PyStr.strip l "" n) as H.
  change (nth n (map PyStr.strip l) "" = PyStr.strip (nth n l "")) in H.
  rewrite H. apply strip_strip.
Qed.

Lemma last_map_strip (l : list string) :
  PyStr.strip (last (map PyStr.strip l) "") = last (map PyStr.strip l) "".
Proof.
  induction l as [|x l IH]; [reflexivity |].
  destruct l as [|y l]; [apply strip_strip | exact IH].
Qed.

Lemma split_two_parts (sep s : string) :
  sep <> "" -> is_substring sep s -> 2 <= List.length (PyStr.split sep s).
Proof.
  intros Hsep Hsub. pose proof (split_length sep s) as Hlen.
  destruct (Nat.eq_dec (List.length (PyStr.split sep s)) 1) as [E | E]; [| lia].
  apply (split_single sep s Hsep) in E. contradiction.
Qed.

(** X6.  On a title with exactly two parts the two services read the
    same pair the other way round: what Spotify takes as track SoundCloud
    takes as artist, and conversely. *)
Theorem two_part_title_swapped (title : string) :
  List.length (PyStr.split " - " title) = 2 ->
  soundcloud_title_parts title
  = (snd (spotify_title_parts title), fst (spotify_title_parts title)).
Proof.
  unfold soundcloud_title_parts, spotify_title_parts. intros H.
  rewrite length_map, H. cbn [Nat.leb fst snd].
  destruct (PyStr.split " - " title) as [|x [|y [|z l]]]; try discriminate.
  reflexivity.
Qed.

Lemma two_part_title_swapped_witness :
  soundcloud_title_parts "Daft Punk - One More Time"
  = (snd (spotify_title_parts "Daft Punk - One More Time"),
     fst (spotify_title_parts "Daft Punk - One More Time")).
Proof. apply (two_part_title_swapped "Daft Punk - One More Time"). reflexivity. Defined.

(** X7.  When the Spotify title holds the separator, the track and the
    artist returned are trimmed: trimming them again changes nothing. *)
Theorem spotify_parts_trimmed (title : string) :
  is_substring " - " title ->
  PyStr.strip (fst (spotify_title_parts title)) = fst (spotify_title_parts title) /\
  PyStr.strip (snd (spotify_title_parts title)) = snd (spotify_title_parts title).
Proof.
  intros Hsub. unfold spotify_title_parts.
  assert (Hlen : 2 <= List.length (map PyStr.strip (PyStr.split " - " title))).
  { rewrite length_map. apply split_two_parts; [discriminate | exact Hsub]. }
  apply Nat.leb_le in Hlen. rewrite Hlen. cbn [fst snd].
  split; [apply nth_map_strip | apply last_map_strip].
Qed.

Lemma spotify_parts_trimmed_witness :
  PyStr.strip (fst (spotify_title_parts "  Song  -  Band  "))
  = fst (spotify_title_parts "  Song  -  Band  ")
  /\ PyStr.strip (snd (spotify_title_parts "  Song  -  Band  "))
     = snd (spotify_title_parts "  Song  -  Band  ").
Proof.
  apply (spotify_parts_trimmed "  Song  -  Band  ").
  apply contains_spec. reflexivity.
Defined.

Lemma rstrip_app_space (s : string) : PyStr.rstrip (s ++ " ") = PyStr.rstrip s.
Proof.
  induction s as [|c s IH]; [reflexivity |].
  cbn [append PyStr.rstrip]. now rewrite IH.
Qed.

Lemma strip_app_space (s : string) : PyStr.strip (s ++ " ") = PyStr.strip s.
Proof.
  unfold PyStr.strip. induction s as [|c s IH]; [reflexivity |].
  cbn [append PyStr.lstrip]. destruct (PyStr.isspace c); [exact IH |].
  apply (rstrip_app_space (String c s)).
Qed.

(** X8.  The search query has no white space at either end, and with
    an empty artist it is the trimmed track. *)
Theorem search_query_trimmed (track artist : string) :
  PyStr.lstrip (search_query track artist) = search_query track artist /\
  PyStr.rstrip (search_query track artist) = search_query track artist /\
  search_query track "" = PyStr.strip track.
Proof.
  unfold search_query. split; [| split].
  - apply strip_trimmed.
  - apply strip_trimmed.
  - apply strip_app_space.
Qed.

(* ================================================================== *)
(** * Further properties: the catalog *)
(* ================================================================== *)

Lemma first_artist_match_member (a : string) (hits : list hit) (i : Z) :
  first_artist_match a hits = Some i ->
  exists h, In h hits /\ hit_id h = i /\ artist_matches a h = true.
Proof.
  induction hits as [|x hits IH]; cbn; [discriminate |].
  destruct (artist_matches a x) eqn:E.
  - intros [= <-]. exists x. auto.
  - intros H. destruct (IH H) as (h & Hin & Hid & Hm). exists h. auto.
Qed.

(** X9.  The identifier the catalog matcher returns is the identifier
    of one of the hits it was given; and with an empty artist it is the
    first hit's, whatever the artists of the hits are. *)
Theorem search_genius_returns_a_hit
        (w : world) (track artist token : string) (hits : list hit) :
  answers (genius_search w token (search_query track artist)) hits ->
  (forall i, fst (_search_genius w track artist token) = inl (Some i) ->
             exists h, In h hits /\ hit_id h = i)
  /\
  (artist = "" ->
   fst (_search_genius w track artist token) = inl (option_map hit_id (hd_error hits))).
Proof.
  intros Hans. rewrite (search_genius_answers _ _ _ _ _ Hans). cbn [fst]. split.
  - intros i [= H]. unfold choose_hit in H.
    destruct (first_artist_match (PyStr.lower artist) hits) as [j |] eqn:E.
    + injection H as ->. destruct (first_artist_match_member _ _ _ E) as (h & Hin & Hid & _).
      exists h. auto.
    + destruct hits as [|h hits]; [discriminate |]. injection H as <-.
      exists h. split; [now left | reflexivity].
  - intros ->. f_equal. unfold choose_hit.
    replace (first_artist_match (PyStr.lower "") hits) with (@None Z); [now destruct hits |].
    symmetry. apply first_artist_match_none. reflexivity.
Qed.

Lemma search_genius_returns_a_hit_witness :
  fst (_search_genius (world_of_hits [drake; the_weeknd]) "One Dance" "" "secret")
  = inl (Some 202%Z).
Proof.
  refine (proj2 (search_genius_returns_a_hit
                   (world_of_hits [drake; the_weeknd]) "One Dance" "" "secret"
                   [drake; the_weeknd] _) eq_refl).
  eexists. repeat split; reflexivity.
Defined.

Lemma search_genius_unreachable (w : world) (track artist token err : string) :
  genius_search w token (search_query track artist) = Unreachable err ->
  _search_genius w track artist token
  = (inr (RequestException err), [search_request track artist]).
Proof. intros H. unfold _search_genius, requests_get. now rewrite H. Qed.

Lemma search_genius_unreadable (w : world) (track artist token : string)
      (r : response (list hit)) :
  genius_search w token (search_query track artist) = Answer r ->
  error_status (status_code r) = false ->
  body r = None ->
  _search_genius w track artist token
  = (inr (KeyError "response"), [search_request track artist]).
Proof.
  intros Hr Hs Hb. unfold _search_genius, requests_get. rewrite Hr.
  cbn [bind emit ret]. rewrite (raise_for_status_ok r Hs).
  unfold payload. now rewrite Hb.
Qed.

(** X10.  A search that gets no answer, or an answer whose body is not
    of the expected shape, is caught nowhere: the run ends with status 1
    after the interpreter's traceback, without a message carrying the
    [[ERROR]] label and without a request to the song endpoint. *)
Theorem search_failure_uncaught
        (token : string) (w : world) (a : args) (track artist : string) :
  reaches_search token w a track artist ->
  (forall err,
      genius_search w token (search_query track artist) = Unreachable err ->
      run_script token w a
      = ((snd (link_metadata w a)
          ++ [search_request track artist;
              StderrWrite (traceback (RequestException err))])%list,
         1%Z))
  /\
  (forall r,
      genius_search w token (search_query track artist) = Answer r ->
      error_status (status_code r) = false ->
      body r = None ->
      run_script token w a
      = ((snd (link_metadata w a)
          ++ [search_request track artist;
              StderrWrite (traceback (KeyError "response"))])%list,
         1%Z))
  /\
  (forall r,
      genius_search w token (search_query track artist) = Unreachable r
      \/ (exists x, genius_search w token (search_query track artist) = Answer x
                    /\ error_status (status_code x) = false /\ body x = None) ->
      existsb error_message (fst (run_script token w a)) = false /\
      existsb song_fetch (fst (run_script token w a)) = false).
Proof.
  intros Hreach.
  assert (H1 : forall err,
             genius_search w token (search_query track artist) = Unreachable err ->
             run_script token w a
             = ((snd (link_metadata w a)
                 ++ [search_request track artist;
                     StderrWrite (traceback (RequestException err))])%list, 1%Z)).
  { intros err H. unfold run_script.
    rewrite (main_reaches_search _ _ _ _ _ Hreach).
    rewrite (search_genius_unreachable _ _ _ _ _ H). cbn.
    now rewrite <- List.app_assoc. }
  assert (H2 : forall r,
             genius_search w token (search_query track artist) = Answer r ->
             error_status (status_code r) = false ->
             body r = None ->
             run_script token w a
             = ((snd (link_metadata w a)
                 ++ [search_request track artist;
                     StderrWrite (traceback (KeyError "response"))])%list, 1%Z)).
  { intros r H Hs Hb. unfold run_script.
    rewrite (main_reaches_search _ _ _ _ _ Hreach).
    rewrite (search_genius_unreadable _ _ _ _ _ H Hs Hb). cbn.
    now rewrite <- List.app_assoc. }
  split; [exact H1 |]. split; [exact H2 |].
  intros r [H | (x & H & Hs & Hb)].
  - rewrite (H1 r H). cbn [fst]. rewrite !existsb_app.
    rewrite (requests_not_labelled _ (link_metadata_events w a)).
    now rewrite link_metadata_no_fetch.
  - rewrite (H2 x H Hs Hb). cbn [fst]. rewrite !existsb_app.
    rewrite (requests_not_labelled _ (link_metadata_events w a)).
    now rewrite link_metadata_no_fetch.
Qed.

Lemma search_failure_uncaught_witness :
  run_script "secret" world_without_catalog some_args
  = ((snd (link_metadata world_without_catalog some_args)
      ++ [search_request "Song" "Band";
          StderrWrite (traceback (RequestException "Connection refused"))])%list,
     1%Z).
Proof.
  apply (proj1 (search_failure_uncaught "secret" world_without_catalog some_args
                                        "Song" "Band" ltac:(repeat split; discriminate))).
  reflexivity.
Defined.

(* ================================================================== *)
(** * Further properties: the lyrics *)
(* ================================================================== *)

Lemma lstrip_app_clean (x t : string) :
  x <> "" -> PyStr.lstrip x = x -> PyStr.lstrip (x ++ t) = x ++ t.
Proof.
  destruct x as [|c x]; [congruence |]. intros _. cbn.
  destruct (PyStr.isspace c) eqn:E; [| reflexivity].
  intros H. exfalso.
  assert (Hlen : forall s, String.length (PyStr.lstrip s) <= String.length s).
  { clear. induction s as [|d s IH]; cbn; [lia |].
    destruct (PyStr.isspace d); cbn; lia. }
  specialize (Hlen x). rewrite H in Hlen. cbn in Hlen. lia.
Qed.

Lemma rstrip_app_clean (t x : string) :
  x <> "" -> PyStr.rstrip x = x -> PyStr.rstrip (t ++ x) = t ++ x.
Proof.
  intros Hne Hx. induction t as [|c t IH]; [exact Hx |].
  cbn [append PyStr.rstrip]. rewrite IH.
  destruct (t ++ x) eqn:E; [| reflexivity].
  destruct t; cbn in E; congruence.
Qed.

Lemma strip_fixed_iff (x : string) :
  PyStr.strip x = x <-> PyStr.lstrip x = x /\ PyStr.rstrip x = x.
Proof.
  split.
  - intros H. rewrite <- H. apply strip_trimmed.
  - intros [Hl Hr]. unfold PyStr.strip. now rewrite Hl.
Qed.

Lemma join_clean_lines (l : list string) :
  Forall clean_line l -> PyStr.strip (PyStr.join nl l) = PyStr.join nl l.
Proof.
  intros H. apply strip_fixed_iff.
  induction H as [|x l [Hne Hx] Hl [IHl IHr]]; [split; reflexivity |].
  apply strip_fixed_iff in Hx as [Hxl Hxr].
  destruct l as [|y l]; [cbn; auto |].
  change (PyStr.join nl (x :: y :: l)) with (x ++ nl ++ PyStr.join nl (y :: l)).
  split.
  - now apply lstrip_app_clean.
  - rewrite <- append_assoc.
    inversion Hl as [| ? ? [Hyne Hy] Hl']; subst.
    apply rstrip_app_clean; [| exact IHr].
    destruct l as [|z l]; [exact Hyne |].
    change (PyStr.join nl (y :: z :: l)) with (y ++ nl ++ PyStr.join nl (z :: l)).
    destruct y; [congruence | discriminate].
Qed.

Lemma scrape_container_clean (h : Soup.heap) (lines : list string) (c : nat) :
  Forall clean_line lines ->
  Forall clean_line (snd (scrape_container (h, lines) c)).
Proof.
  intros H. unfold scrape_container.
  destruct (Soup.deref c h); [| exact H].
  destruct (Soup.deref c (fold_left Soup.extract _ h)) as [c' |]; [| exact H].
  cbn [snd]. destruct (PyStr.truthy (PyStr.strip (Soup.get_text nl c'))) eqn:E;
    [| exact H].
  unfold list_append. apply Forall_app. split; [exact H |].
  constructor; [| constructor]. split.
  - now apply truthy_true.
  - apply strip_strip.
Qed.

Lemma scrape_loop_clean (cs : list nat) (acc : Soup.heap * list string) :
  Forall clean_line (snd acc) ->
  Forall clean_line (snd (fold_left scrape_container cs acc)).
Proof.
  revert acc. induction cs as [|c cs IH]; intros [h lines] H; [exact H |].
  cbn [fold_left]. apply IH.
  destruct (scrape_container (h, lines) c) as [h' lines'] eqn:E.
  pose proof (scrape_container_clean h lines c H) as Hc. now rewrite E in Hc.
Qed.

(** X11.  The lyrics the scraper returns are trimmed as a whole: they
    are empty, or they start and end with a character that is not white
    space.  (Every text it keeps is a trimmed, non-empty text.) *)
Theorem scrape_soup_trimmed (soup : node) :
  PyStr.strip (scrape_soup soup) = scrape_soup soup.
Proof.
  unfold scrape_soup.
  pose proof (scrape_loop_clean (Soup.find_all Soup.is_lyrics_container soup)
                                ([soup], []) (Forall_nil _)) as H.
  destruct (fold_left scrape_container _ _) as [h lines]. cbn [snd] in H.
  now apply join_clean_lines.
Qed.

Lemma uids_filter_none (p : node -> bool) (l : list node) :
  (forall n, In n l -> p n = false) -> Soup.uids (filter p l) = [].
Proof.
  induction l as [|x l IH]; intros H; [reflexivity |]. cbn [filter].
  rewrite (H x (or_introl eq_refl)). apply IH. intros n Hn. apply H. now right.
Qed.

(** X12.  A page in which no element is a lyrics container gives the
    empty string, whatever else it holds. *)
Theorem scrape_soup_without_container (soup : node) :
  (forall n, In n (Soup.descendants soup) -> Soup.is_lyrics_container n = false) ->
  scrape_soup soup = "".
Proof.
  intros H. unfold scrape_soup, Soup.find_all.
  now rewrite (uids_filter_none _ _ H).
Qed.

Lemma scrape_soup_without_container_witness :
  scrape_soup page_without_lyrics = "".
Proof.
  apply (scrape_soup_without_container page_without_lyrics).
  cbn. intros n H. repeat (destruct H as [<- | H]; [reflexivity |]). destruct H.
Defined.

(** X13.  When lyrics are wanted and the song record has no [url], no
    request for a page is sent: the lookup fails with a [KeyError], which is
    caught, and the warning names the key. *)
Theorem read_lyrics_without_url (w : world) (a : args) (song : song_record) :
  lyrics a || negb (data a) = true ->
  Py.dict_get "url" song = None ->
  read_lyrics w a song
  = (inl "", [StderrWrite ("[WARNING] Lyrics scraping failed: 'url'" ++ nl)]).
Proof.
  intros Hneed Hurl. apply (read_lyrics_failure w a song (KeyError "url") [] Hneed).
  unfold fetch_lyrics. cbn [Py.subscript]. now rewrite Hurl.
Qed.

Lemma read_lyrics_without_url_witness :
  read_lyrics world_without_page some_args [("title", JString "Song")]
  = (inl "", [StderrWrite ("[WARNING] Lyrics scraping failed: 'url'" ++ nl)]).
Proof.
  apply (read_lyrics_without_url world_without_page some_args [("title", JString "Song")]);
    reflexivity.
Defined.

(* ================================================================== *)
(** * Further properties: how a run ends *)
(* ================================================================== *)

Lemma silent_app (l l' : list event) :
  silent (l ++ l') = silent l && silent l'.
Proof. unfold silent. apply forallb_app. Qed.

Lemma requests_silent (log : list event) :
  forallb is_request log = true -> silent log = true.
Proof.
  unfold silent. induction log as [|e log IH]; cbn; [reflexivity |].
  intros H. apply andb_true_iff in H as [He Hl].
  destruct e; try discriminate. cbn. auto.
Qed.


Lemma settled_bind (a : args) {A B : Type} (m : M A) (k : A -> M B) :
  discreet m -> (forall x, settled a (k x)) -> settled a (bind m k).
Proof.
  unfold discreet, settled, bind. intros [Hs Hc] Hk.
  destruct m as [[x | e] l]; cbn [fst snd] in *.
  - specialize (Hk x). destruct (k x) as [[y | e] l']; cbn [fst snd] in *.
    + destruct Hk as (before & out & -> & Hb & Hd).
      exists (l ++ before)%list, out. rewrite silent_app, Hs, Hb.
      now rewrite List.app_assoc.
    + exact Hk.
  - intros c ->. now apply Hc.
Qed.

Lemma discreet_read_link (w : world) (a : args) : discreet (read_link w a).
Proof.
  pose proof (requests_silent _ (link_metadata_events w a)) as Hs.
  destruct (fst (link_metadata w a)) as [q | e] eqn:E.
  - rewrite (read_link_value w a q E). split; [exact Hs | discriminate].
  - destruct (link_metadata_raises w a e E) as [[msg ->] | [msg ->]].
    + rewrite (read_link_raises w a msg E). split.
      * cbn [snd]. rewrite silent_app, Hs. reflexivity.
      * now intros c [= <-].
    + rewrite (read_link_escapes w a msg E). split; [exact Hs | discriminate].
Qed.

Lemma discreet_search_genius (w : world) (track artist token : string) :
  discreet (_search_genius w track artist token).
Proof.
  unfold _search_genius, requests_get.
  destruct (genius_search w token (search_query track artist)) as [err | r];
    cbn [bind emit ret raise]; [split; [reflexivity | discriminate] |].
  destruct (raise_for_status_cases r) as [[_ ->] | [_ [msg ->]]].
  - unfold payload. destruct (body r); cbn; split; try reflexivity; discriminate.
  - cbn. destruct (status_code r =? 401)%Z; cbn; split; try reflexivity;
      try discriminate. now intros c [= <-].
Qed.

Lemma discreet_get_genius_song (w : world) (song_id : Z) (token : string) :
  discreet (_get_genius_song w song_id token).
Proof.
  unfold _get_genius_song, requests_get.
  destruct (genius_song w token song_id) as [err | r];
    cbn [bind emit ret raise]; [split; [reflexivity | discriminate] |].
  destruct (raise_for_status_cases r) as [[_ ->] | [_ [msg ->]]].
  - unfold payload. destruct (body r); cbn; split; try reflexivity; discriminate.
  - cbn. destruct (status_code r =? 401)%Z; cbn; split; try reflexivity;
      try discriminate. now intros c [= <-].
Qed.

Lemma scrape_genius_lyrics_log (w : world) (url : string) :
  snd (_scrape_genius_lyrics w url) = [HttpGet url []].
Proof.
  unfold _scrape_genius_lyrics, requests_get.
  destruct (genius_page w url) as [err | r]; cbn; [reflexivity |].
  destruct (raise_for_status_cases r) as [[_ ->] | [_ [msg ->]]]; cbn;
    [| reflexivity].
  unfold payload. now destruct (body r).
Qed.

Lemma fetch_lyrics_silent (w : world) (song : song_record) :
  silent (snd (fetch_lyrics w song)) = true.
Proof.
  unfold fetch_lyrics, Py.subscript.
  destruct (Py.dict_get "url" song) as [[| | | url | |] |]; try reflexivity.
  now rewrite scrape_genius_lyrics_log.
Qed.

(** Reading the lyrics never raises: it returns the lyrics, or the
    empty string after a warning. *)
Lemma read_lyrics_returns (w : world) (a : args) (song : song_record) :
  exists text, fst (read_lyrics w a song) = inl text.
Proof.
  unfold read_lyrics. destruct (lyrics a || negb (data a)); [| now exists ""].
  pose proof (fetch_lyrics_exception w song) as Hexc.
  unfold try_except. destruct (fetch_lyrics w song) as [[t | e] l]; [now exists t |].
  cbn [select_clause]. rewrite (Hexc e eq_refl). now exists "".
Qed.

Lemma discreet_read_lyrics (w : world) (a : args) (song : song_record) :
  discreet (read_lyrics w a song).
Proof.
  split.
  - unfold read_lyrics. destruct (lyrics a || negb (data a)); [| reflexivity].
    pose proof (fetch_lyrics_exception w song) as Hexc.
    pose proof (fetch_lyrics_silent w song) as Hs.
    unfold try_except. destruct (fetch_lyrics w song) as [[t | e] l]; [exact Hs |].
    cbn [select_clause]. rewrite (Hexc e eq_refl).
    cbn [fst snd bind emit ret stderr_write] in *.
    rewrite silent_app, Hs. reflexivity.
  - intros c H. destruct (read_lyrics_returns w a song) as [t Ht]. congruence.
Qed.

Lemma subscript_exception (v : json) (k : string) (e : exn) :
  Py.subscript v k = inr e -> is_Exception e = true.
Proof.
  destruct v; cbn; try (now intros [= <-]).
  destruct (Py.dict_get k pairs); [discriminate | now intros [= <-]].
Qed.

(** Printing the metadata logs nothing, and what it raises is the
    exception of a failed subscript. *)
Lemma print_metadata_shape (song : song_record) :
  snd (_print_metadata song) = [] /\
  forall e, fst (_print_metadata song) = inr e -> is_Exception e = true.
Proof.
  unfold _print_metadata.
  destruct (Py.subscript (JDict song) "primary_artist") as [pa | e1] eqn:E1;
    [| split; [reflexivity | intros e [= <-]; eapply subscript_exception; eauto]].
  destruct (Py.subscript pa "name") as [name | e2] eqn:E2;
    [| split; [reflexivity | intros e [= <-]; eapply subscript_exception; eauto]].
  destruct (Py.truthy_get "album" song).
  - destruct (Py.subscript (JDict song) "album") as [al | e3] eqn:E3;
      [| split; [reflexivity | intros e [= <-]; eapply subscript_exception; eauto]].
    destruct (Py.subscript al "name") as [an | e4] eqn:E4;
      [| split; [reflexivity | intros e [= <-]; eapply subscript_exception; eauto]].
    destruct (Py.truthy_get "release_date" song).
    + destruct (Py.subscript (JDict song) "release_date") as [rd | e5] eqn:E5;
        [split; [reflexivity | discriminate]
        | split; [reflexivity | intros e [= <-]; eapply subscript_exception; eauto]].
    + split; [reflexivity | discriminate].
  - destruct (Py.truthy_get "release_date" song).
    + destruct (Py.subscript (JDict song) "release_date") as [rd | e5] eqn:E5;
        [split; [reflexivity | discriminate]
        | split; [reflexivity | intros e [= <-]; eapply subscript_exception; eauto]].
    + split; [reflexivity | discriminate].
Qed.

Lemma discreet_compose (a : args) (song : song_record) (text : string) :
  discreet (compose a song text).
Proof.
  destruct (print_metadata_shape song) as [Hlog Hexc].
  unfold compose.
  destruct (output a), (lyrics a), (data a);
    try (split; [reflexivity | discriminate]).
  - split; [now rewrite Hlog |].
    intros c H. specialize (Hexc _ H). discriminate.
  - destruct (_print_metadata song) as [[m | e] l] eqn:E; cbn in *; subst l.
    + split; [reflexivity | discriminate].
    + split; [reflexivity |]. intros c [= ->]. specialize (Hexc _ eq_refl). discriminate.
Qed.

Lemma settled_deliver (w : world) (a : args) (title : json) (text : string) :
  settled a (deliver w a title text).
Proof.
  unfold settled, deliver, delivery. destruct (file a) as [folder |].
  - unfold _write_to_file.
    destruct (makedirs_error w folder); cbn; [discriminate |].
    destruct title as [| | | t | |]; cbn; try discriminate.
    destruct (open_error w _); cbn; [discriminate |].
    exists [], [MakeDirs folder;
                FileWrite (path_join folder
                             (_sanitize_filename t ++ "." ++
                              match output a with Json_format => "json" | Text => "txt" end))
                          text;
                StdoutWrite ((nl ++ "[FICHIER SAUV" ++ String E_ACUTE "] "
                              ++ path_join folder
                                   (_sanitize_filename t ++ "." ++
                                    match output a with Json_format => "json" | Text => "txt" end))
                             ++ nl)].
    repeat split. eauto.
  - cbn. exists [], [StdoutWrite (text ++ nl)]. repeat split. eauto.
Qed.

Lemma settled_exit (a : args) (message : string) :
  settled a (stderr_write message ;;; @sys_exit unit 1).
Proof. unfold settled. cbn. now intros c [= <-]. Qed.

(** However [main] goes, it ends settled. *)
Lemma main_settled (token : string) (w : world) (a : args) :
  settled a (main token w a).
Proof.
  unfold main.
  destruct (negb (PyStr.truthy token) || String.eqb token TOKEN_PLACEHOLDER);
    [apply settled_exit |].
  apply settled_bind; [apply discreet_read_link |]. intros [track artist].
  destruct (negb (PyStr.truthy track)); [apply settled_exit |].
  apply settled_bind; [apply discreet_search_genius |]. intros song_id.
  destruct (no_song_id song_id); [apply settled_exit |].
  apply settled_bind; [apply discreet_get_genius_song |]. intros song.
  apply settled_bind; [apply discreet_read_lyrics |]. intros lyrics_text.
  apply settled_bind; [apply discreet_compose |]. intros text.
  apply settled_deliver.
Qed.

Lemma run_outcome (token : string) (w : world) (a : args) :
  (snd (run_script token w a) = 0%Z /\
   exists before out,
     fst (run_script token w a) = (before ++ out)%list /\
     silent before = true /\ delivery a out)
  \/ snd (run_script token w a) = 1%Z.
Proof.
  pose proof (main_settled token w a) as H. unfold settled in H.
  unfold run_script. destruct (main token w a) as [[u | e] l]; cbn [fst snd] in *.
  - left. split; [reflexivity | exact H].
  - right. destruct e; try reflexivity. now apply H.
Qed.

(** X14.  Whatever the services answer and whatever is asked for, the
    process ends with status 0 or with status 1. *)
Theorem run_exit_status (token : string) (w : world) (a : args) :
  snd (run_script token w a) = 0%Z \/ snd (run_script token w a) = 1%Z.
Proof. destruct (run_outcome token w a) as [[H _] | H]; auto. Qed.








Lemma link_metadata_no_genius (w : world) (a : args) :
  existsb genius_request (snd (link_metadata w a)) = false.
Proof.
  unfold link_metadata.
  destruct (given (spotify a)).
  { now rewrite (proj1 (get_spotify_metadata_shape w _)). }
  destruct (given (soundcloud a)).
  { now rewrite (proj1 (get_soundcloud_metadata_shape w _)). }
  reflexivity.
Qed.

(** X17.  A request goes to the Genius API only when the token is set
    and the link gave a track name that is not empty. *)
Theorem catalog_request_needs_track (token : string) (w : world) (a : args) :
  existsb genius_request (fst (run_script token w a)) = true ->
  token_set token /\
  exists track artist,
    fst (link_metadata w a) = inl (track, artist) /\ track <> "".
Proof.
  unfold run_script, main.
  destruct (negb (PyStr.truthy token) || String.eqb token TOKEN_PLACEHOLDER) eqn:Etok;
    [cbn; discriminate |].
  apply orb_false_iff in Etok as [Hne Hph].
  assert (Htok : token_set token).
  { split; [now destruct token | now apply String.eqb_neq]. }
  pose proof (link_metadata_no_genius w a) as Hlink.
  destruct (fst (link_metadata w a)) as [[track artist] | e] eqn:El.
  - destruct track as [| c track].
    + rewrite (read_link_value w a _ El). cbn [bind PyStr.truthy negb].
      cbn [stderr_write sys_exit emit raise bind fst snd].
      rewrite existsb_app, Hlink. cbn. discriminate.
    + intros _. split; [exact Htok |]. exists (String c track), artist.
      split; [reflexivity | discriminate].
  - destruct (link_metadata_raises w a e El) as [[msg ->] | [msg ->]].
    + rewrite (read_link_raises w a msg El). cbn [bind fst snd].
      rewrite existsb_app, Hlink. cbn. discriminate.
    + rewrite (read_link_escapes w a msg El). cbn [bind fst snd].
      rewrite existsb_app, Hlink. cbn. discriminate.
Qed.

Lemma catalog_request_needs_track_witness :
  token_set "secret" /\
  exists track artist,
    fst (link_metadata world_without_page some_args) = inl (track, artist) /\ track <> "".
Proof.
  apply (catalog_request_needs_track "secret" world_without_page some_args).
  reflexivity.
Defined.

Lemma bind_ext {A B : Type} (m : M A) (k k' : A -> M B) :
  (forall x, k x = k' x) -> bind m k = bind m k'.
Proof. intros H. unfold bind. destruct m as [[x | e] l]; [now rewrite H | reflexivity]. Qed.

(** X18.  In metadata-only mode the lyrics page plays no part: the run is
    the same whatever the page would have answered. *)
Theorem metadata_only_ignores_page
        (token : string) (w : world) (a : args) (page : string -> reply node) :
  lyrics a = false -> data a = true ->
  run_script token (with_page w page) a = run_script token w a.
Proof.
  intros Hl Hd. unfold run_script.
  replace (main token (with_page w page) a) with (main token w a); [reflexivity |].
  unfold main.
  destruct (negb (PyStr.truthy token) || String.eqb token TOKEN_PLACEHOLDER);
    [reflexivity |].
  change (read_link (with_page w page) a) with (read_link w a).
  apply bind_ext. intros [track artist].
  destruct (negb (PyStr.truthy track)); [reflexivity |].
  change (_search_genius (with_page w page) track artist token)
    with (_search_genius w track artist token).
  apply bind_ext. intros song_id.
  destruct (no_song_id song_id); [reflexivity |].
  apply bind_ext. intros song.
  rewrite !(read_lyrics_not_needed _ a song Hl Hd). reflexivity.
Qed.

Lemma metadata_only_ignores_page_witness :
  run_script "secret"
             (with_page world_without_page
                        (fun u => Answer (mkResponse 200 "OK" u (Some sample_page))))
             data_json_args
  = run_script "secret" world_without_page data_json_args.
Proof.
  apply (metadata_only_ignores_page "secret" world_without_page data_json_args);
    reflexivity.
Defined.

(* ================================================================== *)
(** * Further properties: the output *)
(* ================================================================== *)

Lemma print_metadata_without_artist (song : song_record) :
  Py.dict_get "primary_artist" song = None ->
  _print_metadata song = (inr (KeyError "primary_artist"), []).
Proof. intros H. unfold _print_metadata. cbn [Py.subscript]. now rewrite H. Qed.

(** X19.  In text mode with the metadata wanted, a song record without a
    [primary_artist] ends the run with an uncaught [KeyError]: a
    traceback on the error stream, status 1, and nothing handed over,
    although the song was found and fetched. *)
Theorem record_without_artist_crashes_text_run
        (token : string) (w : world) (a : args) (track artist : string)
        (song_id : Z) (song : song_record) :
  reaches_fetch token w a track artist song_id ->
  answers (genius_song w token song_id) song ->
  output a = Text -> lyrics a = false ->
  Py.dict_get "primary_artist" song = None ->
  exists log,
    run_script token w a
    = ((log ++ [StderrWrite (traceback (KeyError "primary_artist"))])%list, 1%Z)
    /\ silent log = true.
Proof.
  intros Hreach Hsong Hout Hl Hart.
  pose proof (print_metadata_without_artist song Hart) as Hprint.
  assert (Hc : forall t, compose a song t = (inr (KeyError "primary_artist"), [])).
  { intros t. unfold compose. rewrite Hout, Hl, Hprint. now destruct (data a). }
  destruct (read_lyrics_returns w a song) as [t Ht].
  pose proof (proj1 (discreet_read_lyrics w a song)) as Hsl.
  destruct (read_lyrics w a song) as [r l] eqn:Er. cbn [fst snd] in *. subst r.
  exists ((snd (link_metadata w a) ++ [search_request track artist; song_request song_id])
          ++ l)%list.
  split.
  - unfold run_script. rewrite (main_reaches_fetch _ _ _ _ _ _ Hreach).
    rewrite (get_genius_song_answers _ _ _ _ Hsong).
    repeat (rewrite bind_value; cbv beta zeta). rewrite Er.
    repeat (rewrite bind_value; cbv beta zeta). rewrite Hc.
    cbn [bind fst snd]. f_equal.
    cbn [List.app]. rewrite !List.app_nil_r, <- !List.app_assoc. reflexivity.
  - rewrite !silent_app, Hsl.
    rewrite (requests_silent _ (link_metadata_events w a)). reflexivity.
Qed.

Lemma record_without_artist_crashes_text_run_witness :
  exists log,
    run_script "secret" (world_of_song anonymous_song) data_text_args
    = ((log ++ [StderrWrite (traceback (KeyError "primary_artist"))])%list, 1%Z)
    /\ silent log = true.
Proof.
  apply (record_without_artist_crashes_text_run
           "secret" (world_of_song anonymous_song) data_text_args
           "Song" "Band" 5%Z anonymous_song).
  - split; [repeat split; discriminate |].
    exists [mkHit 5 "The Band"]. split; [| split; [reflexivity | discriminate]].
    eexists. repeat split; reflexivity.
  - eexists. repeat split; reflexivity.
  - reflexivity.
  - reflexivity.
  - reflexivity.
Defined.

(** X20.  Once the song record is fetched, nothing fails before the
    output is handed over when the output is JSON or only the lyrics:
    the script reaches line 286 with the title and a text, even for a
    record without the fields the text form needs, and whatever becomes of
    the lyrics page.  Only the delivery itself can still fail. *)
Theorem output_composed_without_error
        (token : string) (w : world) (a : args) (track artist : string)
        (song_id : Z) (song : song_record) :
  reaches_fetch token w a track artist song_id ->
  answers (genius_song w token song_id) song ->
  lyrics a = true \/ output a = Json_format ->
  exists text, fst (prepare token w a) = inl (song_title song, text).
Proof.
  intros Hreach Hsong Hmode.
  destruct (read_lyrics_returns w a song) as [t Ht].
  destruct (read_lyrics w a song) as [r l] eqn:Er. cbn [fst] in Ht. subst r.
  assert (Hc : exists text, compose a song t = (inl text, [])).
  { unfold compose. destruct Hmode as [Hl | Hout].
    - rewrite Hl. destruct (output a); eexists; reflexivity.
    - rewrite Hout. destruct (lyrics a), (data a); eexists; reflexivity. }
  destruct Hc as [text Hc]. exists text.
  destruct Hreach as ((Htok & Hlink & Htrack) & hits & Hans & Hid & Hnz).
  unfold prepare. rewrite (token_check token Htok).
  rewrite (read_link_value w a _ Hlink).
  rewrite bind_value. cbv beta zeta. cbn [fst].
  replace (negb (PyStr.truthy track)) with false by (now destruct track).
  rewrite (search_genius_answers _ _ _ _ _ Hans).
  rewrite bind_value. cbv beta zeta. cbn [fst].
  rewrite Hid. cbn [no_song_id]. apply Z.eqb_neq in Hnz. rewrite Hnz.
  rewrite (get_genius_song_answers _ _ _ _ Hsong).
  rewrite bind_value. cbv beta zeta. cbn [fst].
  rewrite Er. rewrite bind_value. cbv beta zeta. cbn [fst].
  rewrite Hc. reflexivity.
Qed.

Lemma output_composed_without_error_witness :
  exists text,
    fst (prepare "secret" (world_of_song anonymous_song) lyrics_json_args)
    = inl (song_title anonymous_song, text).
Proof.
  apply (output_composed_without_error
           "secret" (world_of_song anonymous_song) lyrics_json_args
           "Song" "Band" 5%Z anonymous_song).
  - split; [repeat split; discriminate |].
    exists [mkHit 5 "The Band"]. split; [| split; [reflexivity | discriminate]].
    eexists. repeat split; reflexivity.
  - eexists. repeat split; reflexivity.
  - left. reflexivity.
Defined.

Lemma filename_char_not_slash (c : ascii) :
  filename_char c = true -> Ascii.eqb c "/" = false.
Proof.
  intros H. destruct (Ascii.eqb_spec c "/") as [-> | _]; [discriminate | reflexivity].
Qed.

Lemma replace_blank_name_chars (s : string) :
  all_chars filename_char s -> all_chars name_char (PyStr.replace_char " " "_" s).
Proof.
  induction s as [|c s IH]; cbn [PyStr.replace_char all_chars]; [auto |].
  intros [Hc Hs]. split; [| auto].
  destruct (Ascii.eqb c " ") eqn:E; [reflexivity |].
  unfold name_char. now rewrite Hc, E, (filename_char_not_slash c Hc).
Qed.

Lemma sanitize_filename_name_chars (name : string) :
  all_chars name_char (_sanitize_filename name).
Proof.
  unfold _sanitize_filename, PyStr.strip.
  apply replace_blank_name_chars, rstrip_all, lstrip_all, keep_chars_all.
Qed.

(** X21.  A sanitized name holds only word characters, white space other
    than the blank, and the characters [-_().]; in particular it holds no
    blank and no path separator. *)
Theorem sanitize_filename_chars (name : string) :
  all_chars name_char (_sanitize_filename name)
  /\ Py.has_char " " (_sanitize_filename name) = false
  /\ Py.has_char "/" (_sanitize_filename name) = false.
Proof.
  pose proof (sanitize_filename_name_chars name) as H.
  split; [exact H |].
  induction (_sanitize_filename name) as [|c s IH]; [split; reflexivity |].
  destruct H as [Hc Hs]. destruct (IH Hs) as [IH1 IH2].
  unfold name_char in Hc.
  apply andb_true_iff in Hc as [Hc Hslash]. apply andb_true_iff in Hc as [_ Hblank].
  apply negb_true_iff in Hslash, Hblank.
  rewrite Ascii.eqb_sym in Hslash, Hblank.
  unfold Py.has_char in *. cbn [PyStr.contains PyStr.startswith].
  rewrite Hslash, Hblank, IH1, IH2. split; reflexivity.
Qed.

Lemma sanitized_file_name_relative (title extension : string) :
  PyStr.startswith "/" (_sanitize_filename title ++ "." ++ extension) = false.
Proof.
  pose proof (sanitize_filename_name_chars title) as H.
  destruct (_sanitize_filename title) as [|c s]; [reflexivity |].
  destruct H as [Hc _]. unfold name_char in Hc.
  apply andb_true_iff in Hc as [_ Hslash]. apply negb_true_iff in Hslash.
  cbn [append PyStr.startswith]. rewrite Ascii.eqb_sym, Hslash. reflexivity.
Qed.

(** X22.  The file is placed in the folder asked for, whatever the
    title: its path is the folder, a separator when the folder needs
    one, and the sanitized title with the extension. *)
Theorem saved_file_stays_in_folder (folder title extension : string) :
  path_join folder (_sanitize_filename title ++ "." ++ extension)
  = folder ++ folder_separator folder ++ _sanitize_filename title ++ "." ++ extension.
Proof.
  unfold path_join, folder_separator.
  rewrite sanitized_file_name_relative.
  now destruct (negb (PyStr.truthy folder) || PyStr.endswith "/" folder).
Qed.

(** X23.  A song record without a [title] is saved under the name
    [unknown_title] with the extension of the format. *)
Theorem untitled_song_file_name
        (w : world) (a : args) (song : song_record) (text folder : string) :
  file a = Some folder ->
  Py.dict_get "title" song = None ->
  makedirs_error w folder = None ->
  open_error w (path_join folder ("unknown_title." ++ extension a)) = None ->
  deliver w a (song_title song) text
  = (inl tt,
     [MakeDirs folder;
      FileWrite (path_join folder ("unknown_title." ++ extension a)) text;
      StdoutWrite (nl ++ "[FICHIER SAUV" ++ String E_ACUTE "] "
                   ++ path_join folder ("unknown_title." ++ extension a) ++ nl)]).
Proof.
  intros Hfile Htitle Hmk Hopen.
  unfold deliver, song_title, _write_to_file. rewrite Hfile, Htitle, Hmk.
  cbn [bind emit ret].
  change (_sanitize_filename "unknown_title") with "unknown_title".
  unfold extension in Hopen |- *.
  change ("unknown_title" ++ "." ++ match output a with Json_format => "json" | Text => "txt" end)
    with ("unknown_title." ++ match output a with Json_format => "json" | Text => "txt" end).
  rewrite Hopen. cbn [bind emit ret print fst snd List.app].
  reflexivity.
Qed.

Lemma untitled_song_file_name_witness :
  deliver world_without_page (file_args "out") (song_title []) "text"
  = (inl tt,
     [MakeDirs "out";
      FileWrite (path_join "out" ("unknown_title." ++ extension (file_args "out"))) "text";
      StdoutWrite (nl ++ "[FICHIER SAUV" ++ String E_ACUTE "] "
                   ++ path_join "out" ("unknown_title." ++ extension (file_args "out"))
                   ++ nl)]).
Proof.
  apply (untitled_song_file_name world_without_page (file_args "out") [] "text" "out");
    reflexivity.
Defined.

(** X24.  When the record holds under [title] a value that is not a
    string, saving to a file makes the folder and then fails with a
    [TypeError]: no file is written and nothing is printed. *)
Theorem title_not_a_string
        (w : world) (a : args) (song : song_record) (t : json) (text folder : string) :
  file a = Some folder ->
  makedirs_error w folder = None ->
  Py.dict_get "title" song = Some t ->
  (forall s, t <> JString s) ->
  exists msg,
    deliver w a (song_title song) text = (inr (TypeError msg), [MakeDirs folder]).
Proof.
  intros Hfile Hmk Htitle Hstr.
  unfold deliver, song_title, _write_to_file. rewrite Hfile, Htitle, Hmk.
  destruct t; try (eexists; reflexivity).
  now destruct (Hstr s).
Qed.

Lemma title_not_a_string_witness :
  exists msg,
    deliver world_without_page (file_args "out") (song_title [("title", JNull)]) "text"
    = (inr (TypeError msg), [MakeDirs "out"]).
Proof.
  apply (title_not_a_string world_without_page (file_args "out")
                            [("title", JNull)] JNull "text" "out");
    try reflexivity.
  intros s. discriminate.
Defined.

(* ================================================================== *)
(** * Further properties: the JSON output with lyrics *)
(* ================================================================== *)

Lemma dict_get_set_same (k : string) (v : json) (d : list (string * json)) :
  Py.dict_get k (Py.dict_set k v d) = Some v.
Proof.
  induction d as [| [k' v'] d IH]; cbn; [now rewrite String.eqb_refl |].
  destruct (String.eqb k k') eqn:E; cbn; now rewrite E.
Qed.

Lemma dict_get_set_other (k k' : string) (v : json) (d : list (string * json)) :
  k' <> k -> Py.dict_get k' (Py.dict_set k v d) = Py.dict_get k' d.
Proof.
  intros Hne. induction d as [| [k0 v0] d IH]; cbn.
  - apply String.eqb_neq in Hne. now rewrite Hne.
  - destruct (String.eqb_spec k k0) as [-> | Hk]; cbn.
    + apply String.eqb_neq in Hne. now rewrite Hne.
    + now rewrite IH.
Qed.

Lemma dict_set_keys (k : string) (v : json) (d : list (string * json)) :
  (In k (map fst d) /\ map fst (Py.dict_set k v d) = map fst d)
  \/ (~ In k (map fst d) /\ map fst (Py.dict_set k v d) = (map fst d ++ [k])%list).
Proof.
  induction d as [| [k' v'] d IH]; cbn; [right; tauto |].
  destruct (String.eqb_spec k k') as [-> | Hne]; cbn; [left; tauto |].
  destruct IH as [[Hin ->] | [Hout ->]]; [left | right]; split; try reflexivity.
  - tauto.
  - intros [H | H]; [congruence | tauto].
Qed.

Lemma dict_set_unique (k : string) (v : json) (d : list (string * json)) :
  unique_keys v -> unique_keys (JDict d) -> unique_keys (JDict (Py.dict_set k v d)).
Proof.
  intros Hv [Hnd Hall]. split.
  - destruct (dict_set_keys k v d) as [[_ ->] | [Hout ->]]; [exact Hnd |].
    apply NoDup_app; [exact Hnd | repeat constructor; intros [] |].
    intros x Hx [<- | []]. contradiction.
  - clear Hnd. induction d as [| [k' v'] d IH]; cbn; [tauto |].
    destruct Hall as [Hv' Hall]. destruct (String.eqb k k'); cbn; [tauto |].
    split; [exact Hv' | exact (IH Hall)].
Qed.

(** X25.  With JSON output and both the metadata and the lyrics wanted,
    the text read back as JSON is a record that holds the lyrics under
    [lyrics] and, under every other key, what the song record holds: a
    [lyrics] entry of the record itself is replaced. *)
Theorem combined_json_round_trip (a : args) (song : song_record) (text : string) :
  output a = Json_format -> lyrics a = false -> data a = false ->
  unique_keys (JDict song) ->
  exists (out : string) (d : song_record),
    compose a song text = (inl out, []) /\
    Json.loads out = Some (JDict d) /\
    Py.dict_get "lyrics" d = Some (JString text) /\
    forall k, k <> "lyrics" -> Py.dict_get k d = Py.dict_get k song.
Proof.
  intros Hout Hl Hd Huniq.
  exists (Json.dumps (JDict (Py.dict_set "lyrics" (JString text) song))),
         (Py.dict_set "lyrics" (JString text) song).
  split; [unfold compose; now rewrite Hout, Hl, Hd |].
  split; [apply loads_dumps, dict_set_unique; [exact I | exact Huniq] |].
  split; [apply dict_get_set_same |].
  intros k Hk. now apply dict_get_set_other.
Qed.

Lemma combined_json_round_trip_witness :
  exists (out : string) (d : song_record),
    compose (mkArgs None None false false Json_format None) band_song "la la"
    = (inl out, []) /\
    Json.loads out = Some (JDict d) /\
    Py.dict_get "lyrics" d = Some (JString "la la") /\
    forall k, k <> "lyrics" -> Py.dict_get k d = Py.dict_get k band_song.
Proof.
  apply (combined_json_round_trip (mkArgs None None false false Json_format None)
                                  band_song "la la"); try reflexivity.
  cbn. repeat split;
    repeat (constructor; [cbn; intuition discriminate |]); constructor.
Defined.

(** X26.  With JSON output and only the lyrics wanted, the text read back
    as JSON is the record with the one key [lyrics] and the lyrics as
    they were scraped, whatever characters they hold. *)
Theorem lyrics_json_round_trip (a : args) (song : song_record) (text : string) :
  output a = Json_format -> lyrics a = true ->
  exists out : string,
    compose a song text = (inl out, []) /\
    Json.loads out = Some (JDict [("lyrics", JString text)]).
Proof.
  intros Hout Hl. exists (Json.dumps (JDict [("lyrics", JString text)])).
  split; [unfold compose; now rewrite Hout, Hl |].
  apply loads_dumps. cbn. repeat split; repeat constructor. intros [].
Qed.

Lemma lyrics_json_round_trip_witness :
  exists out : string,
    compose lyrics_json_args band_song ("a" ++ nl ++ String DQUOTE "b")
    = (inl out, []) /\
    Json.loads out = Some (JDict [("lyrics", JString ("a" ++ nl ++ String DQUOTE "b"))]).
Proof.
  apply (lyrics_json_round_trip lyrics_json_args band_song
                                ("a" ++ nl ++ String DQUOTE "b")); reflexivity.
Defined.

(* ================================================================== *)
(** * Further properties: the song record *)
(* ================================================================== *)

Lemma get_genius_song_unreachable (w : world) (song_id : Z) (token err : string) :
  genius_song w token song_id = Unreachable err ->
  _get_genius_song w song_id token
  = (inr (RequestException err), [song_request song_id]).
Proof. intros H. unfold _get_genius_song, requests_get. now rewrite H. Qed.

(** X27.  When the request for the song record gets no answer, nothing
    catches the exception: the run ends with a traceback that names it
    and with status 1, after the search and the request, and without the
    [[ERROR]] label. *)
Theorem song_fetch_unreachable
        (token : string) (w : world) (a : args) (track artist : string)
        (song_id : Z) (err : string) :
  reaches_fetch token w a track artist song_id ->
  genius_song w token song_id = Unreachable err ->
  run_script token w a
  = ((snd (link_metadata w a)
      ++ [search_request track artist; song_request song_id;
          StderrWrite (traceback (RequestException err))])%list,
     1%Z)
  /\ existsb error_message (fst (run_script token w a)) = false.
Proof.
  intros Hreach Herr.
  assert (H : run_script token w a
              = ((snd (link_metadata w a)
                  ++ [search_request track artist; song_request song_id;
                      StderrWrite (traceback (RequestException err))])%list,
                 1%Z)).
  { unfold run_script. rewrite (main_reaches_fetch _ _ _ _ _ _ Hreach).
    rewrite (get_genius_song_unreachable _ _ _ _ Herr).
    cbn [bind fst snd]. now rewrite <- !List.app_assoc. }
  split; [exact H |]. rewrite H. cbn [fst]. rewrite existsb_app.
  now rewrite (requests_not_labelled _ (link_metadata_events w a)).
Qed.

Lemma song_fetch_unreachable_witness :
  run_script "secret" (world_of_title_hits "Song - Band" [mkHit 5 "The Band"]) some_args
  = ((snd (link_metadata (world_of_title_hits "Song - Band" [mkHit 5 "The Band"]) some_args)
      ++ [search_request "Song" "Band"; song_request 5;
          StderrWrite (traceback (RequestException "offline"))])%list,
     1%Z)
  /\ existsb error_message
       (fst (run_script "secret" (world_of_title_hits "Song - Band" [mkHit 5 "The Band"])
                        some_args)) = false.
Proof.
  apply (song_fetch_unreachable
           "secret" (world_of_title_hits "Song - Band" [mkHit 5 "The Band"]) some_args
           "Song" "Band" 5%Z "offline").
  - split; [repeat split; discriminate |].
    exists [mkHit 5 "The Band"]. split; [| split; [reflexivity | discriminate]].
    eexists. repeat split; reflexivity.
  - reflexivity.
Defined.

(* ================================================================== *)
(** * Further properties: a malformed answer of the link service *)
(* ================================================================== *)

Lemma link_metadata_malformed (w : world) (a : args) (data : json) :
  (given (spotify a) = true /\ answers (spotify_oembed w (link (spotify a))) data)
  \/ (given (spotify a) = false /\ given (soundcloud a) = true /\
      answers (soundcloud_oembed w (link (soundcloud a))) data) ->
  malformed data = true ->
  exists msg, fst (link_metadata w a) = inr (AttributeError msg).
Proof.
  intros [[Hsp Hans] | (Hsp & Hsc & Hans)] Hbad; unfold link_metadata.
  - rewrite Hsp. now apply (get_spotify_metadata_malformed w _ data).
  - rewrite Hsp, Hsc. now apply (get_soundcloud_metadata_malformed w _ data).
Qed.

(** X28.  When the link service answers with JSON that is not an object,
    or with an object whose title is neither falsy nor a string, the
    [AttributeError] of the extractor is caught nowhere: the run ends after
    the one request with the interpreter's traceback and status 1, and
    writes no message with the [[ERROR]] label. *)
Theorem malformed_answer_uncaught
        (token : string) (w : world) (a : args) (data : json) :
  token_set token ->
  (given (spotify a) = true /\ answers (spotify_oembed w (link (spotify a))) data)
  \/ (given (spotify a) = false /\ given (soundcloud a) = true /\
      answers (soundcloud_oembed w (link (soundcloud a))) data) ->
  malformed data = true ->
  exists msg,
    run_script token w a
    = ((snd (link_metadata w a) ++ [StderrWrite (traceback (AttributeError msg))])%list,
       1%Z)
    /\ existsb error_message (fst (run_script token w a)) = false.
Proof.
  intros Htok Hans Hbad.
  destruct (link_metadata_malformed w a data Hans Hbad) as [msg Hmsg]. exists msg.
  assert (H : run_script token w a
              = ((snd (link_metadata w a)
                  ++ [StderrWrite (traceback (AttributeError msg))])%list, 1%Z)).
  { unfold run_script, main.
    rewrite (token_check token Htok), (read_link_escapes w a msg Hmsg). reflexivity. }
  split; [exact H |]. rewrite H. cbn [fst]. rewrite existsb_app.
  now rewrite (requests_not_labelled _ (link_metadata_events w a)).
Qed.

Lemma malformed_answer_uncaught_witness :
  exists msg,
    run_script "secret" (world_of_data (JList [])) some_args
    = ((snd (link_metadata (world_of_data (JList [])) some_args)
        ++ [StderrWrite (traceback (AttributeError msg))])%list,
       1%Z)
    /\ existsb error_message (fst (run_script "secret" (world_of_data (JList [])) some_args))
       = false.
Proof.
  apply (malformed_answer_uncaught "secret" (world_of_data (JList [])) some_args (JList [])).
  - split; discriminate.
  - left. split; [reflexivity |]. eexists. repeat split; reflexivity.
  - reflexivity.
Defined.

Example malformed_answer_run :
  run_script "secret" (world_of_data (JList [])) some_args
  = ([HttpGet "https://open.spotify.com/oembed?url=https://open.spotify.com/track/1" [];
      StderrWrite ("Traceback (most recent call last):" ++ nl
                   ++ "AttributeError: 'list' object has no attribute 'get'" ++ nl)],
     1%Z).
Proof. reflexivity. Qed.
